(** * Stock-Prompt-Pro: the batch pipeline of App.tsx and its helpers

    A shallow embedding of the orchestration code of the repository:
    - [types.ts]: the records and enumerations;
    - [utils/pdfUtils.ts] ([convertPdfToImages]);
    - [services/geminiService.ts] ([generateStockMetadata], [refineMetadata]);
    - [components/ResultCard.tsx] (the keyword operations);
    - [components/FileUpload.tsx], [components/BatchResults.tsx],
      [components/ConfigPanel.tsx] (the guards on the user's events);
    - [App.tsx]: the React state, its updaters and the asynchronous
      handlers, as a transition system whose steps are the maximal
      synchronous runs between two [await]s.

    External capabilities (the Gemini backend, pdf.js, the canvas,
    [Math.random]) are inputs of the events. *)

From Stdlib Require Import List String Ascii Bool Arith Lia DecimalString.
From Stdlib Require Import Permutation Sorted DecimalNat.
Import ListNotations.
Local Open Scope string_scope.
Local Open Scope bool_scope.

(* ================================================================= *)
(** ** JavaScript strings *)

(** [String.prototype.trim] strips white space at both ends.  Characters
    are the 8-bit code units of [ascii]: TAB, LF, VT, FF, CR, SP, NBSP. *)
Definition isWhiteSpace (c : ascii) : bool :=
  let n := nat_of_ascii c in
  Nat.eqb n 9 || Nat.eqb n 10 || Nat.eqb n 11 || Nat.eqb n 12 || Nat.eqb n 13
  || Nat.eqb n 32 || Nat.eqb n 160.

Fixpoint trimStart (s : string) : string :=
  match s with
  | String c s' => if isWhiteSpace c then trimStart s' else s
  | EmptyString => EmptyString
  end.

Fixpoint trimEnd (s : string) : string :=
  match s with
  | EmptyString => EmptyString
  | String c s' =>
      match trimEnd s' with
      | EmptyString => if isWhiteSpace c then EmptyString else String c EmptyString
      | t => String c t
      end
  end.

Definition trim (s : string) : string := trimEnd (trimStart s).

(** A string is truthy when it is not empty. *)
Definition truthy (s : string) : bool :=
  match s with EmptyString => false | _ => true end.

(** [a || b] on strings where [a] may be [undefined]/[null]. *)
Definition orElse (a : option string) (b : string) : string :=
  match a with
  | Some s => if truthy s then s else b
  | None => b
  end.

(** [Array.prototype.includes] on an array of strings. *)
Definition includes (l : list string) (x : string) : bool :=
  existsb (String.eqb x) l.

Fixpoint dropChars (n : nat) (s : string) : string :=
  match n, s with
  | S n', String _ s' => dropChars n' s'
  | _, _ => s
  end.

(** [s.replace(pat, rep)] with a string pattern: only the first
    occurrence is replaced. *)
Fixpoint replace (pat rep s : string) : string :=
  if prefix pat s then rep ++ dropChars (String.length pat) s
  else match s with
       | EmptyString => EmptyString
       | String c s' => String c (replace pat rep s')
       end.

(** [s.substring(a, b)] for [a <= b]. *)
Definition jsSubstring (a b : nat) (s : string) : string :=
  substring a (b - a) s.

(** Template-literal rendering of a non-negative integer. *)
Definition numberToString (n : nat) : string :=
  NilZero.string_of_uint (Nat.to_uint n).

(* ================================================================= *)
(** ** types.ts *)

Inductive TargetModel := midjourney | stable_diffusion | firefly | dalle.
Inductive KeywordDensity := low | standard | high.

Record PromptConfig := {
  targetModel : TargetModel;
  aspectRatio : string;
  includeTechnical : bool;
  keywordDensity : KeywordDensity
}.

Record StockMetadata := {
  title : string;
  description : string;
  ai_prompt : string;
  keywords : list string;
  category : string;
  technical_settings : option string;
  used_model : option TargetModel
}.

(** The browser's [File]: name, MIME type and content. *)
Record File := {
  name : string;
  type : string;
  bytes : string
}.

Inductive Status := Pending | Processing | Completed | Error.

Record BatchItem := {
  id : string;
  file : File;
  status : Status;
  data : option StockMetadata;
  error : option string
}.

Record AnalysisState := {
  items : list BatchItem;
  isProcessing : bool;
  activeItemId : option string
}.

Definition validTypes : list string :=
  ["image/jpeg"; "image/png"; "image/webp"; "application/pdf"].

(** What a rejected promise or a [throw] carries; [message] may be
    missing ([catch (error: any)]). *)
Record JsError := { message : option string }.

Definition Result (A : Type) : Type := (A + JsError)%type.

Definition newError (msg : string) : JsError := {| message := Some msg |}.

(* ================================================================= *)
(** ** utils/pdfUtils.ts *)

(** What pdf.js and the canvas do with one page. *)
Inductive PageRender :=
| RenderThrows                (* getPage or render rejects *)
| NoContext                   (* canvas.getContext('2d') is null *)
| NoBlob                      (* canvas.toBlob yields null *)
| Blob (b : string).          (* the JPEG content *)

Record PdfDocument := {
  numPages : nat;
  page : nat -> PageRender
}.

(** The browser side of the conversion: is [window.pdfjsLib] there, and
    what does [getDocument] make of a file ([None]: it rejects). *)
Record PdfEnv := {
  pdfjsLib : bool;
  getDocument : File -> option PdfDocument
}.

Definition pageFileName (pdfFile : File) (i : nat) : string :=
  replace ".pdf" "" (name pdfFile) ++ "_page_" ++ numberToString i ++ ".jpg".

(** The body of [for (let i = 1; i <= maxPages; i++)], with [k] pages
    left to visit; [None] when an awaited call rejects. *)
Fixpoint renderPages (pdfFile : File) (pdf : PdfDocument) (i k : nat)
         (images : list File) : option (list File) :=
  match k with
  | 0 => Some images
  | S k' =>
      match page pdf i with
      | RenderThrows => None
      | NoContext => renderPages pdfFile pdf (S i) k' images
      | NoBlob => renderPages pdfFile pdf (S i) k' images
      | Blob b =>
          let imageFile := {| name := pageFileName pdfFile i;
                              type := "image/jpeg";
                              bytes := b |} in
          renderPages pdfFile pdf (S i) k' (images ++ [imageFile])%list
      end
  end.

Definition convertPdfToImages (env : PdfEnv) (pdfFile : File)
  : Result (list File) :=
  if negb (pdfjsLib env) then
    inr (newError "PDF Library not loaded. Please refresh the page.")
  else
    match getDocument env pdfFile with
    | None =>
        inr (newError "Gagal memproses file PDF. Pastikan file tidak rusak/terpassword.")
    | Some pdf =>
        let maxPages := Nat.min (numPages pdf) 10 in
        match renderPages pdfFile pdf 1 maxPages [] with
        | Some images => inl images
        | None =>
            inr (newError "Gagal memproses file PDF. Pastikan file tidak rusak/terpassword.")
        end
    end.

(* ================================================================= *)
(** ** services/geminiService.ts *)

(** What the [try] block of a service call meets: a response whose text
    parses to metadata, a response without text, or an exception (the
    network, the key, [JSON.parse]). *)
Inductive BackendResponse :=
| ResponseText (metadata : StockMetadata)
| ResponseNoText
| BackendThrows.

(** [{ ...metadata, used_model: m }] *)
Definition withUsedModel (metadata : StockMetadata) (m : TargetModel)
  : StockMetadata :=
  {| title := title metadata;
     description := description metadata;
     ai_prompt := ai_prompt metadata;
     keywords := keywords metadata;
     category := category metadata;
     technical_settings := technical_settings metadata;
     used_model := Some m |}.

Definition generateStockMetadata (f : File) (config : PromptConfig)
           (response : BackendResponse) : Result StockMetadata :=
  match response with
  | ResponseText metadata => inl (withUsedModel metadata (targetModel config))
  | _ => inr (newError
           "Gagal menganalisis file. Pastikan API Key valid dan file tidak rusak.")
  end.

Definition refineMetadata (currentData : StockMetadata) (instruction : string)
           (config : PromptConfig) (response : BackendResponse)
  : Result StockMetadata :=
  match response with
  | ResponseText metadata => inl (withUsedModel metadata (targetModel config))
  | _ => inr (newError "Gagal melakukan refine prompt.")
  end.

(* ================================================================= *)
(** ** components/ResultCard.tsx: the keyword operations

    Each handler computes the value it passes to [onUpdate]; [None] is
    the path on which [onUpdate] is not called. *)

(** [{ ...data, keywords: ks }] *)
Definition withKeywords (d : StockMetadata) (ks : list string) : StockMetadata :=
  {| title := title d;
     description := description d;
     ai_prompt := ai_prompt d;
     keywords := ks;
     category := category d;
     technical_settings := technical_settings d;
     used_model := used_model d |}.

Definition addKeyword (d : StockMetadata) (keyword : string)
  : option StockMetadata :=
  let cleanKw := trim keyword in
  if truthy cleanKw && negb (includes (keywords d) cleanKw)
  then Some (withKeywords d (keywords d ++ [cleanKw])%list)
  else None.

(** The metadata the card shows after the click: the updated one when
    [onUpdate] ran, the old one otherwise. *)
Definition afterAddKeyword (d : StockMetadata) (keyword : string) : StockMetadata :=
  match addKeyword d keyword with
  | Some d' => d'
  | None => d
  end.

Fixpoint filterIndex (ks : list string) (index indexToRemove : nat) : list string :=
  match ks with
  | [] => []
  | k :: ks' =>
      if Nat.eqb index indexToRemove then filterIndex ks' (S index) indexToRemove
      else k :: filterIndex ks' (S index) indexToRemove
  end.

Definition removeKeyword (d : StockMetadata) (indexToRemove : nat) : StockMetadata :=
  withKeywords d (filterIndex (keywords d) 0 indexToRemove).

(* ================================================================= *)
(** ** App.tsx: the state updaters *)

(** [generateId]: [r1] and [r2] are the two renderings
    [Math.random().toString(36)] the call draws. *)
Definition generateId (r1 r2 : string) : string :=
  jsSubstring 2 15 r1 ++ jsSubstring 2 15 r2.

(** [finalFiles.map(file => ({ id: generateId(), file, status: 'pending',
    data: null, error: null }))]; [random k] is the rendering of the
    k-th draw of [Math.random] made by the map, [n] the draws made so
    far. *)
Fixpoint createItems (random : nat -> string) (n : nat) (finalFiles : list File)
  : list BatchItem :=
  match finalFiles with
  | [] => []
  | f :: fs =>
      {| id := generateId (random n) (random (S n));
         file := f;
         status := Pending;
         data := None;
         error := None |} :: createItems random (S (S n)) fs
  end.

(** [prev => ({ ...prev, items: prev.items.map(f) })] *)
Definition mapItems (f : BatchItem -> BatchItem) (prev : AnalysisState)
  : AnalysisState :=
  {| items := map f (items prev);
     isProcessing := isProcessing prev;
     activeItemId := activeItemId prev |}.

(** [i => i.id === itemId ? { ...i, status: 'processing' } : i] *)
Definition markProcessing (itemId : string) (i : BatchItem) : BatchItem :=
  if String.eqb (id i) itemId
  then {| id := id i; file := file i; status := Processing;
          data := data i; error := error i |}
  else i.

(** [i => i.id === itemId ? { ...i, status: 'completed', data: result } : i] *)
Definition markCompleted (itemId : string) (result : StockMetadata)
           (i : BatchItem) : BatchItem :=
  if String.eqb (id i) itemId
  then {| id := id i; file := file i; status := Completed;
          data := Some result; error := error i |}
  else i.

(** [i => i.id === itemId ? { ...i, status: 'error', error: msg } : i] *)
Definition markError (itemId : string) (msg : string) (i : BatchItem) : BatchItem :=
  if String.eqb (id i) itemId
  then {| id := id i; file := file i; status := Error;
          data := data i; error := Some msg |}
  else i.

(** [item => item.id === itemId ? { ...item, data: newData } : item] *)
Definition replaceData (itemId : string) (newData : StockMetadata)
           (i : BatchItem) : BatchItem :=
  if String.eqb (id i) itemId
  then {| id := id i; file := file i; status := status i;
          data := Some newData; error := error i |}
  else i.

(** [prev => ({ ...prev, isProcessing: b })] *)
Definition setIsProcessing (b : bool) (prev : AnalysisState) : AnalysisState :=
  {| items := items prev; isProcessing := b; activeItemId := activeItemId prev |}.

(** The updater of [handleFilesSelect]:
    [activeItemId: prev.activeItemId || newItems[0].id].  Reading [.id]
    of [newItems[0]] throws a TypeError when [newItems] is empty and the
    left operand is falsy: [None]. *)
Definition appendItems (newItems : list BatchItem) (prev : AnalysisState)
  : option AnalysisState :=
  let updatedItems := (items prev ++ newItems)%list in
  match activeItemId prev with
  | Some a =>
      if truthy a
      then Some {| items := updatedItems; isProcessing := isProcessing prev;
                   activeItemId := Some a |}
      else match newItems with
           | [] => None
           | first :: _ =>
               Some {| items := updatedItems; isProcessing := isProcessing prev;
                       activeItemId := Some (id first) |}
           end
  | None =>
      match newItems with
      | [] => None
      | first :: _ =>
          Some {| items := updatedItems; isProcessing := isProcessing prev;
                  activeItemId := Some (id first) |}
      end
  end.

Definition handleClear : AnalysisState :=
  {| items := []; isProcessing := false; activeItemId := None |}.

Definition handleSelectItem (itemId : string) (prev : AnalysisState)
  : AnalysisState :=
  {| items := items prev; isProcessing := isProcessing prev;
     activeItemId := Some itemId |}.

Definition handleUpdateItem (itemId : string) (newData : StockMetadata)
           (prev : AnalysisState) : AnalysisState :=
  mapItems (replaceData itemId newData) prev.

(** [items.find(i => i.id === itemId)] *)
Definition findItem (itemId : string) (l : list BatchItem) : option BatchItem :=
  find (fun i => String.eqb (id i) itemId) l.

(** BatchResults.tsx:
    [items.find(item => item.id === activeItemId) || items[0]]. *)
Definition activeItem (st : AnalysisState) : option BatchItem :=
  match match activeItemId st with
        | Some a => findItem a (items st)
        | None => None
        end with
  | Some item => Some item
  | None => hd_error (items st)
  end.

(** BatchResults.tsx renders the [ResultCard] of the active item, and
    with it the edit and refine controls, only when
    [activeItem.status === 'completed' && activeItem.data]. *)
Definition resultCard (st : AnalysisState) : option (BatchItem * StockMetadata) :=
  match activeItem st with
  | Some item =>
      match status item, data item with
      | Completed, Some d => Some (item, d)
      | _, _ => None
      end
  | None => None
  end.

(** The loop of [handleFilesSelect] that fills [finalFiles]. *)
Definition expandFile (env : PdfEnv) (f : File) : list File :=
  if String.eqb (type f) "application/pdf" then
    match convertPdfToImages env f with
    | inl images => images
    | inr _ => [f]
    end
  else [f].

Definition prepareFiles (env : PdfEnv) (files : list File) : list File :=
  flat_map (expandFile env) files.

(** FileUpload.tsx, [validateAndProcessFiles]: the files whose type is
    one of [validTypes]. *)
Definition validFiles (fileList : list File) : list File :=
  filter (fun f => includes validTypes (type f)) fileList.

(** ConfigPanel.tsx, [handleChange]: [onChange({ ...config, [key]: value })]. *)
Inductive ConfigEdit :=
| EditTargetModel (m : TargetModel)
| EditAspectRatio (r : string)
| EditIncludeTechnical (b : bool)
| EditKeywordDensity (d : KeywordDensity).

Definition withAspectRatio (config : PromptConfig) (r : string) : PromptConfig :=
  {| targetModel := targetModel config; aspectRatio := r;
     includeTechnical := includeTechnical config;
     keywordDensity := keywordDensity config |}.

Definition handleChange (config : PromptConfig) (e : ConfigEdit) : PromptConfig :=
  match e with
  | EditTargetModel m =>
      {| targetModel := m; aspectRatio := aspectRatio config;
         includeTechnical := includeTechnical config;
         keywordDensity := keywordDensity config |}
  | EditAspectRatio r => withAspectRatio config r
  | EditIncludeTechnical b =>
      {| targetModel := targetModel config; aspectRatio := aspectRatio config;
         includeTechnical := b; keywordDensity := keywordDensity config |}
  | EditKeywordDensity d =>
      {| targetModel := targetModel config; aspectRatio := aspectRatio config;
         includeTechnical := includeTechnical config; keywordDensity := d |}
  end.

(* ================================================================= *)
(** ** App.tsx: the component and its asynchronous handlers

    The hooks of [App] ([useState]) form the store.  An invocation of
    [handleFilesSelect] (then [processBatchQueue]) or of
    [handleRefineItem] is a process: it keeps what its closure captured
    at the render it was created in, and its position.  One event runs a
    handler from one suspension point to the next. *)

Record Store := {
  state : AnalysisState;
  promptConfig : PromptConfig;
  isRefining : bool;
  isPreparingFiles : bool
}.

Inductive RunnerPc :=
| Preparing                 (* in handleFilesSelect, converting PDFs *)
| Awaiting (index : nat)    (* in processBatchQueue, at the await of item [index] *)
| Finished.

(** One invocation of [handleFilesSelect]: [captured] is the
    [promptConfig] of the render whose handler was called, [selected]
    its argument, [itemsToProcess] the argument it gives
    [processBatchQueue]. *)
Record Runner := {
  captured : PromptConfig;
  selected : list File;
  itemsToProcess : list BatchItem;
  pc : RunnerPc
}.

(** How the promise a handler returns ends. *)
Inductive Completion := Fulfilled | Rejected (e : JsError).

(** One invocation of [handleRefineItem] past its guard. *)
Record Refinement := {
  refineId : string;
  refineConfig : PromptConfig;
  newAspectRatio : string;
  settled : option Completion
}.

(** A call of [generateStockMetadata(item.file, promptConfig)]. *)
Record Call := {
  caller : nat;
  callItem : string;
  callFile : File;
  callConfig : PromptConfig
}.

Record Sys := {
  store : Store;
  runners : list Runner;
  refinements : list Refinement;
  calls : list Call;          (* the generation calls made, oldest first *)
  issued : list string;       (* the values [generateId] returned, oldest first *)
  console : list string       (* the [console.error] lines of App.tsx *)
}.

Inductive Event :=
| SelectFiles (fileList : list File)
    (* a drop or a file-input change: validateAndProcessFiles, then
       handleFilesSelect up to its first await *)
| FilesPrepared (r : nat) (env : PdfEnv) (random : nat -> string)
    (* the conversions of runner [r] are done: the items are created and
       appended, processBatchQueue starts *)
| GenerationSettled (r : nat) (outcome : Result StockMetadata)
    (* the generation call runner [r] awaits settles *)
| UpdateItem (newData : StockMetadata)
    (* ResultCard calls onUpdate *)
| RefineItem (instruction ratio : string)
    (* ResultCard's handleRefineSubmit *)
| RefineSettled (k : nat) (outcome : Result StockMetadata)
    (* the refineMetadata call of refinement [k] settles *)
| Clear
| SelectItem (index : nat)
    (* a click on the [index]-th entry of the queue list *)
| ConfigChange (e : ConfigEdit).

Definition initialState : AnalysisState :=
  {| items := []; isProcessing := false; activeItemId := None |}.

Definition initialConfig : PromptConfig :=
  {| targetModel := midjourney; aspectRatio := "16:9";
     includeTechnical := true; keywordDensity := standard |}.

Definition init : Sys :=
  {| store := {| state := initialState; promptConfig := initialConfig;
                 isRefining := false; isPreparingFiles := false |};
     runners := []; refinements := []; calls := []; issued := [];
     console := [] |}.

Fixpoint setNth {A : Type} (n : nat) (x : A) (l : list A) : list A :=
  match n, l with
  | 0, _ :: l' => x :: l'
  | S n', y :: l' => y :: setNth n' x l'
  | _, [] => []
  end.

Definition withState (st : Store) (a : AnalysisState) : Store :=
  {| state := a; promptConfig := promptConfig st;
     isRefining := isRefining st; isPreparingFiles := isPreparingFiles st |}.

Definition withPc (R : Runner) (items' : list BatchItem) (p : RunnerPc) : Runner :=
  {| captured := captured R; selected := selected R;
     itemsToProcess := items'; pc := p |}.

(** [processBatchQueue] from the head of its loop, about to visit
    [itemsToProcess[i]]: either the item is marked and its generation
    call made (with the [promptConfig] of the closure), or the loop is
    over and [isProcessing] is reset. *)
Definition loopFrom (r : nat) (config : PromptConfig)
           (itemsToProcess : list BatchItem) (i : nat) (a : AnalysisState)
  : AnalysisState * RunnerPc * list Call :=
  match nth_error itemsToProcess i with
  | Some item =>
      (mapItems (markProcessing (id item)) a,
       Awaiting i,
       [{| caller := r; callItem := id item; callFile := file item;
           callConfig := config |}])
  | None => (setIsProcessing false a, Finished, [])
  end.

(** The [try]/[catch] around the awaited call in [processBatchQueue]. *)
Definition settleItem (item : BatchItem) (outcome : Result StockMetadata)
           (a : AnalysisState) : AnalysisState :=
  match outcome with
  | inl result => mapItems (markCompleted (id item) result) a
  | inr e =>
      mapItems (markError (id item) (orElse (message e) "Failed to process")) a
  end.

(** [handleRefineItem] up to its await: the guard reads the [state] and
    the [promptConfig] of the current render. *)
Definition startRefine (itemId instruction ratio : string) (s : Sys) : Sys :=
  let st := store s in
  match findItem itemId (items (state st)) with
  | None => s
  | Some item =>
      match data item with
      | None => s
      | Some _ =>
          {| store := {| state := state st; promptConfig := promptConfig st;
                         isRefining := true;
                         isPreparingFiles := isPreparingFiles st |};
             runners := runners s;
             refinements :=
               (refinements s ++
                [{| refineId := itemId;
                    refineConfig := withAspectRatio (promptConfig st) ratio;
                    newAspectRatio := ratio;
                    settled := None |}])%list;
             calls := calls s; issued := issued s; console := console s |}
      end
  end.

(** [handleRefineItem] from its await on: the [try] continues or the
    [catch] logs, then [finally] resets the flag; the promise the
    handler returned is fulfilled either way. *)
Definition finishRefine (k : nat) (q : Refinement)
           (outcome : Result StockMetadata) (s : Sys) : Sys :=
  let st := store s in
  let q' := {| refineId := refineId q; refineConfig := refineConfig q;
               newAspectRatio := newAspectRatio q;
               settled := Some Fulfilled |} in
  match outcome with
  | inl refinedResult =>
      {| store := {| state := mapItems (replaceData (refineId q) refinedResult)
                                       (state st);
                     promptConfig :=
                       withAspectRatio (promptConfig st) (newAspectRatio q);
                     isRefining := false;
                     isPreparingFiles := isPreparingFiles st |};
         runners := runners s;
         refinements := setNth k q' (refinements s);
         calls := calls s; issued := issued s; console := console s |}
  | inr _ =>
      {| store := {| state := state st; promptConfig := promptConfig st;
                     isRefining := false;
                     isPreparingFiles := isPreparingFiles st |};
         runners := runners s;
         refinements := setNth k q' (refinements s);
         calls := calls s; issued := issued s;
         console := (console s ++ ["Refine failed"])%list |}
  end.

(** One event; [None] when the event cannot happen in [s] (its control
    is not rendered or is disabled, the process is not at that point) or
    when an updater throws. *)
Definition exec (e : Event) (s : Sys) : option Sys :=
  let st := store s in
  match e with
  | SelectFiles fileList =>
      match validFiles fileList with
      | [] => Some s
      | files =>
          Some {| store := {| state := state st; promptConfig := promptConfig st;
                              isRefining := isRefining st;
                              isPreparingFiles := true |};
                  runners :=
                    (runners s ++
                     [{| captured := promptConfig st; selected := files;
                         itemsToProcess := []; pc := Preparing |}])%list;
                  refinements := refinements s;
                  calls := calls s; issued := issued s; console := console s |}
      end
  | FilesPrepared r env random =>
      match nth_error (runners s) r with
      | Some R =>
          match pc R with
          | Preparing =>
              let finalFiles := prepareFiles env (selected R) in
              let newItems := createItems random 0 finalFiles in
              match appendItems newItems (state st) with
              | None => None
              | Some a1 =>
                  let '(a2, p, cs) :=
                    loopFrom r (captured R) newItems 0 (setIsProcessing true a1) in
                  Some {| store := {| state := a2;
                                      promptConfig := promptConfig st;
                                      isRefining := isRefining st;
                                      isPreparingFiles := false |};
                          runners := setNth r (withPc R newItems p) (runners s);
                          refinements := refinements s;
                          calls := (calls s ++ cs)%list;
                          issued := (issued s ++ map id newItems)%list;
                          console := console s |}
              end
          | _ => None
          end
      | None => None
      end
  | GenerationSettled r outcome =>
      match nth_error (runners s) r with
      | Some R =>
          match pc R with
          | Awaiting i =>
              match nth_error (itemsToProcess R) i with
              | Some item =>
                  let a1 := settleItem item outcome (state st) in
                  let '(a2, p, cs) :=
                    loopFrom r (captured R) (itemsToProcess R) (S i) a1 in
                  Some {| store := withState st a2;
                          runners :=
                            setNth r (withPc R (itemsToProcess R) p) (runners s);
                          refinements := refinements s;
                          calls := (calls s ++ cs)%list;
                          issued := issued s;
                          console := console s |}
              | None => None
              end
          | _ => None
          end
      | None => None
      end
  | UpdateItem newData =>
      match resultCard (state st) with
      | Some (item, _) =>
          Some {| store := withState st (handleUpdateItem (id item) newData (state st));
                  runners := runners s; refinements := refinements s;
                  calls := calls s; issued := issued s; console := console s |}
      | None => None
      end
  | RefineItem instruction ratio =>
      match resultCard (state st) with
      | Some (item, _) =>
          if truthy (trim instruction)
          then Some (startRefine (id item) instruction ratio s)
          else Some s
      | None => None
      end
  | RefineSettled k outcome =>
      match nth_error (refinements s) k with
      | Some q =>
          match settled q with
          | None => Some (finishRefine k q outcome s)
          | Some _ => None
          end
      | None => None
      end
  | Clear =>
      (* FileUpload shows the reset button when
         [onClear && !isProcessing], [onClear] being defined when
         [state.items.length > 0] *)
      match items (state st) with
      | [] => None
      | _ :: _ =>
          if isProcessing (state st) || isPreparingFiles st then None
          else Some {| store := withState st handleClear;
                       runners := runners s; refinements := refinements s;
                       calls := calls s; issued := issued s;
                       console := console s |}
      end
  | SelectItem index =>
      match nth_error (items (state st)) index with
      | Some item =>
          Some {| store := withState st (handleSelectItem (id item) (state st));
                  runners := runners s; refinements := refinements s;
                  calls := calls s; issued := issued s; console := console s |}
      | None => None
      end
  | ConfigChange e =>
      (* ConfigPanel: every control has
         [disabled={state.isProcessing || isRefining || isPreparingFiles}] *)
      if isProcessing (state st) || isRefining st || isPreparingFiles st
      then None
      else Some {| store := {| state := state st;
                               promptConfig := handleChange (promptConfig st) e;
                               isRefining := isRefining st;
                               isPreparingFiles := isPreparingFiles st |};
                   runners := runners s; refinements := refinements s;
                   calls := calls s; issued := issued s; console := console s |}
  end.

(** A schedule of events, oldest first. *)
Fixpoint run (es : list Event) (s : Sys) : option Sys :=
  match es with
  | [] => Some s
  | e :: es' =>
      match exec e s with
      | Some s' => run es' s'
      | None => None
      end
  end.

Definition reachable (s : Sys) : Prop := exists es, run es init = Some s.

(* ================================================================= *)
(** ** Auxiliary definitions for the statements *)

Definition blobOf (p : PageRender) : string :=
  match p with Blob b => b | _ => "" end.

(** The image [convertPdfToImages] builds for page [i]. *)
Definition pageImage (pdfFile : File) (pdf : PdfDocument) (i : nat) : File :=
  {| name := pageFileName pdfFile i;
     type := "image/jpeg";
     bytes := blobOf (page pdf i) |}.

Definition rendersToBlob (p : PageRender) : bool :=
  match p with Blob _ => true | _ => false end.

(** Is [e] the settling of refinement [k]? *)
Definition settlesRefinement (k : nat) (e : Event) : bool :=
  match e with
  | RefineSettled k' _ => Nat.eqb k' k
  | _ => false
  end.

(** The item update of [settleItem]. *)
Definition settleMark (item : BatchItem) (outcome : Result StockMetadata)
  : BatchItem -> BatchItem :=
  match outcome with
  | inl result => markCompleted (id item) result
  | inr e => markError (id item) (orElse (message e) "Failed to process")
  end.

(** Every generation call was made by a runner, with that runner's
    captured configuration. *)
Definition callsFromClosures (s : Sys) : Prop :=
  forall c, In c (calls s) ->
    exists R, nth_error (runners s) (caller c) = Some R /\
              callConfig c = captured R.

(** The generation calls made by runner [r], oldest first. *)
Definition callsOf (r : nat) (cs : list Call) : list Call :=
  filter (fun c => Nat.eqb (caller c) r) cs.

(** How many items of its batch a runner has started. *)
Definition dispatched (R : Runner) : nat :=
  match pc R with
  | Preparing => 0
  | Awaiting j => S j
  | Finished => List.length (itemsToProcess R)
  end.

(** The call [processBatchQueue] makes for an item. *)
Definition callFor (r : nat) (R : Runner) (item : BatchItem) : Call :=
  {| caller := r; callItem := id item; callFile := file item;
     callConfig := captured R |}.

(** The calls of every runner are those for the items it has started,
    in the order of its batch. *)
Definition callsInOrder (s : Sys) : Prop :=
  forall r R, nth_error (runners s) r = Some R ->
    callsOf r (calls s)
    = map (callFor r R) (firstn (dispatched R) (itemsToProcess R)).

(* ================================================================= *)
(** ** The invariant of the queue *)

Definition terminal (st : Status) : bool :=
  match st with
  | Completed | Error => true
  | Pending | Processing => false
  end.

(** A unit has a result exactly when completed, an error message
    exactly when in error. *)
Definition unitOk (i : BatchItem) : bool :=
  match status i, data i, error i with
  | Pending, None, None => true
  | Processing, None, None => true
  | Completed, Some _, None => true
  | Error, None, Some _ => true
  | _, _, _ => false
  end.

(** The status the [k]-th item of a batch has in the queue when its
    runner is at [p]: the loop has left the items before the awaited
    one, and has not reached those after it. *)
Definition expectedAt (p : RunnerPc) (k : nat) (st : Status) : Prop :=
  match p with
  | Preparing => False
  | Awaiting j =>
      (k < j -> terminal st = true) /\
      (k = j -> st = Processing) /\
      (j < k -> st = Pending)
  | Finished => terminal st = true
  end.

Section Invariant.

Variable its : list BatchItem.     (* the queue *)
Variable rs : list Runner.
Variable qs : list Refinement.
Variable iss : list string.        (* the ids issued so far *)

Record InvOn : Prop := {
  inv_units : forall i, In i its -> unitOk i = true;
  inv_nodup : NoDup (map id its);
  (* every unit of the queue is an item of one batch, at the stage
     the position of its runner gives *)
  inv_owner : forall i, In i its ->
    exists r R k u,
      nth_error rs r = Some R /\
      nth_error (itemsToProcess R) k = Some u /\
      id u = id i /\
      expectedAt (pc R) k (status i);
  inv_issued : forall r R k u,
    nth_error rs r = Some R ->
    nth_error (itemsToProcess R) k = Some u ->
    In (id u) iss;
  inv_inj : forall r R k u r' R' k' u',
    nth_error rs r = Some R ->
    nth_error (itemsToProcess R) k = Some u ->
    nth_error rs r' = Some R' ->
    nth_error (itemsToProcess R') k' = Some u' ->
    id u = id u' ->
    r = r' /\ k = k';
  (* a batch is in the queue as a whole or, after a reset, not at all *)
  inv_presence : forall r R,
    nth_error rs r = Some R ->
    (forall k u, nth_error (itemsToProcess R) k = Some u ->
                 In (id u) (map id its)) \/
    (forall k u, nth_error (itemsToProcess R) k = Some u ->
                 ~ In (id u) (map id its));
  (* a refinement targets a completed unit *)
  inv_refine : forall j q,
    nth_error qs j = Some q ->
    In (refineId q) iss /\
    forall i, In i its -> id i = refineId q -> status i = Completed
}.

End Invariant.

Arguments inv_units {its rs qs iss} _.
Arguments inv_nodup {its rs qs iss} _.
Arguments inv_owner {its rs qs iss} _.
Arguments inv_issued {its rs qs iss} _.
Arguments inv_inj {its rs qs iss} _.
Arguments inv_presence {its rs qs iss} _.
Arguments inv_refine {its rs qs iss} _.

Definition Inv (s : Sys) : Prop :=
  InvOn (items (state (store s))) (runners s) (refinements s) (issued s).

(* ================================================================= *)
(** ** Two runs that differ in the outcome of one generation call *)

(** Two queue items that are the same unit, and equal unless the unit
    is [x]. *)
Definition sameBut (x : string) (a b : BatchItem) : Prop :=
  id a = id b /\ (id a <> x -> a = b).

(** Two queue states that differ at most in the units whose id is [x]. *)
Definition agreeState (x : string) (a1 a2 : AnalysisState) : Prop :=
  Forall2 (sameBut x) (items a1) (items a2) /\
  isProcessing a1 = isProcessing a2 /\
  activeItemId a1 = activeItemId a2.

(** [s] with another queue state. *)
Definition setState (s : Sys) (a : AnalysisState) : Sys :=
  {| store := withState (store s) a;
     runners := runners s; refinements := refinements s;
     calls := calls s; issued := issued s; console := console s |}.

(** Two states of the application that differ at most in the units
    whose id is [x]: same configuration, flags, runners, refinements,
    calls, issued ids and console. *)
Definition agreeBut (x : string) (s1 s2 : Sys) : Prop :=
  agreeState x (state (store s1)) (state (store s2)) /\
  s2 = setState s1 (state (store s2)).

(* ================================================================= *)
(** ** Sample inputs and schedules *)

Definition sampleMetadata (t : string) (ks : list string) : StockMetadata :=
  {| title := t; description := "d"; ai_prompt := "p"; keywords := ks;
     category := "c"; technical_settings := None; used_model := None |}.

Definition jpeg (n : string) : File :=
  {| name := n; type := "image/jpeg"; bytes := "jfif" |}.

Definition report : File :=
  {| name := "report.pdf"; type := "application/pdf"; bytes := "%PDF" |}.

(** A browser with pdf.js in which every document has [n] pages, all of
    which render as [p]. *)
Definition browser (n : nat) (p : PageRender) : PdfEnv :=
  {| pdfjsLib := true;
     getDocument := fun _ => Some {| numPages := n; page := fun _ => p |} |}.

(** A browser in which [window.pdfjsLib] is missing. *)
Definition noPdfJs : PdfEnv :=
  {| pdfjsLib := false; getDocument := fun _ => None |}.

(** [Math.random] giving the same number at every draw. *)
Definition constantDraws (k : nat) : string := "0.4fzyo82mvyr".

(** Successive draws that all differ. *)
Definition draws (k : nat) : string :=
  match k with
  | 0 => "0.a1" | 1 => "0.b2" | 2 => "0.c3" | 3 => "0.d4" | 4 => "0.e5"
  | _ => "0.f6"
  end.


(** One JPEG is selected and generated, then a refinement of it is
    requested. *)
Definition refineRequested : list Event :=
  [SelectFiles [jpeg "a.jpg"]; FilesPrepared 0 noPdfJs draws;
   GenerationSettled 0 (inl (sampleMetadata "A" ["cat"]));
   RefineItem "warmer light" "1:1"].

(** Three JPEGs are selected; the first is generated and then refined
    with another aspect ratio while the second is still in flight. *)
Definition refineDuringBatch : list Event :=
  [SelectFiles [jpeg "a.jpg"; jpeg "b.jpg"; jpeg "c.jpg"];
   FilesPrepared 0 noPdfJs draws;
   GenerationSettled 0 (inl (sampleMetadata "A" ["cat"]));
   RefineItem "warmer light" "1:1";
   RefineSettled 0 (inl (sampleMetadata "A2" ["cat"]))].

(** Three JPEGs are selected and admitted; the call for the first is in
    flight. *)
Definition threeAdmitted : list Event :=
  [SelectFiles [jpeg "a.jpg"; jpeg "b.jpg"; jpeg "c.jpg"];
   FilesPrepared 0 noPdfJs draws].

(** One JPEG is selected and its metadata generated. *)
Definition oneGenerated : list Event :=
  [SelectFiles [jpeg "a.jpg"]; FilesPrepared 0 noPdfJs draws;
   GenerationSettled 0 (inl (sampleMetadata "A" ["cat"]))].

(** The state a schedule leads to from [init] ([init] itself when the
    schedule cannot run). *)
Definition stateAfter (es : list Event) : Sys :=
  match run es init with
  | Some s => s
  | None => init
  end.

(* ================================================================= *)
(** ** components/ResultCard.tsx: sorting the keywords *)

Inductive SortType := SortAlpha | SortLength.   (* 'alpha' | 'length' *)

(** The sign of what a comparator returns: negative, zero, positive. *)
Definition notAfter (c : comparison) : bool :=
  match c with Gt => false | _ => true end.

(** [Array.prototype.sort] is stable; with a consistent comparator its
    result is the one stable insertion gives. *)
Fixpoint insertBy (cmp : string -> string -> comparison) (x : string)
         (l : list string) : list string :=
  match l with
  | [] => [x]
  | y :: l' =>
      if notAfter (cmp x y) then x :: y :: l' else y :: insertBy cmp x l'
  end.

Fixpoint sortBy (cmp : string -> string -> comparison) (l : list string)
  : list string :=
  match l with
  | [] => []
  | x :: l' => insertBy cmp x (sortBy cmp l')
  end.

(** [(a, b) => a.length - b.length] *)
Definition compareLength (a b : string) : comparison :=
  Nat.compare (String.length a) (String.length b).

(** [sortKeywords]; [localeCompare] is the collation of the host. *)
Definition sortKeywords (localeCompare : string -> string -> comparison)
           (d : StockMetadata) (t : SortType) : StockMetadata :=
  match t with
  | SortAlpha => withKeywords d (sortBy localeCompare (keywords d))
  | SortLength => withKeywords d (sortBy compareLength (keywords d))
  end.

(* ================================================================= *)
(** ** components/BatchResults.tsx: the CSV export *)

(** The double-quote character. *)
Definition doubleQuote : ascii := ascii_of_nat 34.

(** [text.replace(/q/g, qq)], [q] being the double quote: every double
    quote is doubled. *)
Fixpoint doubleQuotes (text : string) : string :=
  match text with
  | EmptyString => EmptyString
  | String c t =>
      if Ascii.eqb c doubleQuote
      then String doubleQuote (String doubleQuote (doubleQuotes t))
      else String c (doubleQuotes t)
  end.

(** [escape]: the text with its quotes doubled, between two quotes. *)
Definition escape (text : string) : string :=
  String doubleQuote (doubleQuotes text ++ String doubleQuote EmptyString).

Definition csvHeaders : list string :=
  ["Filename"; "Title"; "Description"; "Keywords"; "Category"; "AI Prompt";
   "Technical Settings"].

(** The fields of the row of a completed item, before escaping. *)
Definition csvFields (item : BatchItem) (d : StockMetadata) : list string :=
  [name (file item); title d; description d;
   String.concat ", " (keywords d); category d; ai_prompt d;
   orElse (technical_settings d) ""].

Definition csvRow (item : BatchItem) (d : StockMetadata) : string :=
  String.concat "," (map escape (csvFields item d)).

(** [items.filter(i => i.status === 'completed' && i.data).map(...)] *)
Fixpoint csvRows (l : list BatchItem) : list string :=
  match l with
  | [] => []
  | i :: l' =>
      match status i, data i with
      | Completed, Some d => csvRow i d :: csvRows l'
      | _, _ => csvRows l'
      end
  end.

Definition lineFeed : string := String (ascii_of_nat 10) EmptyString.

(** [handleExportCSV]: the content of the downloaded file, [None] when
    the handler returns without a download. *)
Definition handleExportCSV (l : list BatchItem) : option string :=
  match csvRows l with
  | [] => None
  | rows => Some (String.concat lineFeed (String.concat "," csvHeaders :: rows))
  end.

(** [items.filter(i => i.status === 'completed').length]; the CSV button
    is rendered when it is positive. *)
Definition completedCount (l : list BatchItem) : nat :=
  List.length (filter (fun i => match status i with
                                | Completed => true
                                | _ => false
                                end) l).

(** Reads a quoted field off the front of a string, past its opening
    quote: the field and what follows its closing quote. *)
Fixpoint readQuoted (s : string) : option (string * string) :=
  match s with
  | EmptyString => None
  | String c t =>
      if Ascii.eqb c doubleQuote then
        match t with
        | String c' t' =>
            if Ascii.eqb c' doubleQuote
            then option_map (fun p => (String doubleQuote (fst p), snd p))
                            (readQuoted t')
            else Some (EmptyString, t)
        | EmptyString => Some (EmptyString, EmptyString)
        end
      else option_map (fun p => (String c (fst p), snd p)) (readQuoted t)
  end.

(** What follows the first element in [String.concat]. *)
Definition afterFirst (sep : string) (l : list string) : string :=
  match l with
  | [] => EmptyString
  | _ :: _ => sep ++ String.concat sep l
  end.

(* ================================================================= *)
(** ** services/geminiService.ts: the preview's aspect ratio *)

(** The [switch] of [generateImagePreview]. *)
Definition safeRatio (aspectRatio : string) : string :=
  if String.eqb aspectRatio "16:9" then "16:9"
  else if String.eqb aspectRatio "9:16" then "9:16"
  else if String.eqb aspectRatio "4:3" || String.eqb aspectRatio "3:2" then "4:3"
  else if String.eqb aspectRatio "3:4" || String.eqb aspectRatio "2:3" then "3:4"
  else "1:1".

(** The ratios the image model is asked for. *)
Definition supportedRatios : list string := ["1:1"; "16:9"; "9:16"; "4:3"; "3:4"].

(* ================================================================= *)
(** ** components/FileUpload.tsx: validateAndProcessFiles *)

(** What [validateAndProcessFiles] does with a file list: the argument
    it calls [onFilesSelect] with, if it calls it, and the notice it
    sets, if any. *)
Record Validation := {
  passedOn : option (list File);
  notice : option string
}.

Definition validateAndProcessFiles (fileList : list File) : Validation :=
  let hasInvalid :=
    existsb (fun f => negb (includes validTypes (type f))) fileList in
  {| passedOn := match validFiles fileList with
                 | [] => None
                 | files => Some files
                 end;
     notice := if hasInvalid
               then Some "Beberapa file dilewati karena format tidak didukung (Gunakan JPG, PNG, WEBP, PDF)."
               else None |}.

(* ================================================================= *)
(** ** App.tsx: the selection *)

(** The selection names a unit of the queue, and is missing exactly
    when the queue is empty. *)
Definition selectionOk (a : AnalysisState) : Prop :=
  match activeItemId a with
  | None => items a = []
  | Some x => In x (map id (items a))
  end.

(* ================================================================= *)
(** ** services/geminiService.ts: the instructions *)

(** [getModelSpecificInstructions]: the [modelInstruction] it returns,
    one branch for each value of [TargetModel]. *)
Definition getModelSpecificInstructions (config : PromptConfig) : string :=
  match targetModel config with
  | midjourney =>
      "Format the 'ai_prompt' specifically for Midjourney v6. Use parameters like --ar "
      ++ aspectRatio config
      ++ " --v 6.0 at the end of the prompt. Use meaningful phrasing, avoiding filler words like "
      ++ String doubleQuote ("picture of" ++ String doubleQuote ".")
  | stable_diffusion =>
      "Format the 'ai_prompt' for Stable Diffusion XL. Use comma-separated tags and phrases. Emphasize key elements with (parentheses) if needed. Ensure the style is described first."
  | firefly =>
      "Format the 'ai_prompt' for Adobe Firefly Image 3. Use natural language, descriptive sentences focusing on lighting, composition, and mood."
  | dalle =>
      "Format the 'ai_prompt' for DALL-E 3. Use a detailed, descriptive paragraph that paints a full scene including specific details about the subject and environment."
  end.

Definition getKeywordDensityInstruction (density : KeywordDensity) : string :=
  match density with
  | low =>
      "4. keywords: A focused list of 15-20 highly relevant keywords/tags, ranked by relevance. Focus on the core subject only."
  | high =>
      "4. keywords: An extensive list of 50 keywords/tags, ranked by relevance. Cover all aspects including synonyms, conceptual tags, emotions, and technical attributes."
  | standard =>
      "4. keywords: A comprehensive list of 30-40 relevant keywords/tags, ranked by relevance."
  end.

(** Requirement 3 of the system instruction of [refineMetadata]:
    [keywordInstruction.replace("4. keywords:", ...)] behind its
    number. *)
Definition refineKeywordRequirement (config : PromptConfig) : string :=
  "3. "
  ++ replace "4. keywords:" "Ensure keyword count matches preference:"
             (getKeywordDensityInstruction (keywordDensity config)).

(* ================================================================= *)
(** ** Batches whose ids collide, and a page without blob *)

(** Two JPEGs selected together with draws that coincide: both units
    get the same id. *)
Definition collidingBatch : list Event :=
  [SelectFiles [jpeg "a.jpg"; jpeg "b.jpg"];
   FilesPrepared 0 noPdfJs constantDraws].

(** The same batch; its first call fails, its second succeeds. *)
Definition collidingBatchSettled : list Event :=
  [SelectFiles [jpeg "a.jpg"; jpeg "b.jpg"];
   FilesPrepared 0 noPdfJs constantDraws;
   GenerationSettled 0 (inr (newError "quota"));
   GenerationSettled 0 (inl (sampleMetadata "B" ["dog"]))].

(** A browser with pdf.js in which every document has twelve pages that
    all render, except that the canvas of page 3 gives no blob. *)
Definition browserWithoutPage3 : PdfEnv :=
  {| pdfjsLib := true;
     getDocument := fun _ =>
       Some {| numPages := 12;
               page := fun j => if Nat.eqb j 3 then NoBlob else Blob "jpeg" |} |}.

(** What the service returns for the answer [sampleMetadata "A2"
    ["cat"; "sun"]] under the initial configuration: the answer with
    its tag. *)
Definition refinedSample : StockMetadata :=
  {| title := "A2"; description := "d"; ai_prompt := "p";
     keywords := ["cat"; "sun"]; category := "c";
     technical_settings := None; used_model := Some midjourney |}.

(* ================================================================= *)
(** * Properties *)

Local Open Scope list_scope.

(** ** Strings and lists *)

Lemma includes_In (l : list string) (x : string) :
  includes l x = true <-> In x l.
Proof.
  unfold includes. rewrite existsb_exists. split.
  - intros [y [Hy He]]. apply String.eqb_eq in He. now subst.
  - intros H. exists x. split; [assumption | apply String.eqb_refl].
Qed.

Lemma includes_false (l : list string) (x : string) :
  includes l x = false <-> ~ In x l.
Proof.
  rewrite <- includes_In. destruct (includes l x); split; congruence.
Qed.

Lemma truthy_false (s : string) : truthy s = false <-> s = "".
Proof. destruct s; simpl; split; congruence. Qed.

Lemma truthy_true (s : string) : truthy s = true <-> s <> "".
Proof. destruct s; simpl; split; congruence. Qed.

Lemma count_occ_app_string (l1 l2 : list string) (x : string) :
  count_occ string_dec (l1 ++ l2) x
  = count_occ string_dec l1 x + count_occ string_dec l2 x.
Proof.
  induction l1 as [|y l1 IH]; simpl; [reflexivity|].
  destruct (string_dec y x); simpl; rewrite IH; reflexivity.
Qed.

(** ** ResultCard.tsx: adding a keyword *)

Lemma addKeyword_skips (d : StockMetadata) (keyword : string) :
  trim keyword = "" \/ In (trim keyword) (keywords d) ->
  addKeyword d keyword = None.
Proof.
  intros H. unfold addKeyword.
  destruct H as [H | H].
  - rewrite H. reflexivity.
  - apply includes_In in H. rewrite H. simpl. now rewrite andb_false_r.
Qed.

Lemma addKeyword_appends (d : StockMetadata) (keyword : string) :
  trim keyword <> "" -> ~ In (trim keyword) (keywords d) ->
  addKeyword d keyword
  = Some (withKeywords d (keywords d ++ [trim keyword])).
Proof.
  intros Hne Hnin. unfold addKeyword.
  apply truthy_true in Hne. apply includes_false in Hnin.
  now rewrite Hne, Hnin.
Qed.

(** C9, as the specification states it: the add is a no-op exactly when
    the trimmed keyword is already there and appends it otherwise.  A
    keyword made of white space only is a case of "otherwise", and the
    code does not append it. *)
Lemma addKeyword_blank_not_appended :
  ~ (forall (d : StockMetadata) (keyword : string),
        (In (trim keyword) (keywords d) -> afterAddKeyword d keyword = d) /\
        (~ In (trim keyword) (keywords d) ->
         afterAddKeyword d keyword
         = withKeywords d (keywords d ++ [trim keyword]))).
Proof.
  intros H.
  destruct (H (sampleMetadata "t" ["cat"]) "  ") as [_ H2].
  assert (Hn : ~ In (trim "  ") ["cat"]).
  { simpl. intros [E | []]. discriminate E. }
  specialize (H2 Hn). vm_compute in H2. discriminate H2.
Qed.

(** C9, amended: [addKeyword] does nothing ([onUpdate] is not called)
    when the trimmed keyword is empty or already occurs verbatim in the
    keyword sequence; otherwise it appends the trimmed keyword at the
    end and leaves every other field alone.  Hence adding the same
    keyword twice is adding it once, and a non-empty trimmed keyword
    that was absent occurs exactly once afterwards, in last position. *)
Theorem addKeyword_idempotent (d : StockMetadata) (keyword : string) :
  (trim keyword = "" \/ In (trim keyword) (keywords d) ->
   addKeyword d keyword = None /\ afterAddKeyword d keyword = d) /\
  (trim keyword <> "" -> ~ In (trim keyword) (keywords d) ->
   afterAddKeyword d keyword
   = withKeywords d (keywords d ++ [trim keyword]) /\
   keywords (afterAddKeyword (afterAddKeyword d keyword) keyword)
   = keywords d ++ [trim keyword] /\
   count_occ string_dec
     (keywords (afterAddKeyword (afterAddKeyword d keyword) keyword))
     (trim keyword) = 1) /\
  afterAddKeyword (afterAddKeyword d keyword) keyword
  = afterAddKeyword d keyword.
Proof.
  assert (Hskip : trim keyword = "" \/ In (trim keyword) (keywords d) ->
                  afterAddKeyword d keyword = d).
  { intros H. unfold afterAddKeyword. now rewrite (addKeyword_skips d keyword H). }
  assert (Happ : trim keyword <> "" -> ~ In (trim keyword) (keywords d) ->
                 afterAddKeyword d keyword
                 = withKeywords d (keywords d ++ [trim keyword])).
  { intros H1 H2. unfold afterAddKeyword.
    now rewrite (addKeyword_appends d keyword H1 H2). }
  assert (Hidem : afterAddKeyword (afterAddKeyword d keyword) keyword
                  = afterAddKeyword d keyword).
  { destruct (string_dec (trim keyword) "") as [He | Hne].
    - rewrite (Hskip (or_introl He)). apply Hskip. now left.
    - destruct (in_dec string_dec (trim keyword) (keywords d)) as [Hi | Hni].
      + rewrite (Hskip (or_intror Hi)). apply Hskip. now right.
      + rewrite (Happ Hne Hni).
        unfold afterAddKeyword at 1.
        rewrite addKeyword_skips; [reflexivity|].
        right. simpl. apply in_or_app. right. now left. }
  split; [|split].
  - intros H. split; [now apply addKeyword_skips | now apply Hskip].
  - intros Hne Hni. split; [now apply Happ|].
    rewrite Hidem, (Happ Hne Hni). simpl. split; [reflexivity|].
    rewrite count_occ_app_string.
    rewrite (proj1 (count_occ_not_In string_dec _ _) Hni). simpl.
    destruct (string_dec (trim keyword) (trim keyword)); [reflexivity | congruence].
  - exact Hidem.
Qed.

Lemma addKeyword_idempotent_witness :
  (trim " dog " <> "" /\ ~ In (trim " dog ") ["cat"]) /\
  keywords
    (afterAddKeyword
       (afterAddKeyword (sampleMetadata "t" ["cat"]) " dog ") " dog ")
  = ["cat"; "dog"].
Proof.
  assert (H1 : trim " dog " <> "") by (vm_compute; discriminate).
  assert (H2 : ~ In (trim " dog ") ["cat"]).
  { vm_compute. intros [E | []]. discriminate E. }
  split; [split; assumption|].
  exact (proj1 (proj2 (proj1 (proj2
    (addKeyword_idempotent (sampleMetadata "t" ["cat"]) " dog ")) H1 H2))).
Defined.

(** ** pdfUtils.ts: the page cap *)

Lemma renderPages_all_blobs (pdfFile : File) (pdf : PdfDocument) (k i : nat)
      (images : list File) :
  (forall j, i <= j < i + k -> rendersToBlob (page pdf j) = true) ->
  renderPages pdfFile pdf i k images
  = Some (images ++ map (pageImage pdfFile pdf) (seq i k)).
Proof.
  revert i images. induction k as [|k IH]; intros i images H; simpl.
  - now rewrite app_nil_r.
  - assert (Hi : rendersToBlob (page pdf i) = true) by (apply H; lia).
    unfold pageImage at 1.
    destruct (page pdf i) eqn:E; try discriminate Hi.
    rewrite IH by (intros j Hj; apply H; lia).
    rewrite <- app_assoc. reflexivity.
Qed.

(** Whatever the pages do, a conversion that returns has visited the
    first [min numPages 10] pages only and kept those with a blob. *)
Lemma renderPages_returns (pdfFile : File) (pdf : PdfDocument) (k i : nat)
      (images out : list File) :
  renderPages pdfFile pdf i k images = Some out ->
  out = images ++ map (pageImage pdfFile pdf)
                      (filter (fun j => rendersToBlob (page pdf j)) (seq i k)).
Proof.
  revert i images. induction k as [|k IH]; intros i images H; simpl in *.
  - injection H as <-. now rewrite app_nil_r.
  - destruct (page pdf i) eqn:E; simpl; try discriminate H.
    + now apply IH.
    + now apply IH.
    + apply IH in H. rewrite H, <- app_assoc. simpl.
      unfold pageImage at 2. now rewrite E.
Qed.

Lemma convertPdfToImages_length_le (env : PdfEnv) (pdfFile : File)
      (images : list File) :
  convertPdfToImages env pdfFile = inl images -> List.length images <= 10.
Proof.
  unfold convertPdfToImages.
  destruct (pdfjsLib env); simpl; [|discriminate].
  destruct (getDocument env pdfFile) as [pdf|]; [|discriminate].
  destruct (renderPages pdfFile pdf 1 (Nat.min (numPages pdf) 10) []) eqn:E;
    [|discriminate].
  intros H. injection H as <-.
  apply renderPages_returns in E. subst l. simpl.
  rewrite length_map.
  etransitivity; [apply filter_length_le|].
  rewrite length_seq. lia.
Qed.

(** ** App.tsx: what the updaters keep *)

Lemma id_markProcessing (x : string) (i : BatchItem) : id (markProcessing x i) = id i.
Proof. unfold markProcessing. now destruct (String.eqb (id i) x). Qed.

Lemma id_markCompleted (x : string) (m : StockMetadata) (i : BatchItem) :
  id (markCompleted x m i) = id i.
Proof. unfold markCompleted. now destruct (String.eqb (id i) x). Qed.

Lemma id_markError (x msg : string) (i : BatchItem) : id (markError x msg i) = id i.
Proof. unfold markError. now destruct (String.eqb (id i) x). Qed.

Lemma id_replaceData (x : string) (m : StockMetadata) (i : BatchItem) :
  id (replaceData x m i) = id i.
Proof. unfold replaceData. now destruct (String.eqb (id i) x). Qed.

Lemma file_markProcessing (x : string) (i : BatchItem) :
  file (markProcessing x i) = file i.
Proof. unfold markProcessing. now destruct (String.eqb (id i) x). Qed.

Lemma file_markCompleted (x : string) (m : StockMetadata) (i : BatchItem) :
  file (markCompleted x m i) = file i.
Proof. unfold markCompleted. now destruct (String.eqb (id i) x). Qed.

Lemma file_markError (x msg : string) (i : BatchItem) :
  file (markError x msg i) = file i.
Proof. unfold markError. now destruct (String.eqb (id i) x). Qed.

Lemma file_replaceData (x : string) (m : StockMetadata) (i : BatchItem) :
  file (replaceData x m i) = file i.
Proof. unfold replaceData. now destruct (String.eqb (id i) x). Qed.

Lemma map_map_same {A B : Type} (g : A -> B) (f : A -> A) (l : list A) :
  (forall a, g (f a) = g a) -> map g (map f l) = map g l.
Proof.
  intros H. rewrite map_map. apply map_ext. exact H.
Qed.

Lemma items_appendItems (newItems : list BatchItem) (prev a : AnalysisState) :
  appendItems newItems prev = Some a -> items a = items prev ++ newItems.
Proof.
  unfold appendItems. intros H.
  destruct (activeItemId prev) as [x|];
    [destruct (truthy x)|]; try destruct newItems;
    try discriminate H; injection H as <-; reflexivity.
Qed.

Lemma files_loopFrom (r : nat) (c : PromptConfig) (l : list BatchItem) (i : nat)
      (a a' : AnalysisState) (p : RunnerPc) (cs : list Call) :
  loopFrom r c l i a = (a', p, cs) ->
  map file (items a') = map file (items a) /\ map id (items a') = map id (items a).
Proof.
  unfold loopFrom. destruct (nth_error l i) as [item|]; intros H;
    injection H as <- _ _; simpl; [|split; reflexivity].
  split; apply map_map_same; intros;
    [apply file_markProcessing | apply id_markProcessing].
Qed.

(** ** App.tsx: the unit factory *)

Lemma createItems_files (random : nat -> string) (fs : list File) (n : nat) :
  map file (createItems random n fs) = fs.
Proof.
  revert n. induction fs as [|f fs IH]; intros n; simpl; [reflexivity|].
  now rewrite IH.
Qed.

Lemma createItems_length (random : nat -> string) (fs : list File) (n : nat) :
  List.length (createItems random n fs) = List.length fs.
Proof.
  rewrite <- (createItems_files random fs n) at 2. now rewrite length_map.
Qed.

Lemma createItems_pending (random : nat -> string) (fs : list File) (n : nat) :
  Forall (fun i => status i = Pending /\ data i = None /\ error i = None)
         (createItems random n fs).
Proof.
  revert n. induction fs as [|f fs IH]; intros n; simpl; constructor; auto.
Qed.


(** ** App.tsx: from the selected files to the queue *)

Lemma expandFile_convert (env : PdfEnv) (f : File) (pdf : PdfDocument) :
  type f = "application/pdf" ->
  pdfjsLib env = true ->
  getDocument env f = Some pdf ->
  (forall j, 1 <= j <= Nat.min (numPages pdf) 10 -> page pdf j <> RenderThrows) ->
  expandFile env f
  = map (pageImage f pdf)
        (filter (fun j => rendersToBlob (page pdf j))
                (seq 1 (Nat.min (numPages pdf) 10))).
Proof.
  intros Ht Hlib Hdoc Hpages.
  unfold expandFile, convertPdfToImages. rewrite Ht, Hlib, Hdoc. simpl.
  destruct (renderPages f pdf 1 (Nat.min (numPages pdf) 10) []) as [out|] eqn:E.
  - now apply renderPages_returns in E.
  - exfalso.
    assert (G : forall k i acc,
               renderPages f pdf i k acc = None ->
               exists j, i <= j < i + k /\ page pdf j = RenderThrows).
    { clear. intros k. induction k as [|k IH]; intros i acc E; simpl in E;
        [discriminate|].
      destruct (page pdf i) eqn:Ep.
      - exists i. split; [lia | assumption].
      - destruct (IH _ _ E) as [j [Hj Hp]]. exists j. split; [lia | assumption].
      - destruct (IH _ _ E) as [j [Hj Hp]]. exists j. split; [lia | assumption].
      - destruct (IH _ _ E) as [j [Hj Hp]]. exists j. split; [lia | assumption]. }
    destruct (G _ _ _ E) as [j [Hj Hp]]. apply (Hpages j); [lia | assumption].
Qed.

Lemma files_FilesPrepared (env : PdfEnv) (random : nat -> string) (r : nat)
      (R : Runner) (s s' : Sys) :
  nth_error (runners s) r = Some R ->
  exec (FilesPrepared r env random) s = Some s' ->
  map file (items (state (store s')))
  = map file (items (state (store s))) ++ prepareFiles env (selected R).
Proof.
  intros HR H. simpl in H. rewrite HR in H.
  destruct (pc R); try discriminate H.
  destruct (appendItems _ _) as [a1|] eqn:Ea; [|discriminate H].
  destruct (loopFrom _ _ _ _ _) as [[a2 p] cs] eqn:El.
  injection H as <-. simpl.
  apply files_loopFrom in El. destruct El as [El _]. rewrite El. simpl.
  rewrite (items_appendItems _ _ _ Ea), map_app, createItems_files. reflexivity.
Qed.

(** C8: every selected file of a supported type should contribute at
    least one input, a PDF that cannot be decomposed being passed
    through as it is.  The fallback is in the [catch] of
    [handleFilesSelect] only.  For [report.pdf] opened as a document
    whose three pages give no blob, [convertPdfToImages] returns,
    without throwing, no image at all, so the file contributes no
    input; the same file with pdf.js missing is passed through.
    Selected alone into an empty queue, it leaves [newItems] empty and
    the state updater throws on [newItems[0].id]. *)
Theorem blobless_pdf_is_dropped :
  includes validTypes (type report) = true /\
  convertPdfToImages (browser 3 NoBlob) report = inl [] /\
  expandFile (browser 3 NoBlob) report = [] /\
  expandFile noPdfJs report = [report] /\
  exec (FilesPrepared 0 (browser 3 NoBlob) draws)
       (stateAfter [SelectFiles [report]]) = None.
Proof. repeat split; vm_compute; reflexivity. Qed.

(** Not every selected file of a supported type contributes an input:
    a PDF whose pages give no blob is converted, without any failure,
    to no image at all. *)
Lemma pdf_without_blob_dropped :
  ~ (forall (env : PdfEnv) (f : File),
        includes validTypes (type f) = true ->
        1 <= List.length (expandFile env f)).
Proof.
  intros H. specialize (H (browser 3 NoBlob) report eq_refl).
  vm_compute in H. lia.
Qed.

(** What a selected file contributes: a file that is not a PDF is one
    input, itself;
    a PDF whose conversion throws (pdf.js missing, the document or one
    of its pages unreadable) is one input, the original file unmodified;
    a PDF whose conversion returns contributes the images of those of
    its first [min numPages 10] pages that gave a blob, possibly none.
    The inputs become the new units of the queue, one each, in order. *)
Theorem expandFile_fallback (env : PdfEnv) (f : File) :
  (type f <> "application/pdf" -> expandFile env f = [f]) /\
  (forall e, convertPdfToImages env f = inr e -> expandFile env f = [f]) /\
  (forall pdf,
      type f = "application/pdf" ->
      pdfjsLib env = true ->
      getDocument env f = Some pdf ->
      (forall j, 1 <= j <= Nat.min (numPages pdf) 10 ->
                 page pdf j <> RenderThrows) ->
      expandFile env f
      = map (pageImage f pdf)
            (filter (fun j => rendersToBlob (page pdf j))
                    (seq 1 (Nat.min (numPages pdf) 10)))) /\
  (forall random r R s s',
      nth_error (runners s) r = Some R ->
      exec (FilesPrepared r env random) s = Some s' ->
      map file (items (state (store s')))
      = map file (items (state (store s))) ++ flat_map (expandFile env) (selected R)).
Proof.
  split; [|split; [|split]].
  - intros Ht. unfold expandFile.
    apply String.eqb_neq in Ht. now rewrite Ht.
  - intros e He. unfold expandFile. rewrite He.
    now destruct (String.eqb (type f) "application/pdf").
  - intros pdf. apply expandFile_convert.
  - intros random r R s s'. apply files_FilesPrepared.
Qed.

Lemma expandFile_fallback_witness :
  convertPdfToImages noPdfJs report
  = inr (newError "PDF Library not loaded. Please refresh the page.") /\
  expandFile noPdfJs report = [report].
Proof.
  split; [reflexivity|].
  exact (proj1 (proj2 (expandFile_fallback noPdfJs report)) _ eq_refl).
Defined.

(** ** App.tsx: identifiers *)


(** Different draws can give the same id as well: the two random
    strings are concatenated without a separator. *)
Remark generateId_not_injective :
  generateId "0.ab" "0.c" = generateId "0.a" "0.bc".
Proof. reflexivity. Qed.


(** ** App.tsx: refinement *)

Lemma nth_error_setNth_eq {A : Type} (l : list A) (k : nat) (x y : A) :
  nth_error l k = Some x -> nth_error (setNth k y l) k = Some y.
Proof.
  revert k. induction l as [|a l IH]; intros [|k] H; simpl in *;
    try discriminate; [reflexivity | now apply IH].
Qed.

Lemma nth_error_setNth_ne {A : Type} (l : list A) (k j : nat) (y : A) :
  j <> k -> nth_error (setNth k y l) j = nth_error l j.
Proof.
  revert k j. induction l as [|a l IH]; intros [|k] [|j] H; simpl;
    try reflexivity; try congruence.
  apply IH. congruence.
Qed.

Lemma length_setNth {A : Type} (l : list A) (k : nat) (y : A) :
  List.length (setNth k y l) = List.length l.
Proof.
  revert k. induction l as [|a l IH]; intros [|k]; simpl; auto.
Qed.

(** C5, as the specification states it, in its last part: the failure of
    a refinement is reported to the caller.  [handleRefineItem] catches
    the error and logs it; the promise it returned is fulfilled. *)
Lemma refine_failure_not_reported :
  ~ (forall es k e s',
        run (es ++ [RefineSettled k (inr e)]) init = Some s' ->
        exists q, nth_error (refinements s') k = Some q /\
                  settled q = Some (Rejected e)).
Proof.
  intros H.
  specialize (H refineRequested 0 (newError "Gagal melakukan refine prompt.")).
  vm_compute in H. destruct (H _ eq_refl) as [q [H1 H2]].
  injection H1 as <-. discriminate H2.
Qed.

(** C5, amended: when the refinement call of a pending refinement fails,
    the whole queue state is what it was (so the unit keeps its result
    and its status), the shared configuration is what it was, the
    refining flag is reset, and the failure is written to the console:
    the promise returned to the caller is fulfilled, not rejected. *)
Theorem refine_failure_keeps_result (s : Sys) (k : nat) (q : Refinement)
        (e : JsError) :
  nth_error (refinements s) k = Some q ->
  settled q = None ->
  exists s',
    exec (RefineSettled k (inr e)) s = Some s' /\
    state (store s') = state (store s) /\
    promptConfig (store s') = promptConfig (store s) /\
    isRefining (store s') = false /\
    console s' = console s ++ ["Refine failed"] /\
    exists q', nth_error (refinements s') k = Some q' /\
               settled q' = Some Fulfilled.
Proof.
  intros Hq Hs. exists (finishRefine k q (inr e) s).
  simpl. rewrite Hq, Hs.
  do 5 (split; [reflexivity|]).
  eexists. split; [eapply nth_error_setNth_eq; exact Hq | reflexivity].
Qed.

Lemma refine_failure_keeps_result_witness :
  exists s0 s',
    run refineRequested init = Some s0 /\
    exec (RefineSettled 0 (inr (newError "Gagal melakukan refine prompt."))) s0
    = Some s' /\
    state (store s') = state (store s0).
Proof.
  eexists. 
  destruct (@refine_failure_keeps_result
              (match run refineRequested init with Some s => s | None => init end)
              0
              {| refineId := "a1b2";
                 refineConfig := withAspectRatio initialConfig "1:1";
                 newAspectRatio := "1:1"; settled := None |}
              (newError "Gagal melakukan refine prompt.") eq_refl eq_refl)
    as [s' [H1 [H2 _]]].
  exists s'. split; [reflexivity|]. split; assumption.
Defined.

(** ** The transition system: what a step keeps *)

(** Case analysis on a successful step: one goal per path through
    [exec]. *)
Ltac exec_paths H :=
  simpl in H;
  repeat match type of H with
         | context [match ?x with _ => _ end] => destruct x eqn:?
         end;
  try discriminate H;
  injection H as <-.

Lemma run_app (es1 es2 : list Event) (s : Sys) :
  run (es1 ++ es2) s
  = match run es1 s with Some s1 => run es2 s1 | None => None end.
Proof.
  revert s. induction es1 as [|e es1 IH]; intros s; simpl; [reflexivity|].
  destruct (exec e s); [apply IH | reflexivity].
Qed.

(** An invariant of the steps holds along every schedule. *)
Lemma run_invariant (P : Sys -> Prop) :
  (forall e s s', exec e s = Some s' -> P s -> P s') ->
  forall es s s', run es s = Some s' -> P s -> P s'.
Proof.
  intros Hstep es. induction es as [|e es IH]; intros s s' H HP; simpl in H.
  - now injection H as <-.
  - destruct (exec e s) as [s1|] eqn:E; [|discriminate].
    eapply IH; [exact H|]. eapply Hstep; eassumption.
Qed.

Lemma loopFrom_calls (r : nat) (config : PromptConfig) (l : list BatchItem)
      (i : nat) (a a' : AnalysisState) (p : RunnerPc) (cs : list Call) :
  loopFrom r config l i a = (a', p, cs) ->
  forall c, In c cs -> caller c = r /\ callConfig c = config.
Proof.
  unfold loopFrom. destruct (nth_error l i); intros H; injection H as <- <- <-;
    intros c Hc; simpl in Hc; [|contradiction].
  destruct Hc as [<- | []]. split; reflexivity.
Qed.

(** The closure of a runner never changes. *)
Lemma exec_runner_closure (e : Event) (s s' : Sys) (r : nat) (R : Runner) :
  exec e s = Some s' ->
  nth_error (runners s) r = Some R ->
  exists R', nth_error (runners s') r = Some R' /\
             captured R' = captured R /\ selected R' = selected R.
Proof.
  intros H HR.
  assert (Hset : forall r0 R0 l p,
             nth_error (runners s) r0 = Some R0 ->
             exists R', nth_error (setNth r0 (withPc R0 l p) (runners s)) r = Some R' /\
                        captured R' = captured R /\ selected R' = selected R).
  { intros r0 R0 l p H0. destruct (Nat.eq_dec r r0) as [-> | Hne].
    - rewrite (nth_error_setNth_eq _ _ _ _ H0). eexists. split; [reflexivity|].
      rewrite HR in H0. injection H0 as <-. split; reflexivity.
    - rewrite nth_error_setNth_ne by assumption. eauto. }
  destruct e; exec_paths H; simpl; eauto.
  - rewrite nth_error_app1 by (apply nth_error_Some; congruence). eauto.
  - unfold startRefine.
    destruct (findItem _ _) as [it|]; [destruct (data it)|]; simpl; eauto.
  - unfold finishRefine. destruct outcome; simpl; eauto.
Qed.

Lemma run_runner_closure (es : list Event) (s s' : Sys) (r : nat) (R : Runner) :
  run es s = Some s' ->
  nth_error (runners s) r = Some R ->
  exists R', nth_error (runners s') r = Some R' /\
             captured R' = captured R /\ selected R' = selected R.
Proof.
  revert s R. induction es as [|e es IH]; intros s R H HR; simpl in H.
  - injection H as <-. eauto.
  - destruct (exec e s) as [s1|] eqn:E; [|discriminate].
    destruct (exec_runner_closure _ _ _ _ _ E HR) as [R1 [H1 [Hc Hs]]].
    destruct (IH _ _ H H1) as [R' [H' [Hc' Hs']]].
    exists R'. split; [assumption|]. split; congruence.
Qed.

Lemma exec_callsFromClosures (e : Event) (s s' : Sys) :
  exec e s = Some s' -> callsFromClosures s -> callsFromClosures s'.
Proof.
  intros H J c Hc.
  assert (Hold : In c (calls s) ->
                 exists R, nth_error (runners s') (caller c) = Some R /\
                           callConfig c = captured R).
  { intros Hin. destruct (J c Hin) as [R [HR Hcfg]].
    destruct (exec_runner_closure _ _ _ _ _ H HR) as [R' [HR' [Hcap _]]].
    exists R'. split; [assumption | congruence]. }
  assert (Hnew : forall r R l p i a a' cs,
             nth_error (runners s) r = Some R ->
             loopFrom r (captured R) l i a = (a', p, cs) ->
             runners s' = setNth r (withPc R l p) (runners s) ->
             In c cs ->
             exists R, nth_error (runners s') (caller c) = Some R /\
                       callConfig c = captured R).
  { intros r R l p i a a' cs HR Hl Hrs Hin.
    destruct (loopFrom_calls _ _ _ _ _ _ _ _ Hl c Hin) as [-> ->].
    rewrite Hrs, (nth_error_setNth_eq _ _ _ _ HR). eexists. split; reflexivity. }
  destruct e; exec_paths H; simpl in *; auto.
  - apply in_app_or in Hc. destruct Hc as [Hc | Hc]; [auto|].
    eapply Hnew; try eassumption. reflexivity.
  - apply in_app_or in Hc. destruct Hc as [Hc | Hc]; [auto|].
    eapply Hnew; try eassumption. reflexivity.
  - apply Hold. revert Hc. unfold startRefine.
    destruct (findItem _ _) as [it|]; [destruct (data it)|]; simpl; auto.
  - apply Hold. revert Hc. unfold finishRefine. destruct outcome; simpl; auto.
Qed.

Lemma reachable_callsFromClosures (s : Sys) :
  reachable s -> callsFromClosures s.
Proof.
  intros [es H]. eapply (run_invariant callsFromClosures); [|exact H|].
  - intros e s0 s1. apply exec_callsFromClosures.
  - intros c [].
Qed.

(** ** App.tsx: which configuration a generation call receives *)

(** C3, as the specification states it: a generation call receives the
    shared configuration as it stands when the call starts.  Here the
    refinement of the first unit sets the shared aspect ratio to 1:1
    while the second unit is in flight; the call for the third unit,
    made afterwards, still receives 16:9. *)
Lemma config_not_read_at_call_time :
  ~ (forall es s e s',
        run es init = Some s ->
        exec e s = Some s' ->
        forall c, In c (skipn (List.length (calls s)) (calls s')) ->
                  callConfig c = promptConfig (store s)).
Proof.
  intros H.
  assert (E : exists s s' c,
             run refineDuringBatch init = Some s /\
             exec (GenerationSettled 0 (inl (sampleMetadata "B" ["dog"]))) s
             = Some s' /\
             In c (skipn (List.length (calls s)) (calls s')) /\
             aspectRatio (callConfig c) = "16:9" /\
             aspectRatio (promptConfig (store s)) = "1:1").
  { eexists. eexists. eexists.
    split; [vm_compute; reflexivity|].
    split; [vm_compute; reflexivity|].
    split; [vm_compute; left; reflexivity|].
    split; reflexivity. }
  destruct E as [s [s' [c [E1 [E2 [E3 [E4 E5]]]]]]].
  specialize (H _ _ _ _ E1 E2 c E3). rewrite H, E5 in E4. discriminate E4.
Qed.

(** C3, amended: every generation call of a batch run receives the
    configuration that was the shared one when the files of that run
    were selected (the [promptConfig] of the closure of
    [handleFilesSelect]), whatever happens to the shared configuration
    afterwards: a change made while the run is in flight affects none of
    its units. *)
Theorem generation_uses_captured_config (s0 : Sys) (fileList : list File)
        (s1 : Sys) (rest : list Event) (s : Sys) :
  reachable s0 ->
  validFiles fileList <> [] ->
  exec (SelectFiles fileList) s0 = Some s1 ->
  run rest s1 = Some s ->
  forall c, In c (calls s) ->
            caller c = List.length (runners s0) ->
            callConfig c = promptConfig (store s0).
Proof.
  intros [es Hes] Hvalid Hsel Hrest c Hc Hcaller.
  assert (Hreach : reachable s).
  { exists (es ++ SelectFiles fileList :: rest).
    rewrite run_app, Hes.
    change (run (SelectFiles fileList :: rest) s0)
      with (match exec (SelectFiles fileList) s0 with
            | Some s' => run rest s'
            | None => None
            end).
    now rewrite Hsel. }
  destruct (reachable_callsFromClosures s Hreach c Hc) as [R [HR Hcfg]].
  assert (Hnew : exists R1, nth_error (runners s1) (List.length (runners s0)) = Some R1
                            /\ captured R1 = promptConfig (store s0)).
  { simpl in Hsel. destruct (validFiles fileList) eqn:E; [congruence|].
    injection Hsel as <-. simpl.
    rewrite nth_error_app2, Nat.sub_diag by lia. simpl. eauto. }
  destruct Hnew as [R1 [HR1 Hcap1]].
  destruct (run_runner_closure _ _ _ _ _ Hrest HR1) as [R' [HR' [Hcap' _]]].
  rewrite Hcaller, HR' in HR. injection HR as <-. congruence.
Qed.

Lemma generation_uses_captured_config_witness :
  exists s c,
    run (GenerationSettled 0 (inl (sampleMetadata "B" ["dog"]))
         :: nil)
        (match run refineDuringBatch init with Some x => x | None => init end)
    = Some s /\
    In c (calls s) /\ callItem c = "e5f6" /\
    aspectRatio (promptConfig (store s)) = "1:1" /\
    callConfig c = initialConfig.
Proof.
  eexists. eexists.
  split; [vm_compute; reflexivity|].
  split; [vm_compute; right; right; left; reflexivity|].
  split; [reflexivity|]. split; [reflexivity|].
  eapply (generation_uses_captured_config init
            [jpeg "a.jpg"; jpeg "b.jpg"; jpeg "c.jpg"] _
            (tl refineDuringBatch ++
             [GenerationSettled 0 (inl (sampleMetadata "B" ["dog"]))])).
  - exists []. reflexivity.
  - vm_compute. discriminate.
  - vm_compute. reflexivity.
  - vm_compute. reflexivity.
  - vm_compute. right. right. left. reflexivity.
  - reflexivity.
Defined.

(** ** App.tsx: a refinement that succeeds *)

Lemma findItem_id (x : string) (l : list BatchItem) (item : BatchItem) :
  findItem x l = Some item -> id item = x /\ In item l.
Proof.
  unfold findItem. intros H. apply find_some in H. destruct H as [Hin He].
  apply String.eqb_eq in He. now split.
Qed.

Lemma resultCard_item (st : AnalysisState) (item : BatchItem) (d : StockMetadata) :
  resultCard st = Some (item, d) ->
  activeItem st = Some item /\ status item = Completed /\ data item = Some d.
Proof.
  unfold resultCard. destruct (activeItem st) as [it|]; [|discriminate].
  destruct (status it) eqn:Es; try discriminate.
  destruct (data it) eqn:Ed; [|discriminate].
  intros H. injection H as <- <-. auto.
Qed.

Lemma activeItem_findItem (st : AnalysisState) (item : BatchItem) :
  activeItem st = Some item ->
  findItem (id item) (items st) = Some item.
Proof.
  unfold activeItem. destruct (activeItemId st) as [a|].
  - destruct (findItem a (items st)) as [it|] eqn:E.
    + intros H. injection H as <-.
      destruct (findItem_id _ _ _ E) as [-> _]. exact E.
    + destruct (items st) as [|x l]; simpl; [discriminate|].
      intros H. injection H as <-. unfold findItem. simpl.
      now rewrite String.eqb_refl.
  - destruct (items st) as [|x l]; simpl; [discriminate|].
    intros H. injection H as <-. unfold findItem. simpl.
    now rewrite String.eqb_refl.
Qed.

(** What a refinement captured stays; it is settled by its own
    [RefineSettled] only. *)
Lemma exec_refinement_kept (e : Event) (s s' : Sys) (k : nat) (q : Refinement) :
  exec e s = Some s' ->
  nth_error (refinements s) k = Some q ->
  exists q', nth_error (refinements s') k = Some q' /\
             refineId q' = refineId q /\
             newAspectRatio q' = newAspectRatio q /\
             refineConfig q' = refineConfig q /\
             (settlesRefinement k e = false -> settled q' = settled q).
Proof.
  intros H Hq.
  assert (Hsame : exists q', nth_error (refinements s) k = Some q' /\
             refineId q' = refineId q /\
             newAspectRatio q' = newAspectRatio q /\
             refineConfig q' = refineConfig q /\
             (settlesRefinement k e = false -> settled q' = settled q)).
  { exists q. auto. }
  destruct e; exec_paths H; simpl; auto.
  - unfold startRefine.
    destruct (findItem _ _) as [it|]; [destruct (data it)|]; simpl; auto.
    rewrite nth_error_app1 by (apply nth_error_Some; congruence). exact Hsame.
  - unfold finishRefine.
    destruct (Nat.eq_dec k k0) as [<- | Hne].
    + assert (r = q) by congruence. subst r.
      destruct outcome; simpl;
        rewrite (nth_error_setNth_eq _ _ _ _ Hq); eexists;
        (split; [reflexivity|]); simpl; repeat split;
        rewrite Nat.eqb_refl; discriminate.
    + destruct outcome; simpl; rewrite nth_error_setNth_ne by assumption;
        exists q; repeat split; assumption.
Qed.

Lemma run_refinement_kept (es : list Event) (s s' : Sys) (k : nat) (q : Refinement) :
  run es s = Some s' ->
  nth_error (refinements s) k = Some q ->
  forallb (fun e => negb (settlesRefinement k e)) es = true ->
  exists q', nth_error (refinements s') k = Some q' /\
             refineId q' = refineId q /\
             newAspectRatio q' = newAspectRatio q /\
             refineConfig q' = refineConfig q /\
             settled q' = settled q.
Proof.
  revert s q. induction es as [|e es IH]; intros s q H Hq Hes; simpl in H.
  - injection H as <-. exists q. auto.
  - destruct (exec e s) as [s1|] eqn:E; [|discriminate].
    simpl in Hes. apply andb_prop in Hes. destruct Hes as [He Hes].
    apply negb_true_iff in He.
    destruct (exec_refinement_kept _ _ _ _ _ E Hq) as [q1 [H1 [Ha [Hb [Hc Hd]]]]].
    destruct (IH _ _ H H1 Hes) as [q' [H' [Ha' [Hb' [Hc' Hd']]]]].
    exists q'. split; [assumption|]. rewrite Ha', Hb', Hc', Hd', (Hd He). auto.
Qed.

Lemma replaceData_data (x : string) (m : StockMetadata) (l : list BatchItem)
      (i : BatchItem) :
  In i (map (replaceData x m) l) -> id i = x -> data i = Some m.
Proof.
  intros Hin Hid. apply in_map_iff in Hin. destruct Hin as [j [<- _]].
  rewrite id_replaceData in Hid. unfold replaceData.
  apply String.eqb_eq in Hid. now rewrite Hid.
Qed.

(** C6: the refine control of a completed unit, used with a non-blank
    instruction, starts a refinement of that unit; when the backend
    answers, [refineMetadata] returns the new metadata tagged with the
    target model the shared configuration had at the call (its
    [used_model] is that model, its other fields are the answer's); when that
    call settles (whatever happened in between), the data of the unit is
    replaced by this result and the shared configuration gets the aspect
    ratio that was passed to the refine call. *)
Theorem refine_success_replaces_result (s : Sys) (instruction ratio : string)
        (item : BatchItem) (d : StockMetadata) (mid : list Event) (s2 : Sys)
        (response : BackendResponse) (refinedResult : StockMetadata) :
  resultCard (state (store s)) = Some (item, d) ->
  trim instruction <> "" ->
  run mid (startRefine (id item) instruction ratio s) = Some s2 ->
  forallb (fun e => negb (settlesRefinement (List.length (refinements s)) e)) mid
  = true ->
  refineMetadata d instruction (withAspectRatio (promptConfig (store s)) ratio)
                 response = inl refinedResult ->
  exec (RefineItem instruction ratio) s
  = Some (startRefine (id item) instruction ratio s) /\
  (exists metadata,
      response = ResponseText metadata /\
      used_model refinedResult = Some (targetModel (promptConfig (store s))) /\
      title refinedResult = title metadata /\
      description refinedResult = description metadata /\
      ai_prompt refinedResult = ai_prompt metadata /\
      keywords refinedResult = keywords metadata /\
      category refinedResult = category metadata /\
      technical_settings refinedResult = technical_settings metadata) /\
  exists s3,
    exec (RefineSettled (List.length (refinements s)) (inl refinedResult)) s2
    = Some s3 /\
    items (state (store s3))
    = map (replaceData (id item) refinedResult) (items (state (store s2))) /\
    (forall i, In i (items (state (store s3))) -> id i = id item ->
               data i = Some refinedResult) /\
    promptConfig (store s3) = withAspectRatio (promptConfig (store s2)) ratio /\
    aspectRatio (promptConfig (store s3)) = ratio.
Proof.
  intros Hcard Hins Hmid Hno Href.
  destruct (resultCard_item _ _ _ Hcard) as [Hact [Hst Hd]].
  pose proof (activeItem_findItem _ _ Hact) as Hfind.
  split; [|split].
  - simpl. rewrite Hcard. apply truthy_true in Hins. now rewrite Hins.
  - destruct response; try discriminate Href.
    exists metadata. split; [reflexivity|].
    simpl in Href. injection Href as <-. simpl. repeat split; reflexivity.
  - assert (Hq : nth_error (refinements (startRefine (id item) instruction ratio s))
                           (List.length (refinements s))
                 = Some {| refineId := id item;
                           refineConfig :=
                             withAspectRatio (promptConfig (store s)) ratio;
                           newAspectRatio := ratio;
                           settled := None |}).
    { unfold startRefine. rewrite Hfind, Hd. simpl.
      now rewrite nth_error_app2, Nat.sub_diag by lia. }
    destruct (run_refinement_kept _ _ _ _ _ Hmid Hq Hno)
      as [q' [Hq' [Hid [Hratio [_ Hset]]]]].
    simpl in Hid, Hratio, Hset.
    exists (finishRefine (List.length (refinements s)) q' (inl refinedResult) s2).
    split; [simpl; now rewrite Hq', Hset|].
    simpl. rewrite Hid, Hratio.
    split; [reflexivity|]. split; [|split; reflexivity].
    intros i. apply replaceData_data.
Qed.

Lemma refine_success_replaces_result_witness :
  exists s3,
    run [RefineItem "warmer light" "1:1"; RefineSettled 0 (inl refinedSample)]
        (stateAfter oneGenerated) = Some s3 /\
    map data (items (state (store s3))) = [Some refinedSample] /\
    used_model refinedSample = Some midjourney /\
    aspectRatio (promptConfig (store s3)) = "1:1".
Proof.
  assert (Hins : trim "warmer light" <> "") by (vm_compute; discriminate).
  destruct (refine_success_replaces_result
              (stateAfter oneGenerated) "warmer light" "1:1"
              {| id := "a1b2"; file := jpeg "a.jpg"; status := Completed;
                 data := Some (sampleMetadata "A" ["cat"]); error := None |}
              (sampleMetadata "A" ["cat"]) []
              (startRefine "a1b2" "warmer light" "1:1" (stateAfter oneGenerated))
              (ResponseText (sampleMetadata "A2" ["cat"; "sun"]))
              refinedSample
              eq_refl Hins eq_refl eq_refl eq_refl)
    as [Hstart [[metadata [_ [Htag _]]] [s3 [Hsettle [Hitems [_ [_ Hratio]]]]]]].
  exists s3. split; [|split; [|split]].
  - change (run [RefineItem "warmer light" "1:1";
                 RefineSettled 0 (inl refinedSample)]
                (stateAfter oneGenerated))
      with (match exec (RefineItem "warmer light" "1:1")
                       (stateAfter oneGenerated) with
            | Some s1 =>
                match exec (RefineSettled 0 (inl refinedSample)) s1 with
                | Some s2 => Some s2
                | None => None
                end
            | None => None
            end).
    rewrite Hstart. simpl id.
    change (List.length (refinements (stateAfter oneGenerated))) with 0 in Hsettle.
    now rewrite Hsettle.
  - rewrite Hitems. reflexivity.
  - exact Htag.
  - exact Hratio.
Defined.

(** ** The invariant is kept by every step *)

Lemma NoDup_id_eq (l : list BatchItem) (a b : BatchItem) :
  NoDup (map id l) -> In a l -> In b l -> id a = id b -> a = b.
Proof.
  induction l as [|x l IH]; simpl; intros Hnd Ha Hb Hid; [contradiction|].
  inversion Hnd as [|? ? Hnin Hnd']; subst.
  destruct Ha as [-> | Ha], Hb as [-> | Hb]; auto.
  - exfalso. apply Hnin. rewrite Hid. now apply in_map.
  - exfalso. apply Hnin. rewrite <- Hid. now apply in_map.
Qed.

Lemma nth_error_snoc {A : Type} (l : list A) (x y : A) (n : nat) :
  nth_error (l ++ [x]) n = Some y ->
  nth_error l n = Some y \/ (n = List.length l /\ y = x).
Proof.
  intros H. destruct (Nat.lt_ge_cases n (List.length l)) as [Hlt | Hge].
  - rewrite nth_error_app1 in H by assumption. now left.
  - rewrite nth_error_app2 in H by assumption.
    destruct (n - List.length l) as [|m] eqn:E; simpl in H.
    + injection H as <-. right. split; [lia | reflexivity].
    + destruct m; discriminate H.
Qed.

Lemma nth_error_setNth_inv {A : Type} (l : list A) (k j : nat) (x y : A) :
  nth_error (setNth k x l) j = Some y ->
  (j = k /\ y = x /\ j < List.length l) \/ (j <> k /\ nth_error l j = Some y).
Proof.
  intros H. destruct (Nat.eq_dec j k) as [-> | Hne].
  - left. assert (Hlt : k < List.length l).
    { rewrite <- (length_setNth l k x). apply nth_error_Some. congruence. }
    destruct (nth_error l k) as [z|] eqn:E.
    + rewrite (nth_error_setNth_eq _ _ _ _ E) in H. injection H as <-. auto.
    + apply nth_error_None in E. lia.
  - right. rewrite nth_error_setNth_ne in H by assumption. auto.
Qed.

Lemma unitOk_cases (i : BatchItem) :
  unitOk i = true ->
  match status i with
  | Completed => data i <> None /\ error i = None
  | Error => data i = None /\ error i <> None
  | _ => data i = None /\ error i = None
  end.
Proof.
  unfold unitOk. destruct (status i), (data i), (error i);
    intros H; try discriminate H; split; congruence.
Qed.

Section Preservation.

Variable its : list BatchItem.
Variable rs : list Runner.
Variable qs : list Refinement.
Variable iss : list string.
Hypothesis I : InvOn its rs qs iss.

(** An update of the queue that keeps ids and statuses. *)
Lemma InvOn_map (f : BatchItem -> BatchItem) :
  (forall i, id (f i) = id i) ->
  (forall i, status (f i) = status i) ->
  (forall i, In i its -> unitOk (f i) = true) ->
  InvOn (map f its) rs qs iss.
Proof.
  intros Hid Hst Hok.
  assert (Hids : map id (map f its) = map id its)
    by (apply map_map_same; exact Hid).
  constructor.
  - intros i Hi. apply in_map_iff in Hi. destruct Hi as [j [<- Hj]]. auto.
  - rewrite Hids. apply (inv_nodup I).
  - intros i Hi. apply in_map_iff in Hi. destruct Hi as [j [<- Hj]].
    rewrite Hid, Hst. apply (inv_owner I). exact Hj.
  - apply (inv_issued I).
  - apply (inv_inj I).
  - rewrite Hids. apply (inv_presence I).
  - intros j q Hq. destruct (inv_refine I j q Hq) as [H1 H2].
    split; [assumption|].
    intros i Hi. apply in_map_iff in Hi. destruct Hi as [i0 [<- Hi0]].
    rewrite Hid, Hst. now apply H2.
Qed.

(** Replacing the result of a unit that is completed. *)
Lemma InvOn_replaceData (x : string) (m : StockMetadata) :
  (forall i, In i its -> id i = x -> status i = Completed) ->
  InvOn (map (replaceData x m) its) rs qs iss.
Proof.
  intros Hx. apply InvOn_map.
  - intros i. apply id_replaceData.
  - intros i. unfold replaceData. now destruct (String.eqb (id i) x).
  - intros i Hi. pose proof (inv_units I i Hi) as Hok.
    unfold replaceData. destruct (String.eqb (id i) x) eqn:E; [|assumption].
    apply String.eqb_eq in E. specialize (Hx i Hi E).
    apply unitOk_cases in Hok. rewrite Hx in Hok. destruct Hok as [_ He].
    unfold unitOk. simpl. now rewrite Hx, He.
Qed.

(** [handleClear] *)
Lemma InvOn_clear : InvOn [] rs qs iss.
Proof.
  constructor; simpl.
  - intros i [].
  - constructor.
  - intros i [].
  - apply (inv_issued I).
  - apply (inv_inj I).
  - intros r R _. right. intros k u _ [].
  - intros j q Hq. split; [apply (inv_refine I j q Hq)|]. intros i [].
Qed.

(** Refinements that target the units the known ones target, or a
    completed unit of the queue. *)
Lemma InvOn_refinements (qs' : list Refinement) :
  (forall j q', nth_error qs' j = Some q' ->
     (exists j0 q, nth_error qs j0 = Some q /\ refineId q = refineId q') \/
     (exists i, In i its /\ id i = refineId q' /\ status i = Completed)) ->
  InvOn its rs qs' iss.
Proof.
  intros H. constructor; try apply I.
  intros j q' Hq'. destruct (H j q' Hq') as [[j0 [q [Hq <-]]] | [i [Hi [Hid Hst]]]].
  - apply (inv_refine I j0 q Hq).
  - split.
    + destruct (inv_owner I i Hi) as [r [R [k [u [HR [Hu [Hidu _]]]]]]].
      rewrite <- Hid, <- Hidu. apply (inv_issued I r R k u HR Hu).
    + intros i' Hi' Hid'.
      assert (i' = i) by (apply (NoDup_id_eq its); try apply I; congruence).
      now subst.
Qed.

(** [handleFilesSelect] starts: a runner without items yet. *)
Lemma InvOn_new_runner (c : PromptConfig) (files : list File) :
  InvOn its
        (rs ++ [{| captured := c; selected := files;
                   itemsToProcess := []; pc := Preparing |}])
        qs iss.
Proof.
  assert (Hold : forall r R k u,
             nth_error (rs ++ [{| captured := c; selected := files;
                                  itemsToProcess := []; pc := Preparing |}]) r
             = Some R ->
             nth_error (itemsToProcess R) k = Some u ->
             nth_error rs r = Some R).
  { intros r R k u HR Hu. apply nth_error_snoc in HR.
    destruct HR as [HR | [_ ->]]; [assumption|].
    simpl in Hu. destruct k; discriminate Hu. }
  constructor; try apply I.
  - intros i Hi. destruct (inv_owner I i Hi) as [r [R [k [u [HR H]]]]].
    exists r, R, k, u. split; [|assumption].
    rewrite nth_error_app1; [assumption|]. apply nth_error_Some. congruence.
  - intros r R k u HR Hu. eapply (inv_issued I); eauto.
  - intros r R k u r' R' k' u' HR Hu HR' Hu'.
    eapply (inv_inj I); eauto.
  - intros r R HR. apply nth_error_snoc in HR.
    destruct HR as [HR | [_ ->]]; [now apply (inv_presence I r)|].
    right. intros k u Hu. simpl in Hu. destruct k; discriminate Hu.
Qed.

End Preservation.

Lemma settleItem_mapItems (item : BatchItem) (outcome : Result StockMetadata)
      (a : AnalysisState) :
  settleItem item outcome a = mapItems (settleMark item outcome) a.
Proof. now destruct outcome. Qed.

Lemma id_settleMark (item : BatchItem) (o : Result StockMetadata) (i : BatchItem) :
  id (settleMark item o i) = id i.
Proof. destruct o; simpl; [apply id_markCompleted | apply id_markError]. Qed.

Lemma settleMark_other (item : BatchItem) (o : Result StockMetadata) (i : BatchItem) :
  id i <> id item -> settleMark item o i = i.
Proof.
  intros H. apply String.eqb_neq in H.
  destruct o; simpl; unfold markCompleted, markError; now rewrite H.
Qed.

Lemma settleMark_target (item : BatchItem) (o : Result StockMetadata) (i : BatchItem) :
  id i = id item -> status i = Processing -> unitOk i = true ->
  terminal (status (settleMark item o i)) = true /\
  unitOk (settleMark item o i) = true.
Proof.
  intros Hid Hst Hok. apply unitOk_cases in Hok. rewrite Hst in Hok.
  destruct Hok as [Hd He]. apply String.eqb_eq in Hid.
  destruct o; simpl; unfold markCompleted, markError, unitOk; rewrite Hid; simpl;
    rewrite ?Hd, ?He; auto.
Qed.

Lemma markProcessing_other (x : string) (i : BatchItem) :
  id i <> x -> markProcessing x i = i.
Proof.
  intros H. apply String.eqb_neq in H. unfold markProcessing. now rewrite H.
Qed.

Lemma markProcessing_target (x : string) (i : BatchItem) :
  id i = x -> status i = Pending -> unitOk i = true ->
  status (markProcessing x i) = Processing /\ unitOk (markProcessing x i) = true.
Proof.
  intros Hid Hst Hok. apply unitOk_cases in Hok. rewrite Hst in Hok.
  destruct Hok as [Hd He]. apply String.eqb_eq in Hid.
  unfold markProcessing, unitOk. rewrite Hid. simpl. now rewrite Hd, He.
Qed.

Section Advance.

Variable its : list BatchItem.
Variable rs : list Runner.
Variable qs : list Refinement.
Variable iss : list string.
Hypothesis I : InvOn its rs qs iss.

Variable r : nat.
Variable R : Runner.
Hypothesis HR : nth_error rs r = Some R.

(** The runner [r] moves to [p] and the queue is updated by [g],
    which touches the units of the batch of [r] only. *)
Lemma InvOn_advance (g : BatchItem -> BatchItem) (p : RunnerPc) :
  (forall i, id (g i) = id i) ->
  (forall i k u,
      In i its ->
      nth_error (itemsToProcess R) k = Some u ->
      id u = id i ->
      expectedAt (pc R) k (status i) ->
      unitOk (g i) = true /\
      expectedAt p k (status (g i)) /\
      (status i = Completed -> status (g i) = Completed)) ->
  (forall i,
      (forall k u, nth_error (itemsToProcess R) k = Some u -> id u <> id i) ->
      g i = i) ->
  InvOn (map g its) (setNth r (withPc R (itemsToProcess R) p) rs) qs iss.
Proof.
  intros Hid Hown Hother.
  assert (Hids : map id (map g its) = map id its)
    by (apply map_map_same; exact Hid).
  assert (Hrs : forall r0 R0',
             nth_error (setNth r (withPc R (itemsToProcess R) p) rs) r0
             = Some R0' ->
             exists R0, nth_error rs r0 = Some R0 /\
                        itemsToProcess R0' = itemsToProcess R0).
  { intros r0 R0' H0. apply nth_error_setNth_inv in H0.
    destruct H0 as [[-> [-> _]] | [_ H0]]; eauto. }
  (* what [g] does to a unit, by its owner *)
  assert (Hcase : forall i, In i its ->
             unitOk (g i) = true /\
             (status i = Completed -> status (g i) = Completed) /\
             exists r0 R0 k u,
               nth_error (setNth r (withPc R (itemsToProcess R) p) rs) r0
               = Some R0 /\
               nth_error (itemsToProcess R0) k = Some u /\
               id u = id (g i) /\
               expectedAt (pc R0) k (status (g i))).
  { intros i Hi.
    destruct (inv_owner I i Hi) as [r0 [R0 [k [u [HR0 [Hu [Hidu Hexp]]]]]]].
    destruct (Nat.eq_dec r0 r) as [-> | Hne].
    - assert (R0 = R) by congruence. subst R0.
      destruct (Hown i k u Hi Hu Hidu Hexp) as [Hok [Hexp' Hc]].
      split; [assumption|]. split; [assumption|].
      exists r, (withPc R (itemsToProcess R) p), k, u.
      rewrite (nth_error_setNth_eq _ _ _ _ HR), Hid. auto.
    - assert (Hg : g i = i).
      { apply Hother. intros k' u' Hu' Hid'.
        destruct (inv_inj I r R k' u' r0 R0 k u HR Hu' HR0 Hu) as [E _];
          congruence. }
      rewrite Hg. split; [now apply (inv_units I)|]. split; [auto|].
      exists r0, R0, k, u. rewrite nth_error_setNth_ne by assumption. auto. }
  constructor.
  - intros i' Hi'. apply in_map_iff in Hi'. destruct Hi' as [i [<- Hi]].
    apply (Hcase i Hi).
  - rewrite Hids. apply (inv_nodup I).
  - intros i' Hi'. apply in_map_iff in Hi'. destruct Hi' as [i [<- Hi]].
    apply (Hcase i Hi).
  - intros r0 R0' k u H0 Hu. destruct (Hrs _ _ H0) as [R0 [HR0 Hb]].
    rewrite Hb in Hu. apply (inv_issued I r0 R0 k u HR0 Hu).
  - intros r1 R1' k1 u1 r2 R2' k2 u2 H1 Hu1 H2 Hu2.
    destruct (Hrs _ _ H1) as [R1 [HR1 Hb1]].
    destruct (Hrs _ _ H2) as [R2 [HR2 Hb2]].
    rewrite Hb1 in Hu1. rewrite Hb2 in Hu2.
    apply (inv_inj I r1 R1 k1 u1 r2 R2 k2 u2 HR1 Hu1 HR2 Hu2).
  - intros r0 R0' H0. destruct (Hrs _ _ H0) as [R0 [HR0 Hb]].
    rewrite Hids, Hb. apply (inv_presence I r0 R0 HR0).
  - intros j q Hq. destruct (inv_refine I j q Hq) as [H1 H2].
    split; [assumption|].
    intros i' Hi'. apply in_map_iff in Hi'. destruct Hi' as [i [<- Hi]].
    rewrite Hid. intros Hq'. apply (Hcase i Hi). now apply H2.
Qed.

(** The awaited call of [r] settles and the loop goes on. *)
Lemma InvOn_settled (j : nat) (item : BatchItem) (o : Result StockMetadata)
      (c : PromptConfig) (a a2 : AnalysisState) (p : RunnerPc) (cs : list Call) :
  pc R = Awaiting j ->
  nth_error (itemsToProcess R) j = Some item ->
  items a = its ->
  loopFrom r c (itemsToProcess R) (S j) (settleItem item o a) = (a2, p, cs) ->
  InvOn (items a2) (setNth r (withPc R (itemsToProcess R) p) rs) qs iss.
Proof.
  intros Hpc Hitem Hits Hloop.
  assert (Hinj : forall k u k' u',
             nth_error (itemsToProcess R) k = Some u ->
             nth_error (itemsToProcess R) k' = Some u' ->
             id u = id u' -> k = k').
  { intros k u k' u' Hu Hu' E.
    apply (inv_inj I r R k u r R k' u' HR Hu HR Hu' E). }
  unfold loopFrom in Hloop. rewrite settleItem_mapItems in Hloop.
  destruct (nth_error (itemsToProcess R) (S j)) as [next|] eqn:Enext;
    injection Hloop as <- <- _; simpl; rewrite Hits.
  - rewrite map_map.
    apply (InvOn_advance
             (fun i => markProcessing (id next) (settleMark item o i))).
    + intros i. now rewrite id_markProcessing, id_settleMark.
    + intros i k u Hi Hu Hidu Hexp. rewrite Hpc in Hexp. simpl in Hexp.
      destruct Hexp as [Hlt [Heq Hgt]].
      pose proof (inv_units I i Hi) as Hok.
      destruct (Nat.lt_total k j) as [Hk | [Hk | Hk]].
      * (* already left by the loop *)
        rewrite settleMark_other, markProcessing_other.
        -- simpl. repeat split; auto; intros; lia.
        -- intros E. assert (S j = k) by (eapply Hinj; eauto; congruence). lia.
        -- intros E. assert (j = k) by (eapply Hinj; eauto; congruence). lia.
      * (* the awaited item *)
        subst k. assert (u = item) by congruence. subst u.
        destruct (settleMark_target item o i (eq_sym Hidu) (Heq eq_refl) Hok)
          as [Ht Hok'].
        rewrite markProcessing_other.
        -- simpl. split; [assumption|]. split.
           ++ repeat split; intros; try lia. assumption.
           ++ intros Hc. rewrite (Heq eq_refl) in Hc. discriminate Hc.
        -- rewrite id_settleMark. intros E.
           assert (S j = j) by (eapply Hinj; eauto; congruence). lia.
      * (* not reached yet *)
        rewrite settleMark_other.
        2:{ intros E. assert (j = k) by (eapply Hinj; eauto; congruence). lia. }
        destruct (Nat.eq_dec k (S j)) as [-> | Hne].
        -- assert (u = next) by congruence. subst u.
           destruct (markProcessing_target (id next) i (eq_sym Hidu)
                       (Hgt Hk) Hok) as [Hst' Hok'].
           split; [assumption|]. simpl. rewrite Hst'. split.
           ++ repeat split; intros; try lia; try discriminate.
           ++ intros Hc. rewrite (Hgt Hk) in Hc. discriminate Hc.
        -- rewrite markProcessing_other.
           ++ split; [assumption|]. simpl. split; [|auto].
              repeat split; intros; try lia. apply Hgt. lia.
           ++ intros E.
              assert (S j = k) by (eapply Hinj; eauto; congruence). lia.
    + intros i Hno. rewrite settleMark_other, markProcessing_other; auto.
      * intros E. apply (Hno (S j) next Enext). congruence.
      * intros E. apply (Hno j item Hitem). congruence.
  - apply (InvOn_advance (settleMark item o)).
    + intros i. apply id_settleMark.
    + intros i k u Hi Hu Hidu Hexp. rewrite Hpc in Hexp. simpl in Hexp.
      destruct Hexp as [Hlt [Heq Hgt]].
      pose proof (inv_units I i Hi) as Hok.
      assert (Hkj : k <= j).
      { apply nth_error_None in Enext.
        assert (k < List.length (itemsToProcess R))
          by (apply nth_error_Some; congruence). lia. }
      destruct (Nat.eq_dec k j) as [-> | Hne].
      * assert (u = item) by congruence. subst u.
        destruct (settleMark_target item o i (eq_sym Hidu) (Heq eq_refl) Hok)
          as [Ht Hok'].
        split; [assumption|]. split; [exact Ht|].
        intros Hc. rewrite (Heq eq_refl) in Hc. discriminate Hc.
      * rewrite settleMark_other.
        -- split; [assumption|]. split; [|auto]. simpl. apply Hlt. lia.
        -- intros E. assert (j = k) by (eapply Hinj; eauto; congruence). lia.
    + intros i Hno. apply settleMark_other.
      intros E. apply (Hno j item Hitem). congruence.
Qed.

End Advance.

Lemma NoDup_app_disjoint {A : Type} (l1 l2 : list A) (x : A) :
  NoDup (l1 ++ l2) -> In x l1 -> In x l2 -> False.
Proof.
  induction l1 as [|a l1 IH]; simpl; intros Hnd H1 H2; [contradiction|].
  inversion Hnd as [|? ? Hnin Hnd']; subst.
  destruct H1 as [-> | H1]; [|now apply IH].
  apply Hnin. apply in_or_app. now right.
Qed.

Lemma nth_error_id_inj (l : list BatchItem) (k k' : nat) (u u' : BatchItem) :
  NoDup (map id l) ->
  nth_error l k = Some u -> nth_error l k' = Some u' -> id u = id u' -> k = k'.
Proof.
  intros Hnd Hu Hu' E.
  apply (proj1 (NoDup_nth_error (map id l)) Hnd).
  - rewrite length_map. apply nth_error_Some. congruence.
  - rewrite !nth_error_map, Hu, Hu'. simpl. now rewrite E.
Qed.

(** The queue after the first iteration of [processBatchQueue] has
    started, seen from the units just created. *)
Lemma loopFrom_start (its newItems : list BatchItem) (r : nat) (c : PromptConfig)
      (a1 a2 : AnalysisState) (p : RunnerPc) (cs : list Call) :
  items a1 = its ++ newItems ->
  (forall i n, In i its -> In n newItems -> id i <> id n) ->
  NoDup (map id newItems) ->
  Forall (fun i => status i = Pending /\ data i = None /\ error i = None) newItems ->
  loopFrom r c newItems 0 (setIsProcessing true a1) = (a2, p, cs) ->
  exists new',
    items a2 = its ++ new' /\
    map id new' = map id newItems /\
    forall k i', nth_error new' k = Some i' ->
      exists u, nth_error newItems k = Some u /\ id u = id i' /\
                expectedAt p k (status i') /\ unitOk i' = true.
Proof.
  intros Hits Hfresh Hnd Hpend Hloop. unfold loopFrom in Hloop.
  destruct newItems as [|first rest]; simpl in Hloop; injection Hloop as <- <- _.
  - exists []. simpl. split; [assumption|]. split; [reflexivity|].
    intros [|k] i' H; discriminate H.
  - exists (markProcessing (id first) first :: rest). simpl.
    inversion Hnd as [|? ? Hnin Hnd']; subst.
    inversion Hpend as [|? ? [Hs [Hd He]] Hpend']; subst.
    split; [|split].
    + rewrite Hits, map_app. f_equal.
      * rewrite <- (map_id its) at 2. apply map_ext_in. intros i Hi.
        apply markProcessing_other. apply (Hfresh i first Hi). now left.
      * simpl. f_equal.
        rewrite <- (map_id rest) at 2. apply map_ext_in. intros n Hn.
        apply markProcessing_other. intros E. apply Hnin. rewrite <- E.
        now apply in_map.
    + now rewrite id_markProcessing.
    + intros [|k] i' H; simpl in H.
      * injection H as <-. exists first. rewrite id_markProcessing.
        unfold markProcessing, unitOk. rewrite String.eqb_refl. simpl.
        rewrite Hd, He. repeat split; intros; lia.
      * exists i'. split; [assumption|]. split; [reflexivity|].
        apply nth_error_In in H.
        rewrite Forall_forall in Hpend'. destruct (Hpend' i' H) as [Hs' [Hd' He']].
        unfold unitOk. rewrite Hs', Hd', He'. simpl.
        repeat split; intros; try lia.
Qed.

Section Prepared.

Variable its : list BatchItem.
Variable rs : list Runner.
Variable qs : list Refinement.
Variable iss : list string.
Hypothesis I : InvOn its rs qs iss.

Variable r : nat.
Variable R : Runner.
Hypothesis HR : nth_error rs r = Some R.
Hypothesis Hpc : pc R = Preparing.

Lemma items_issued (i : BatchItem) : In i its -> In (id i) iss.
Proof.
  intros Hi. destruct (inv_owner I i Hi) as [r0 [R0 [k [u [HR0 [Hu [<- _]]]]]]].
  apply (inv_issued I r0 R0 k u HR0 Hu).
Qed.

(** The conversions of [r] are done: its items are created, appended
    and the loop starts. *)
Lemma InvOn_prepared (newItems : list BatchItem) (c : PromptConfig)
      (a1 a2 : AnalysisState) (p : RunnerPc) (cs : list Call) :
  NoDup (iss ++ map id newItems) ->
  Forall (fun i => status i = Pending /\ data i = None /\ error i = None)
         newItems ->
  items a1 = its ++ newItems ->
  loopFrom r c newItems 0 (setIsProcessing true a1) = (a2, p, cs) ->
  InvOn (items a2) (setNth r (withPc R newItems p) rs) qs
        (iss ++ map id newItems).
Proof.
  intros Hnd Hpend Hits Hloop.
  assert (Hnew : forall n, In n newItems -> ~ In (id n) iss).
  { intros n Hn Hin. apply (NoDup_app_disjoint _ _ (id n) Hnd Hin).
    now apply in_map. }
  assert (Hnd' : NoDup (map id newItems))
    by (apply NoDup_app_remove_l in Hnd; exact Hnd).
  destruct (loopFrom_start its newItems r c a1 a2 p cs Hits) as
    [new' [Hits2 [Hids Hnth]]]; try assumption.
  { intros i n Hi Hn E. apply (Hnew n Hn). rewrite <- E. now apply items_issued. }
  rewrite Hits2. clear Hloop Hits Hits2 a1 a2.
  assert (Hnew' : forall i', In i' new' -> ~ In (id i') iss).
  { intros i' Hi' Hin. apply In_nth_error in Hi'. destruct Hi' as [k Hk].
    destruct (Hnth k i' Hk) as [u [Hu [Hid _]]].
    apply (Hnew u); [eapply nth_error_In; eassumption | congruence]. }
  assert (Hrs : forall r0 R0' k u,
             nth_error (setNth r (withPc R newItems p) rs) r0 = Some R0' ->
             nth_error (itemsToProcess R0') k = Some u ->
             (r0 = r /\ nth_error newItems k = Some u /\ pc R0' = p) \/
             (r0 <> r /\ nth_error rs r0 = Some R0' /\ In (id u) iss)).
  { intros r0 R0' k u H0 Hu. apply nth_error_setNth_inv in H0.
    destruct H0 as [[-> [-> _]] | [Hne H0]]; [left; auto|].
    right. split; [assumption|]. split; [assumption|].
    apply (inv_issued I r0 R0' k u H0 Hu). }
  assert (Hold : forall i, In i its ->
             exists r0 R0 k u,
               nth_error (setNth r (withPc R newItems p) rs) r0 = Some R0 /\
               nth_error (itemsToProcess R0) k = Some u /\
               id u = id i /\ expectedAt (pc R0) k (status i)).
  { intros i Hi.
    destruct (inv_owner I i Hi) as [r0 [R0 [k [u [HR0 [Hu [Hid Hexp]]]]]]].
    assert (r0 <> r).
    { intros ->. assert (R0 = R) by congruence. subst R0.
      rewrite Hpc in Hexp. exact Hexp. }
    exists r0, R0, k, u. rewrite nth_error_setNth_ne by assumption. auto. }
  constructor.
  - intros i Hi. apply in_app_or in Hi. destruct Hi as [Hi | Hi].
    + apply (inv_units I i Hi).
    + apply In_nth_error in Hi. destruct Hi as [k Hk].
      now destruct (Hnth k i Hk) as [u [_ [_ [_ Hok]]]].
  - rewrite map_app, Hids. apply NoDup_app; [apply (inv_nodup I) | assumption|].
    intros x Hx Hx'. apply in_map_iff in Hx. destruct Hx as [i [<- Hi]].
    apply in_map_iff in Hx'. destruct Hx' as [n [E Hn]].
    apply (Hnew n Hn). rewrite E. now apply items_issued.
  - intros i Hi. apply in_app_or in Hi. destruct Hi as [Hi | Hi]; [auto|].
    apply In_nth_error in Hi. destruct Hi as [k Hk].
    destruct (Hnth k i Hk) as [u [Hu [Hid [Hexp _]]]].
    exists r, (withPc R newItems p), k, u.
    rewrite (nth_error_setNth_eq _ _ _ _ HR). auto.
  - intros r0 R0' k u H0 Hu. apply in_or_app.
    destruct (Hrs r0 R0' k u H0 Hu) as [[_ [Hn _]] | [_ [_ Hin]]].
    + right. apply in_map. eapply nth_error_In; eassumption.
    + now left.
  - intros r1 R1 k1 u1 r2 R2 k2 u2 H1 Hu1 H2 Hu2 E.
    destruct (Hrs r1 R1 k1 u1 H1 Hu1) as [[-> [Hn1 _]] | [Hne1 [HR1 Hin1]]];
      destruct (Hrs r2 R2 k2 u2 H2 Hu2) as [[-> [Hn2 _]] | [Hne2 [HR2 Hin2]]].
    + split; [reflexivity|]. eapply nth_error_id_inj; eassumption.
    + exfalso. apply (Hnew u1); [eapply nth_error_In; eassumption|].
      now rewrite E.
    + exfalso. apply (Hnew u2); [eapply nth_error_In; eassumption|].
      now rewrite <- E.
    + apply (inv_inj I r1 R1 k1 u1 r2 R2 k2 u2); assumption.
  - intros r0 R0' H0. rewrite map_app, Hids.
    apply nth_error_setNth_inv in H0.
    destruct H0 as [[-> [-> _]] | [Hne H0]].
    + left. simpl. intros k u Hu. apply in_or_app. right.
      apply in_map. eapply nth_error_In; eassumption.
    + destruct (inv_presence I r0 R0' H0) as [Hin | Hout].
      * left. intros k u Hu. apply in_or_app. left. eapply Hin; eassumption.
      * right. intros k u Hu Hx. apply in_app_or in Hx.
        destruct Hx as [Hx | Hx]; [eapply Hout; eassumption|].
        apply in_map_iff in Hx. destruct Hx as [n [E Hn]].
        apply (Hnew n Hn). rewrite E. apply (inv_issued I r0 R0' k u H0 Hu).
  - intros j q Hq. destruct (inv_refine I j q Hq) as [Hin Hc].
    split; [apply in_or_app; now left|].
    intros i Hi Hid. apply in_app_or in Hi. destruct Hi as [Hi | Hi]; [auto|].
    exfalso. apply (Hnew' i Hi). now rewrite Hid.
Qed.

End Prepared.

Lemma activeItem_In (st : AnalysisState) (item : BatchItem) :
  activeItem st = Some item -> In item (items st).
Proof.
  intros H. apply activeItem_findItem in H. now apply findItem_id in H.
Qed.

Lemma exec_issued (e : Event) (s s' : Sys) :
  exec e s = Some s' -> exists l, issued s' = issued s ++ l.
Proof.
  intros H.
  assert (Hsame : issued s' = issued s -> exists l, issued s' = issued s ++ l).
  { intros ->. exists []. now rewrite app_nil_r. }
  destruct e; exec_paths H; simpl; eauto.
  - apply Hsame. unfold startRefine.
    destruct (findItem _ _) as [it|]; [destruct (data it)|]; reflexivity.
  - apply Hsame. unfold finishRefine. now destruct outcome.
Qed.

Lemma exec_Inv (e : Event) (s s' : Sys) :
  exec e s = Some s' -> NoDup (issued s') -> Inv s -> Inv s'.
Proof.
  unfold Inv. intros H Hnd I.
  destruct e; exec_paths H; simpl in *; try exact I.
  - (* SelectFiles *)
    apply InvOn_new_runner. exact I.
  - (* FilesPrepared *)
    match goal with
    | Hr : nth_error (runners s) _ = Some _, Hp : pc _ = Preparing,
      Ha : appendItems _ _ = Some _, Hl : loopFrom _ _ _ _ _ = _ |- _ =>
        apply (InvOn_prepared _ _ _ _ I _ _ Hr Hp _ _ _ _ _ _ Hnd
                 (createItems_pending _ _ _) (items_appendItems _ _ _ Ha) Hl)
    end.
  - (* GenerationSettled *)
    match goal with
    | Hr : nth_error (runners s) _ = Some _, Hp : pc _ = Awaiting _,
      Hi : nth_error (itemsToProcess _) _ = Some _,
      Hl : loopFrom _ _ _ _ _ = _ |- _ =>
        apply (InvOn_settled _ _ _ _ I _ _ Hr _ _ _ _ _ _ _ _ Hp Hi eq_refl Hl)
    end.
  - (* UpdateItem *)
    match goal with
    | Hc : resultCard _ = Some _ |- _ =>
        destruct (resultCard_item _ _ _ Hc) as [Hact [Hst _]]
    end.
    apply InvOn_replaceData; [exact I|].
    intros i Hi Hid.
    assert (i = b).
    { apply (NoDup_id_eq (items (state (store s)))); auto.
      - apply (inv_nodup I).
      - now apply activeItem_In. }
    now subst.
  - (* RefineItem *)
    unfold startRefine.
    destruct (findItem _ _) as [it|] eqn:Ef; [|exact I].
    destruct (data it) eqn:Ed; [|exact I]. simpl.
    destruct (findItem_id _ _ _ Ef) as [Hid Hin].
    apply (InvOn_refinements _ _ _ _ I).
    intros j q' Hq'. apply nth_error_snoc in Hq'.
    destruct Hq' as [Hq' | [_ ->]]; [left; eauto|].
    right. exists it. simpl. split; [assumption|]. split; [assumption|].
    pose proof (unitOk_cases _ (inv_units I it Hin)) as Hok.
    destruct (status it); try reflexivity; destruct Hok; congruence.
  - (* RefineSettled *)
    unfold finishRefine.
    match goal with
    | Hq : nth_error (refinements s) _ = Some ?q |- _ =>
        assert (Hqs : forall j q',
                   nth_error (setNth k {| refineId := refineId q;
                                          refineConfig := refineConfig q;
                                          newAspectRatio := newAspectRatio q;
                                          settled := Some Fulfilled |}
                                     (refinements s)) j = Some q' ->
                   exists j0 q0, nth_error (refinements s) j0 = Some q0 /\
                                 refineId q0 = refineId q');
        [ intros j q' Hq'; apply nth_error_setNth_inv in Hq';
          destruct Hq' as [[-> [-> _]] | [_ Hq']]; eauto |];
        pose proof (inv_refine I _ _ Hq) as [_ Hcompleted]
    end.
    destruct outcome; simpl.
    + apply InvOn_refinements with (qs := refinements s).
      * apply InvOn_replaceData; assumption.
      * intros j1 q1 Hq1. left. exact (Hqs j1 q1 Hq1).
    + apply (InvOn_refinements _ _ _ _ I).
      intros j1 q1 Hq1. left. exact (Hqs j1 q1 Hq1).
  - (* Clear *)
    apply (InvOn_clear _ _ _ _ I).
Qed.

Lemma Inv_init : Inv init.
Proof.
  constructor; simpl.
  - intros i [].
  - constructor.
  - intros i [].
  - intros [|r] R k u H; discriminate H.
  - intros [|r] R k u r' R' k' u' H; discriminate H.
  - intros [|r] R H; discriminate H.
  - intros [|j] q H; discriminate H.
Qed.

Lemma run_Inv (es : list Event) (s s' : Sys) :
  run es s = Some s' -> NoDup (issued s') -> Inv s -> Inv s'.
Proof.
  revert s. induction es as [|e es IH]; intros s H Hnd I; simpl in H.
  - now injection H as <-.
  - destruct (exec e s) as [s1|] eqn:E; [|discriminate].
    apply (IH s1 H Hnd). apply (exec_Inv e s s1 E); [|exact I].
    assert (Hgrow : exists l, issued s' = issued s1 ++ l).
    { clear - H. revert s1 H. induction es as [|e' es IH']; intros s1 H; simpl in H.
      - injection H as <-. exists []. now rewrite app_nil_r.
      - destruct (exec e' s1) as [s2|] eqn:E'; [|discriminate].
        destruct (IH' s2 H) as [l Hl]. destruct (exec_issued _ _ _ E') as [l' Hl'].
        exists (l' ++ l). now rewrite Hl, Hl', app_assoc. }
    destruct Hgrow as [l Hl]. rewrite Hl in Hnd.
    now apply NoDup_app_remove_r in Hnd.
Qed.

(** Every state reached with pairwise distinct ids satisfies the
    invariant. *)
Lemma reachable_Inv (s : Sys) : reachable s -> NoDup (issued s) -> Inv s.
Proof.
  intros [es H] Hnd. exact (run_Inv es init s H Hnd Inv_init).
Qed.

(** ** The unit invariant *)

Ltac distinct_strings :=
  vm_compute; repeat (constructor; [simpl; intuition discriminate|]); constructor.

(** C4, as the specification states it, for every reachable state: a
    unit has an error message exactly when it is in error.  With two
    units of a batch sharing an id, the failure of the first call and
    the success of the second are both written on each of them: the
    units end completed, with a result and with the error message. *)
Lemma colliding_unit_completed_with_error :
  let s := stateAfter collidingBatchSettled in
  reachable s /\
  exists i,
    In i (items (state (store s))) /\
    status i = Completed /\
    data i = Some (sampleMetadata "B" ["dog"]) /\
    error i = Some "quota".
Proof.
  intros s. split; [exists collidingBatchSettled; vm_compute; reflexivity|].
  eexists. split; [vm_compute; left; reflexivity|].
  repeat split; reflexivity.
Qed.

(** C4, amended: in every state the application reaches (by file selections,
    queue-runner transitions, edits of a unit, refinements, resets,
    selections and configuration changes) with pairwise distinct ids,
    every unit of the queue has a result exactly when it is completed
    and an error message exactly when it is in error; a pending or
    processing unit has neither. *)
Theorem reachable_unit_invariant (s : Sys) (i : BatchItem) :
  reachable s ->
  NoDup (issued s) ->
  In i (items (state (store s))) ->
  (data i <> None <-> status i = Completed) /\
  (error i <> None <-> status i = Error) /\
  (status i = Pending \/ status i = Processing ->
   data i = None /\ error i = None).
Proof.
  intros Hr Hnd Hi.
  pose proof (inv_units (reachable_Inv s Hr Hnd) i Hi) as Hok.
  apply unitOk_cases in Hok.
  destruct (status i); destruct Hok as [Hd He];
    repeat split; intros; try congruence;
    try match goal with H : _ \/ _ |- _ => destruct H; discriminate end.
Qed.

Lemma reachable_unit_invariant_witness :
  let i := {| id := "c3d4"; file := jpeg "b.jpg"; status := Processing;
              data := None; error := None |} in
  In i (items (state (store (stateAfter refineDuringBatch)))) /\
  (data i <> None <-> status i = Completed).
Proof.
  assert (Hin : In {| id := "c3d4"; file := jpeg "b.jpg"; status := Processing;
                      data := None; error := None |}
                   (items (state (store (stateAfter refineDuringBatch))))).
  { vm_compute. right. left. reflexivity. }
  split; [exact Hin|].
  refine (proj1 (reachable_unit_invariant (stateAfter refineDuringBatch) _ _ _ Hin)).
  - exists refineDuringBatch. vm_compute. reflexivity.
  - distinct_strings.
Defined.

Lemma terminal_cases (st : Status) :
  terminal st = true -> st = Completed \/ st = Error.
Proof. destruct st; simpl; intros H; try discriminate H; auto. Qed.

(** ** The order of the generation calls *)

Lemma callsOf_app (r : nat) (cs1 cs2 : list Call) :
  callsOf r (cs1 ++ cs2) = callsOf r cs1 ++ callsOf r cs2.
Proof. apply filter_app. Qed.

Lemma callsOf_other (r r0 : nat) (cs : list Call) :
  (forall c, In c cs -> caller c = r0) -> r <> r0 -> callsOf r cs = [].
Proof.
  intros H Hne. induction cs as [|c cs IH]; simpl; [reflexivity|].
  rewrite (H c) by now left.
  destruct (Nat.eqb_spec r0 r) as [E | _]; [congruence|].
  apply IH. intros c' Hc'. apply H. now right.
Qed.

Lemma callsOf_none (r : nat) (cs : list Call) :
  (forall c, In c cs -> caller c < r) -> callsOf r cs = [].
Proof.
  intros H. induction cs as [|c cs IH]; simpl; [reflexivity|].
  specialize (H c (or_introl eq_refl)) as Hc.
  destruct (Nat.eqb_spec (caller c) r); [lia|].
  apply IH. intros c' Hc'. apply H. now right.
Qed.

Lemma firstn_S_nth_error {A : Type} (l : list A) (n : nat) (x : A) :
  nth_error l n = Some x -> firstn (S n) l = firstn n l ++ [x].
Proof.
  revert n. induction l as [|a l IH]; intros [|n] H; simpl in *;
    try discriminate.
  - now injection H as ->.
  - f_equal. now apply IH.
Qed.

Lemma loopFrom_callFor (r : nat) (R : Runner) (l : list BatchItem) (i : nat)
      (a a' : AnalysisState) (p : RunnerPc) (cs : list Call) :
  loopFrom r (captured R) l i a = (a', p, cs) ->
  match nth_error l i with
  | Some item => p = Awaiting i /\ cs = [callFor r R item]
  | None => p = Finished /\ cs = []
  end.
Proof.
  unfold loopFrom. destruct (nth_error l i); intros H;
    injection H as _ <- <-; split; reflexivity.
Qed.

Lemma exec_callsInOrder (e : Event) (s s' : Sys) :
  exec e s = Some s' ->
  callsFromClosures s -> callsInOrder s -> callsInOrder s'.
Proof.
  intros H J O r R' HR'.
  (* a runner that moves: [r0] goes from [R0] to [withPc R0 l p] and
     makes the calls [cs] *)
  assert (Hmove : forall r0 R0 l p cs,
             nth_error (runners s) r0 = Some R0 ->
             nth_error (setNth r0 (withPc R0 l p) (runners s)) r = Some R' ->
             (forall c, In c cs -> caller c = r0) ->
             callsOf r0 (calls s) ++ cs
             = map (callFor r0 (withPc R0 l p))
                   (firstn (dispatched (withPc R0 l p)) l) ->
             callsOf r (calls s ++ cs)
             = map (callFor r R') (firstn (dispatched R') (itemsToProcess R'))).
  { intros r0 R0 l p cs H0 Hr Hcs Heq. rewrite callsOf_app.
    apply nth_error_setNth_inv in Hr.
    destruct Hr as [[-> [-> _]] | [Hne Hr]].
    - change (itemsToProcess (withPc R0 l p)) with l.
      rewrite <- Heq. f_equal.
      clear - Hcs. induction cs as [|c cs IH]; simpl; [reflexivity|].
      rewrite (Hcs c) by now left. rewrite Nat.eqb_refl. f_equal.
      apply IH. intros c' Hc'. apply Hcs. now right.
    - rewrite (callsOf_other r r0 cs Hcs Hne), app_nil_r. now apply O. }
  destruct e; exec_paths H; simpl in *; auto.
  - (* SelectFiles *)
    apply nth_error_snoc in HR'. destruct HR' as [HR' | [-> ->]]; [now apply O|].
    simpl. apply callsOf_none. intros c Hc.
    destruct (J c Hc) as [Rc [HRc _]]. apply nth_error_Some. congruence.
  - (* FilesPrepared *)
    match goal with
    | Hr : nth_error (runners s) _ = Some ?R0, Hp : pc ?R0 = Preparing,
      Hl : loopFrom _ _ _ _ _ = _ |- _ =>
        pose proof (loopFrom_callFor _ _ _ _ _ _ _ _ Hl) as Hcall;
        pose proof (O _ _ Hr) as Hbefore;
        unfold dispatched in Hbefore; rewrite Hp in Hbefore;
        simpl in Hbefore;
        eapply Hmove; [exact Hr | exact HR' | apply (loopFrom_calls _ _ _ _ _ _ _ _ Hl) |]
    end.
    rewrite Hbefore. unfold dispatched. simpl.
    destruct (createItems random 0 _) as [|first rest]; simpl in Hcall;
      destruct Hcall as [-> ->]; reflexivity.
  - (* GenerationSettled *)
    match goal with
    | Hr : nth_error (runners s) _ = Some ?R0, Hp : pc ?R0 = Awaiting ?j,
      Hi : nth_error (itemsToProcess ?R0) ?j = Some _,
      Hl : loopFrom _ _ _ _ _ = _ |- _ =>
        pose proof (loopFrom_callFor _ _ _ _ _ _ _ _ Hl) as Hcall;
        pose proof (O _ _ Hr) as Hbefore;
        unfold dispatched in Hbefore; rewrite Hp in Hbefore;
        assert (Hlt : j < List.length (itemsToProcess R0))
          by (apply nth_error_Some; congruence);
        eapply Hmove;
        [exact Hr | exact HR' | apply (loopFrom_calls _ _ _ _ _ _ _ _ Hl) |];
        rewrite Hbefore; unfold dispatched; cbn [pc withPc itemsToProcess];
        destruct (nth_error (itemsToProcess R0) (S j)) as [next|] eqn:En;
        destruct Hcall as [-> ->];
        [ rewrite (firstn_S_nth_error _ _ _ En), map_app; reflexivity
        | rewrite app_nil_r; apply nth_error_None in En;
          rewrite firstn_all; rewrite firstn_all2 by lia; reflexivity ]
    end.
  - (* RefineItem *)
    revert HR'. unfold startRefine.
    destruct (findItem _ _) as [it|]; [destruct (data it)|]; simpl; auto.
  - (* RefineSettled *)
    revert HR'. unfold finishRefine. destruct outcome; simpl; auto.
Qed.

Lemma reachable_callsInOrder (s : Sys) : reachable s -> callsInOrder s.
Proof.
  intros [es H].
  apply (run_invariant (fun s => callsFromClosures s /\ callsInOrder s))
    with (es := es) (s := init); [|exact H|].
  - intros e s0 s1 E [J O]. split.
    + apply (exec_callsFromClosures e s0 s1 E J).
    + apply (exec_callsInOrder e s0 s1 E J O).
  - split; [intros c []|]. intros [|r] R HR; discriminate HR.
Qed.

(** C1, as the specification states it, without a word on ids: unit
    K+1 never leaves [pending] before unit K is completed or in error.
    [processBatchQueue] marks as processing every unit that has the id
    of the item it visits, and [generateId] checks nothing: when the
    draws of two units of a batch coincide, both are processing after
    the single call for the first, and no unit is completed or in
    error. *)
Lemma colliding_units_start_together :
  let s := stateAfter collidingBatch in
  reachable s /\
  exists R u v iv,
    nth_error (runners s) 0 = Some R /\
    nth_error (itemsToProcess R) 0 = Some u /\
    nth_error (itemsToProcess R) 1 = Some v /\
    nth_error (items (state (store s))) 1 = Some iv /\
    id iv = id v /\ file iv = file v /\
    status iv = Processing /\
    Forall (fun i => status i = Processing) (items (state (store s))) /\
    List.length (calls s) = 1.
Proof.
  intros s. split; [exists collidingBatch; vm_compute; reflexivity|].
  eexists. eexists. eexists. eexists.
  split; [vm_compute; reflexivity|].
  split; [reflexivity|]. split; [reflexivity|]. split; [reflexivity|].
  split; [reflexivity|]. split; [reflexivity|]. split; [reflexivity|].
  split; [|reflexivity].
  vm_compute. repeat constructor.
Qed.

(** C1, amended: in every state reached with pairwise distinct ids, the
    generation calls a runner has made are those for an initial segment
    of its batch (the argument of [processBatchQueue]), in admission
    order; and for two consecutive units K and K+1 of the batch, if unit
    K+1 is in the queue and has left [pending], then unit K is in the
    queue and has reached [completed] or [error].  So a unit is started
    only after its predecessor's call has settled, and terminal states
    are reached in admission order. *)
Theorem queue_runs_in_admission_order (s : Sys) (r : nat) (R : Runner) :
  reachable s ->
  NoDup (issued s) ->
  nth_error (runners s) r = Some R ->
  callsOf r (calls s)
  = map (callFor r R) (firstn (dispatched R) (itemsToProcess R)) /\
  forall (K : nat) (u v iv : BatchItem),
    nth_error (itemsToProcess R) K = Some u ->
    nth_error (itemsToProcess R) (S K) = Some v ->
    In iv (items (state (store s))) ->
    id iv = id v ->
    status iv <> Pending ->
    exists iu,
      In iu (items (state (store s))) /\ id iu = id u /\
      (status iu = Completed \/ status iu = Error).
Proof.
  intros Hr Hnd HR.
  split; [exact (reachable_callsInOrder s Hr r R HR)|].
  intros K u v iv Hu Hv Hiv Hidv Hst.
  pose proof (reachable_Inv s Hr Hnd) as I. unfold Inv in I.
  (* where the runner is, seen from unit K+1 *)
  destruct (inv_owner I iv Hiv) as [r0 [R0 [k0 [u0 [HR0 [Hu0 [Hid0 Hexp]]]]]]].
  destruct (inv_inj I r0 R0 k0 u0 r R (S K) v HR0 Hu0 HR Hv) as [-> ->];
    [congruence|].
  assert (R0 = R) by congruence. subst R0.
  (* unit K is in the queue *)
  assert (Hiu : exists iu, In iu (items (state (store s))) /\ id iu = id u).
  { destruct (inv_presence I r R HR) as [Hin | Hout].
    - specialize (Hin K u Hu). apply in_map_iff in Hin.
      destruct Hin as [iu [E Hin]]. eauto.
    - exfalso. apply (Hout (S K) v Hv). rewrite <- Hidv. now apply in_map. }
  destruct Hiu as [iu [Hiu Hidu]].
  exists iu. split; [assumption|]. split; [assumption|].
  destruct (inv_owner I iu Hiu) as [r1 [R1 [k1 [u1 [HR1 [Hu1 [Hid1 Hexp1]]]]]]].
  destruct (inv_inj I r1 R1 k1 u1 r R K u HR1 Hu1 HR Hu) as [-> ->];
    [congruence|].
  assert (R1 = R) by congruence. subst R1.
  apply terminal_cases.
  destruct (pc R) as [|j|]; simpl in *.
  - contradiction.
  - destruct Hexp as [_ [_ Hgt]]. destruct Hexp1 as [Hlt _].
    apply Hlt. destruct (Nat.lt_ge_cases j (S K)) as [Hj | Hj]; [|lia].
    exfalso. apply Hst. now apply Hgt.
  - assumption.
Qed.

Lemma queue_runs_in_admission_order_witness :
  map callItem (callsOf 0 (calls (stateAfter refineDuringBatch)))
  = ["a1b2"; "c3d4"] /\
  exists iu,
    In iu (items (state (store (stateAfter refineDuringBatch)))) /\
    id iu = "a1b2" /\
    (status iu = Completed \/ status iu = Error).
Proof.
  destruct (queue_runs_in_admission_order
              (stateAfter refineDuringBatch) 0
              {| captured := initialConfig;
                 selected := [jpeg "a.jpg"; jpeg "b.jpg"; jpeg "c.jpg"];
                 itemsToProcess := createItems draws 0
                                     [jpeg "a.jpg"; jpeg "b.jpg"; jpeg "c.jpg"];
                 pc := Awaiting 1 |})
    as [Hcalls Horder].
  - exists refineDuringBatch. vm_compute. reflexivity.
  - distinct_strings.
  - reflexivity.
  - split; [rewrite Hcalls; reflexivity|].
    refine (Horder 0
              {| id := "a1b2"; file := jpeg "a.jpg"; status := Pending;
                 data := None; error := None |}
              {| id := "c3d4"; file := jpeg "b.jpg"; status := Pending;
                 data := None; error := None |}
              {| id := "c3d4"; file := jpeg "b.jpg"; status := Processing;
                 data := None; error := None |}
              eq_refl eq_refl _ eq_refl _).
    + vm_compute. right. left. reflexivity.
    + discriminate.
Defined.

(** ** Failure isolation *)

Lemma sameBut_refl (x : string) (a : BatchItem) : sameBut x a a.
Proof. split; auto. Qed.

Lemma Forall2_sameBut_refl (x : string) (l : list BatchItem) :
  Forall2 (sameBut x) l l.
Proof. induction l; constructor; auto using sameBut_refl. Qed.

Lemma Forall2_sameBut_map (x : string) (f : BatchItem -> BatchItem)
      (l1 l2 : list BatchItem) :
  (forall a, id (f a) = id a) ->
  Forall2 (sameBut x) l1 l2 ->
  Forall2 (sameBut x) (map f l1) (map f l2).
Proof.
  intros Hid H. induction H as [|a b l1 l2 [Hab Heq] _ IH]; simpl; constructor;
    [|assumption].
  split; [now rewrite !Hid|].
  rewrite Hid. intros Hne. now rewrite (Heq Hne).
Qed.

Lemma Forall2_sameBut_find (x a : string) (l1 l2 : list BatchItem) :
  Forall2 (sameBut x) l1 l2 ->
  match findItem a l1, findItem a l2 with
  | Some i1, Some i2 => sameBut x i1 i2
  | None, None => True
  | _, _ => False
  end.
Proof.
  unfold findItem. intros H.
  induction H as [|i1 i2 l1 l2 [Hid Heq] _ IH]; simpl; [exact I|].
  rewrite <- Hid. destruct (String.eqb (id i1) a); [|exact IH].
  split; assumption.
Qed.

Lemma agreeState_activeItem (x : string) (a1 a2 : AnalysisState) :
  agreeState x a1 a2 ->
  match activeItem a1, activeItem a2 with
  | Some i1, Some i2 => sameBut x i1 i2
  | None, None => True
  | _, _ => False
  end.
Proof.
  intros [Hits [_ Hact]]. unfold activeItem. rewrite <- Hact.
  assert (Hhd : match hd_error (items a1), hd_error (items a2) with
                | Some i1, Some i2 => sameBut x i1 i2
                | None, None => True
                | _, _ => False
                end).
  { destruct Hits; simpl; auto. }
  destruct (activeItemId a1) as [a|]; [|exact Hhd].
  pose proof (Forall2_sameBut_find x a _ _ Hits) as Hf.
  destruct (findItem a (items a1)), (findItem a (items a2));
    try contradiction; auto.
Qed.

Lemma agreeState_resultCard (x : string) (a1 a2 : AnalysisState)
      (i1 i2 : BatchItem) (d1 d2 : StockMetadata) :
  agreeState x a1 a2 ->
  resultCard a1 = Some (i1, d1) -> resultCard a2 = Some (i2, d2) ->
  id i1 = id i2.
Proof.
  intros H H1 H2.
  apply resultCard_item in H1. apply resultCard_item in H2.
  destruct H1 as [H1 _], H2 as [H2 _].
  pose proof (agreeState_activeItem x a1 a2 H) as Ha.
  rewrite H1, H2 in Ha. apply Ha.
Qed.

Lemma agreeState_mapItems (x : string) (f : BatchItem -> BatchItem)
      (a1 a2 : AnalysisState) :
  (forall a, id (f a) = id a) ->
  agreeState x a1 a2 -> agreeState x (mapItems f a1) (mapItems f a2).
Proof.
  intros Hid [Hits [Hp Ha]]. repeat split; simpl; auto.
  now apply Forall2_sameBut_map.
Qed.

Lemma agreeState_loopFrom (x : string) (r : nat) (c : PromptConfig)
      (l : list BatchItem) (i : nat) (a1 a2 b1 b2 : AnalysisState)
      (p1 p2 : RunnerPc) (cs1 cs2 : list Call) :
  agreeState x a1 a2 ->
  loopFrom r c l i a1 = (b1, p1, cs1) ->
  loopFrom r c l i a2 = (b2, p2, cs2) ->
  agreeState x b1 b2 /\ p1 = p2 /\ cs1 = cs2.
Proof.
  unfold loopFrom. intros H H1 H2.
  destruct (nth_error l i) as [item|];
    injection H1 as <- <- <-; injection H2 as <- <- <-.
  - split; [|auto]. apply agreeState_mapItems; [|assumption].
    intros a. apply id_markProcessing.
  - split; [|auto]. destruct H as [Hits [_ Ha]]. repeat split; assumption.
Qed.

Lemma agreeState_settleItem (x : string) (item : BatchItem)
      (o : Result StockMetadata) (a1 a2 : AnalysisState) :
  agreeState x a1 a2 ->
  agreeState x (settleItem item o a1) (settleItem item o a2).
Proof.
  intros H. rewrite !settleItem_mapItems.
  apply agreeState_mapItems; [|assumption]. intros a. apply id_settleMark.
Qed.

Lemma agreeState_appendItems (x : string) (newItems : list BatchItem)
      (a1 a2 b1 b2 : AnalysisState) :
  agreeState x a1 a2 ->
  appendItems newItems a1 = Some b1 ->
  appendItems newItems a2 = Some b2 ->
  agreeState x b1 b2.
Proof.
  intros [Hits [Hp Ha]] H1 H2. unfold appendItems in *. rewrite <- Ha in H2.
  assert (Happ : Forall2 (sameBut x) (items a1 ++ newItems) (items a2 ++ newItems)).
  { apply Forall2_app; [assumption | apply Forall2_sameBut_refl]. }
  destruct (activeItemId a1) as [a|]; [destruct (truthy a)|];
    try destruct newItems; try discriminate;
    injection H1 as <-; injection H2 as <-; repeat split; simpl; auto.
Qed.

Lemma agreeBut_intro (x : string) (s1 : Sys) (a2 : AnalysisState) :
  agreeState x (state (store s1)) a2 -> agreeBut x s1 (setState s1 a2).
Proof. intros H. split; [exact H | reflexivity]. Qed.

(** One step keeps two states in agreement: what a step does to a unit
    depends on that unit and on what the two states share. *)
Lemma exec_agreeBut (x : string) (e : Event) (s1 s2 s1' s2' : Sys) :
  agreeBut x s1 s2 ->
  exec e s1 = Some s1' -> exec e s2 = Some s2' ->
  agreeBut x s1' s2'.
Proof.
  intros [A E] H1 H2.
  assert (Hex : exists a2, s2 = setState s1 a2 /\
                           agreeState x (state (store s1)) a2) by eauto.
  clear A E. destruct Hex as [a2 [-> A]].
  destruct e; simpl in H1, H2.
  - (* SelectFiles *)
    destruct (validFiles fileList); injection H1 as <-; injection H2 as <-;
      split; simpl; auto.
  - (* FilesPrepared *)
    destruct (nth_error (runners s1) r) as [R|]; [|discriminate].
    destruct (pc R); try discriminate.
    destruct (appendItems _ (state (store s1))) as [b1|] eqn:E1; [|discriminate].
    destruct (appendItems _ a2) as [b2|] eqn:E2; [|discriminate].
    pose proof (agreeState_appendItems x _ _ _ _ _ A E1 E2) as B.
    assert (B' : agreeState x (setIsProcessing true b1) (setIsProcessing true b2)).
    { destruct B as [? [? ?]]. repeat split; assumption. }
    destruct (loopFrom _ _ _ _ (setIsProcessing true b1)) as [[c1 p1] cs1] eqn:L1.
    destruct (loopFrom _ _ _ _ (setIsProcessing true b2)) as [[c2 p2] cs2] eqn:L2.
    destruct (agreeState_loopFrom x _ _ _ _ _ _ _ _ _ _ _ _ B' L1 L2)
      as [C [<- <-]].
    injection H1 as <-; injection H2 as <-. split; simpl; auto.
  - (* GenerationSettled *)
    destruct (nth_error (runners s1) r) as [R|]; [|discriminate].
    destruct (pc R) as [|j|]; try discriminate.
    destruct (nth_error (itemsToProcess R) j) as [item|]; [|discriminate].
    pose proof (agreeState_settleItem x item outcome _ _ A) as B.
    destruct (loopFrom _ _ _ _ (settleItem item outcome (state (store s1))))
      as [[c1 p1] cs1] eqn:L1.
    destruct (loopFrom _ _ _ _ (settleItem item outcome a2))
      as [[c2 p2] cs2] eqn:L2.
    destruct (agreeState_loopFrom x _ _ _ _ _ _ _ _ _ _ _ _ B L1 L2)
      as [C [<- <-]].
    injection H1 as <-; injection H2 as <-. split; simpl; auto.
  - (* UpdateItem *)
    destruct (resultCard (state (store s1))) as [[i1 d1]|] eqn:E1; [|discriminate].
    destruct (resultCard a2) as [[i2 d2]|] eqn:E2; [|discriminate].
    rewrite <- (agreeState_resultCard x _ _ _ _ _ _ A E1 E2) in H2.
    injection H1 as <-; injection H2 as <-. split; simpl; auto.
    apply agreeState_mapItems; [|assumption]. intros a. apply id_replaceData.
  - (* RefineItem *)
    destruct (resultCard (state (store s1))) as [[i1 d1]|] eqn:E1; [|discriminate].
    destruct (resultCard a2) as [[i2 d2]|] eqn:E2; [|discriminate].
    rewrite <- (agreeState_resultCard x _ _ _ _ _ _ A E1 E2) in H2.
    destruct (truthy (trim instruction));
      injection H1 as <-; injection H2 as <-; [|split; simpl; auto].
    destruct (resultCard_item _ _ _ E1) as [F1 [_ D1]].
    destruct (resultCard_item _ _ _ E2) as [F2 [_ D2]].
    apply activeItem_findItem in F1. apply activeItem_findItem in F2.
    rewrite <- (agreeState_resultCard x _ _ _ _ _ _ A E1 E2) in F2.
    unfold startRefine. simpl. rewrite F1, F2, D1, D2. split; simpl; auto.
  - (* RefineSettled *)
    destruct (nth_error (refinements s1) k) as [q|]; [|discriminate].
    destruct (settled q); [discriminate|].
    injection H1 as <-; injection H2 as <-.
    unfold finishRefine. destruct outcome; split; simpl; auto.
    apply agreeState_mapItems; [|assumption]. intros a. apply id_replaceData.
  - (* Clear *)
    destruct A as [Hits [Hp Ha]].
    destruct Hits as [|i1 i2 l1 l2 _ _]; [discriminate|].
    rewrite <- Hp in H2.
    destruct (isProcessing (state (store s1)) || isPreparingFiles (store s1));
      [discriminate|].
    injection H1 as <-; injection H2 as <-.
    split; simpl; auto. repeat split; constructor.
  - (* SelectItem *)
    destruct (nth_error (items (state (store s1))) index) as [i1|] eqn:E1;
      [|discriminate].
    destruct (nth_error (items a2) index) as [i2|] eqn:E2; [|discriminate].
    assert (Hid : id i1 = id i2).
    { destruct A as [Hits _]. revert index E1 E2.
      induction Hits as [|a b l1 l2 [Hab _] _ IH]; intros [|n] E1 E2;
        simpl in *; try discriminate.
      - congruence.
      - eapply IH; eassumption. }
    rewrite <- Hid in H2. injection H1 as <-; injection H2 as <-.
    destruct A as [Hits [Hp Ha]]. split; simpl; auto.
    repeat split; simpl; auto.
  - (* ConfigChange *)
    destruct A as [Hits [Hp Ha]]. rewrite <- Hp in H2.
    destruct (isProcessing (state (store s1)) || isRefining (store s1)
              || isPreparingFiles (store s1)); [discriminate|].
    injection H1 as <-; injection H2 as <-. split; simpl; auto.
    repeat split; assumption.
Qed.

Lemma run_agreeBut (x : string) (es : list Event) (s1 s2 s1' s2' : Sys) :
  agreeBut x s1 s2 ->
  run es s1 = Some s1' -> run es s2 = Some s2' ->
  agreeBut x s1' s2'.
Proof.
  revert s1 s2. induction es as [|e es IH]; intros s1 s2 A H1 H2; simpl in H1, H2.
  - injection H1 as <-; injection H2 as <-. exact A.
  - destruct (exec e s1) as [t1|] eqn:E1; [|discriminate].
    destruct (exec e s2) as [t2|] eqn:E2; [|discriminate].
    apply (IH t1 t2); auto. apply (exec_agreeBut x e s1 s2); assumption.
Qed.

Lemma settleMark_sameBut (item : BatchItem) (o1 o2 : Result StockMetadata)
      (l : list BatchItem) :
  Forall2 (sameBut (id item)) (map (settleMark item o1) l)
          (map (settleMark item o2) l).
Proof.
  induction l as [|i l IH]; simpl; constructor; [|assumption].
  split; [now rewrite !id_settleMark|].
  rewrite id_settleMark. intros Hne. now rewrite !settleMark_other.
Qed.

Lemma exec_GenerationSettled (s : Sys) (r : nat) (R : Runner) (j : nat)
      (item : BatchItem) (o : Result StockMetadata) (a2 : AnalysisState)
      (p : RunnerPc) (cs : list Call) :
  nth_error (runners s) r = Some R ->
  pc R = Awaiting j ->
  nth_error (itemsToProcess R) j = Some item ->
  loopFrom r (captured R) (itemsToProcess R) (S j)
           (settleItem item o (state (store s))) = (a2, p, cs) ->
  exec (GenerationSettled r o) s
  = Some {| store := withState (store s) a2;
            runners := setNth r (withPc R (itemsToProcess R) p) (runners s);
            refinements := refinements s;
            calls := calls s ++ cs;
            issued := issued s;
            console := console s |}.
Proof.
  intros HR Hpc Hitem L. unfold exec. cbv beta iota zeta.
  rewrite HR. cbv beta iota. rewrite Hpc. cbv beta iota.
  rewrite Hitem. cbv beta iota. rewrite L. reflexivity.
Qed.

(** Whatever the outcomes, a runner at the await of one of its items
    ends its loop once as many calls have settled as items remain. *)
Lemma run_drains (os : list (Result StockMetadata)) (s : Sys) (r : nat)
      (R : Runner) (j : nat) (item : BatchItem) :
  nth_error (runners s) r = Some R ->
  pc R = Awaiting j ->
  nth_error (itemsToProcess R) j = Some item ->
  List.length os = List.length (itemsToProcess R) - j ->
  exists s' R',
    run (map (GenerationSettled r) os) s = Some s' /\
    nth_error (runners s') r = Some R' /\
    pc R' = Finished /\
    itemsToProcess R' = itemsToProcess R /\
    captured R' = captured R.
Proof.
  revert s R j item.
  induction os as [|o os IH]; intros s R j item HR Hpc Hitem Hlen.
  - assert (j < List.length (itemsToProcess R))
      by (apply nth_error_Some; congruence).
    simpl in Hlen. lia.
  - destruct (loopFrom r (captured R) (itemsToProcess R) (S j)
                (settleItem item o (state (store s)))) as [[a p] cs] eqn:L.
    pose proof (exec_GenerationSettled s r R j item o a p cs HR Hpc Hitem L) as E.
    pose proof (loopFrom_callFor _ _ _ _ _ _ _ _ L) as Hp.
    change (run (map (GenerationSettled r) (o :: os)) s)
      with (match exec (GenerationSettled r o) s with
            | Some s1 => run (map (GenerationSettled r) os) s1
            | None => None
            end).
    rewrite E.
    set (s1 := {| store := withState (store s) a;
                  runners := setNth r (withPc R (itemsToProcess R) p) (runners s);
                  refinements := refinements s;
                  calls := calls s ++ cs;
                  issued := issued s;
                  console := console s |}).
    assert (HR1 : nth_error (runners s1) r = Some (withPc R (itemsToProcess R) p))
      by (apply (nth_error_setNth_eq _ _ _ _ HR)).
    destruct (nth_error (itemsToProcess R) (S j)) as [next|] eqn:En;
      destruct Hp as [-> _].
    + destruct (IH s1 (withPc R (itemsToProcess R) (Awaiting (S j))) (S j) next
                  HR1 eq_refl En) as [s' [R' [Hrun [HR' [Hfin [Hb Hc]]]]]].
      { simpl in *. lia. }
      exists s', R'. auto.
    + apply nth_error_None in En.
      assert (j < List.length (itemsToProcess R))
        by (apply nth_error_Some; congruence).
      destruct os as [|o' os']; [|simpl in Hlen; lia].
      exists s1, (withPc R (itemsToProcess R) Finished). auto.
Qed.

(** C2, as the specification states it, without a word on ids: the
    failure of unit K leaves every other unit as it would be had K not
    failed.  The updaters address units by id, so when the draws of two
    units of a batch coincide the failure of the first is written on
    the second too. *)
Lemma colliding_failure_not_isolated :
  let s := stateAfter collidingBatch in
  reachable s /\
  exists sOk sErr iOk iErr,
    exec (GenerationSettled 0 (inl (sampleMetadata "A" ["cat"]))) s = Some sOk /\
    exec (GenerationSettled 0 (inr (newError "quota"))) s = Some sErr /\
    nth_error (items (state (store sOk))) 1 = Some iOk /\
    nth_error (items (state (store sErr))) 1 = Some iErr /\
    file iOk = jpeg "b.jpg" /\ file iErr = jpeg "b.jpg" /\
    data iOk = Some (sampleMetadata "A" ["cat"]) /\ error iOk = None /\
    data iErr = None /\ error iErr = Some "quota".
Proof.
  intros s. split; [exists collidingBatch; vm_compute; reflexivity|].
  eexists. eexists. eexists. eexists.
  split; [vm_compute; reflexivity|].
  split; [vm_compute; reflexivity|].
  split; [reflexivity|]. split; [reflexivity|].
  repeat split; reflexivity.
Qed.

(** C2, amended: in every state reached with pairwise distinct ids,
    when the generation call a runner awaits for unit K fails, unit K
    becomes [error] and keeps no result; its error message is the
    failure's message when that is a non-empty string, and the generic
    [Failed to process] when the failure carries no message or an empty
    one; the loop goes on with unit K+1, whose call is made in the
    same step, and once the calls of the later units have settled,
    whatever their outcomes, every unit of the batch has been attempted;
    and however the application runs on, its state is the one the same
    run reaches had the call succeeded, but for unit K: the other units,
    the runners, the calls made and the shared configuration are the
    same. *)
Theorem generation_failure_is_isolated (s : Sys) (r : nat) (R : Runner) (K : nat)
        (unitK : BatchItem) (result : StockMetadata) (e : JsError) :
  reachable s ->
  NoDup (issued s) ->
  nth_error (runners s) r = Some R ->
  pc R = Awaiting K ->
  nth_error (itemsToProcess R) K = Some unitK ->
  exists sOk sErr,
    exec (GenerationSettled r (inl result)) s = Some sOk /\
    exec (GenerationSettled r (inr e)) s = Some sErr /\
    (forall i, In i (items (state (store sErr))) -> id i = id unitK ->
               status i = Error /\
               data i = None /\
               (forall msg, message e = Some msg -> msg <> "" ->
                            error i = Some msg) /\
               (message e = None \/ message e = Some "" ->
                error i = Some "Failed to process")) /\
    (forall next, nth_error (itemsToProcess R) (S K) = Some next ->
                  calls sErr
                  = calls s ++ [{| caller := r; callItem := id next;
                                   callFile := file next;
                                   callConfig := captured R |}]) /\
    (forall os,
        List.length os = List.length (itemsToProcess R) - S K ->
        exists s',
          run (map (GenerationSettled r) os) sErr = Some s' /\
          callsOf r (calls s') = map (callFor r R) (itemsToProcess R)) /\
    (forall rest s1 s2,
        run rest sOk = Some s1 -> run rest sErr = Some s2 ->
        agreeBut (id unitK) s1 s2).
Proof.
  intros Hr Hnd HR Hpc HK.
  pose proof (reachable_Inv s Hr Hnd) as I. unfold Inv in I.
  destruct (loopFrom r (captured R) (itemsToProcess R) (S K)
              (settleItem unitK (inl result) (state (store s))))
    as [[a1 p1] cs1] eqn:L1.
  destruct (loopFrom r (captured R) (itemsToProcess R) (S K)
              (settleItem unitK (inr e) (state (store s))))
    as [[a2 p2] cs2] eqn:L2.
  eexists. eexists.
  split; [exact (exec_GenerationSettled s r R K unitK _ _ _ _ HR Hpc HK L1)|].
  split; [exact (exec_GenerationSettled s r R K unitK _ _ _ _ HR Hpc HK L2)|].
  split; [|split; [|split]].
  - (* unit K *)
    simpl. intros i' Hi' Hid'.
    assert (Hitems : exists g,
               items a2 = map g (map (settleMark unitK (inr e))
                                     (items (state (store s)))) /\
               (forall i, id (g i) = id i) /\
               (forall i, id i = id unitK -> g i = i)).
    { unfold loopFrom in L2.
      destruct (nth_error (itemsToProcess R) (S K)) as [next|] eqn:En;
        injection L2 as <- _ _.
      - exists (markProcessing (id next)). split; [reflexivity|].
        split; [apply id_markProcessing|].
        intros i Hi. apply markProcessing_other. rewrite Hi. intros E.
        destruct (inv_inj I r R K unitK r R (S K) next HR HK HR En E) as [_ E'].
        lia.
      - exists (fun i => i). simpl. rewrite map_id. auto. }
    destruct Hitems as [g [Hitems [Hgid Hg]]].
    rewrite Hitems in Hi'. apply in_map_iff in Hi'. destruct Hi' as [i1 [<- Hi1]].
    rewrite Hgid in Hid'. rewrite (Hg i1 Hid') in *.
    apply in_map_iff in Hi1. destruct Hi1 as [i [<- Hi]].
    rewrite id_settleMark in Hid'.
    (* before the step, the unit was being processed *)
    destruct (inv_owner I i Hi) as [r0 [R0 [k0 [u0 [HR0 [Hu0 [Hid0 Hexp]]]]]]].
    destruct (inv_inj I r0 R0 k0 u0 r R K unitK HR0 Hu0 HR HK) as [-> ->];
      [congruence|].
    assert (R0 = R) by congruence. subst R0.
    rewrite Hpc in Hexp. destruct Hexp as [_ [Hproc _]].
    pose proof (unitOk_cases i (inv_units I i Hi)) as Hok.
    rewrite (Hproc eq_refl) in Hok. destruct Hok as [Hd He].
    apply String.eqb_eq in Hid'. simpl. unfold markError. rewrite Hid'. simpl.
    split; [reflexivity|]. split; [exact Hd|]. split.
    + intros msg Hm Hne. rewrite Hm. simpl.
      destruct msg; [congruence | reflexivity].
    + intros [Hm | Hm]; rewrite Hm; reflexivity.
  - (* unit K+1 is attempted *)
    intros next Hnext. simpl. unfold loopFrom in L2. rewrite Hnext in L2.
    now injection L2 as _ _ <-.
  - (* the later units *)
    intros os Hlen.
    assert (HltK : K < List.length (itemsToProcess R))
      by (apply nth_error_Some; congruence).
    destruct (run_drains (inr e :: os) s r R K unitK HR Hpc HK)
      as [s' [R' [Hrun [HR' [Hfin [Hbatch Hcap]]]]]]; [simpl; lia|].
    change (run (map (GenerationSettled r) (inr e :: os)) s)
      with (match exec (GenerationSettled r (inr e)) s with
            | Some s1 => run (map (GenerationSettled r) os) s1
            | None => None
            end) in Hrun.
    rewrite (exec_GenerationSettled s r R K unitK _ _ _ _ HR Hpc HK L2) in Hrun.
    exists s'. split; [exact Hrun|].
    assert (Hreach : reachable s').
    { destruct Hr as [es Hes].
      exists (es ++ GenerationSettled r (inr e) :: map (GenerationSettled r) os).
      rewrite run_app, Hes.
      change (run (GenerationSettled r (inr e) :: map (GenerationSettled r) os) s)
        with (match exec (GenerationSettled r (inr e)) s with
              | Some s1 => run (map (GenerationSettled r) os) s1
              | None => None
              end).
      now rewrite (exec_GenerationSettled s r R K unitK _ _ _ _ HR Hpc HK L2). }
    rewrite (reachable_callsInOrder s' Hreach r R' HR').
    unfold dispatched. rewrite Hfin, firstn_all, Hbatch.
    apply map_ext. intros item. unfold callFor. now rewrite Hcap.
  - (* the rest of the run *)
    intros rest s1 s2. apply run_agreeBut.
    assert (A : agreeState (id unitK)
                  (settleItem unitK (inl result) (state (store s)))
                  (settleItem unitK (inr e) (state (store s)))).
    { rewrite !settleItem_mapItems. split; [|split; reflexivity].
      apply settleMark_sameBut. }
    destruct (agreeState_loopFrom _ _ _ _ _ _ _ _ _ _ _ _ _ A L1 L2)
      as [B [<- <-]].
    split; simpl; auto.
Qed.

Lemma generation_failure_is_isolated_witness :
  exists sErr,
    exec (GenerationSettled 0 (inr {| message := Some "quota" |}))
         (stateAfter threeAdmitted) = Some sErr /\
    forall i, In i (items (state (store sErr))) -> id i = "a1b2" ->
              status i = Error /\ data i = None /\ error i = Some "quota".
Proof.
  destruct (generation_failure_is_isolated
              (stateAfter threeAdmitted) 0
              {| captured := initialConfig;
                 selected := [jpeg "a.jpg"; jpeg "b.jpg"; jpeg "c.jpg"];
                 itemsToProcess := createItems draws 0
                                     [jpeg "a.jpg"; jpeg "b.jpg"; jpeg "c.jpg"];
                 pc := Awaiting 0 |}
              0
              {| id := "a1b2"; file := jpeg "a.jpg"; status := Pending;
                 data := None; error := None |}
              (sampleMetadata "A" ["cat"])
              {| message := Some "quota" |})
    as [sOk [sErr [_ [H2 [H3 _]]]]].
  - exists threeAdmitted. vm_compute. reflexivity.
  - distinct_strings.
  - reflexivity.
  - reflexivity.
  - reflexivity.
  - exists sErr. split; [exact H2|].
    intros i Hi Hid. destruct (H3 i Hi Hid) as [Hst [Hd [Hmsg _]]].
    split; [exact Hst|]. split; [exact Hd|].
    apply (Hmsg "quota" eq_refl). discriminate.
Defined.

(** * Further properties of the code *)

(** ** ResultCard.tsx: removing, adding and sorting keywords *)

Lemma filterIndex_shift (ks : list string) (index i : nat) :
  filterIndex ks index (index + i) = firstn i ks ++ skipn (S i) ks.
Proof.
  revert index i. induction ks as [|k ks IH]; intros index i; simpl.
  - now destruct i.
  - destruct i as [|i].
    + rewrite Nat.add_0_r, Nat.eqb_refl. simpl.
      clear IH. revert index.
      assert (G : forall n m, n < m -> filterIndex ks m n = ks).
      { induction ks as [|k' ks' IH']; intros n m H; simpl; [reflexivity|].
        destruct (Nat.eqb_spec m n); [lia|]. f_equal. apply IH'. lia. }
      intros index. apply G. lia.
    + destruct (Nat.eqb_spec index (index + S i)); [lia|].
      simpl. f_equal. replace (index + S i) with (S index + i) by lia. apply IH.
Qed.

(** [removeKeyword] removes the keyword at the given position and
    nothing else; with a position past the end it gives the metadata
    back unchanged. *)
Theorem removeKeyword_position (d : StockMetadata) (i : nat) :
  keywords (removeKeyword d i)
  = firstn i (keywords d) ++ skipn (S i) (keywords d) /\
  (List.length (keywords d) <= i -> removeKeyword d i = d) /\
  (i < List.length (keywords d) ->
   List.length (keywords (removeKeyword d i)) = List.length (keywords d) - 1).
Proof.
  assert (H : keywords (removeKeyword d i)
              = firstn i (keywords d) ++ skipn (S i) (keywords d)).
  { simpl. apply (filterIndex_shift (keywords d) 0 i). }
  split; [exact H|]. split.
  - intros Hle. unfold removeKeyword.
    change (filterIndex (keywords d) 0 i) with (keywords (removeKeyword d i)).
    rewrite H, firstn_all2, skipn_all2, app_nil_r by lia.
    now destruct d.
  - intros Hlt. rewrite H, length_app, length_firstn, length_skipn. lia.
Qed.

Lemma removeKeyword_position_witness :
  keywords (removeKeyword (sampleMetadata "t" ["cat"; "dog"; "sun"]) 1)
  = ["cat"; "sun"] /\
  removeKeyword (sampleMetadata "t" ["cat"; "dog"; "sun"]) 3
  = sampleMetadata "t" ["cat"; "dog"; "sun"].
Proof.
  split.
  - exact (proj1 (removeKeyword_position
                    (sampleMetadata "t" ["cat"; "dog"; "sun"]) 1)).
  - apply (proj1 (proj2 (removeKeyword_position
                           (sampleMetadata "t" ["cat"; "dog"; "sun"]) 3))).
    simpl. lia.
Defined.

(** Removing the last keyword right after [addKeyword] appended one
    gives the metadata back. *)
Theorem removeKeyword_undoes_addKeyword (d d' : StockMetadata) (keyword : string) :
  addKeyword d keyword = Some d' ->
  removeKeyword d' (List.length (keywords d)) = d.
Proof.
  unfold addKeyword.
  destruct (truthy (trim keyword) && negb (includes (keywords d) (trim keyword)));
    [|discriminate].
  intros H. injection H as <-. unfold removeKeyword.
  change (filterIndex (keywords (withKeywords d (keywords d ++ [trim keyword])))
                      0 (List.length (keywords d)))
    with (filterIndex (keywords d ++ [trim keyword]) 0 (0 + List.length (keywords d))).
  rewrite filterIndex_shift, firstn_app, Nat.sub_diag, firstn_all, skipn_all2
    by (rewrite length_app; simpl; lia).
  simpl. rewrite !app_nil_r. now destruct d.
Qed.

Lemma removeKeyword_undoes_addKeyword_witness :
  removeKeyword (withKeywords (sampleMetadata "t" ["cat"]) ["cat"; "dog"]) 1
  = sampleMetadata "t" ["cat"].
Proof.
  apply (removeKeyword_undoes_addKeyword
           (sampleMetadata "t" ["cat"])
           (withKeywords (sampleMetadata "t" ["cat"]) ["cat"; "dog"]) " dog ").
  reflexivity.
Defined.

Lemma insertBy_Permutation (cmp : string -> string -> comparison) (x : string)
      (l : list string) :
  Permutation (x :: l) (insertBy cmp x l).
Proof.
  induction l as [|y l IH]; simpl; [reflexivity|].
  destruct (notAfter (cmp x y)); [reflexivity|].
  rewrite perm_swap. now constructor.
Qed.

Lemma sortBy_Permutation (cmp : string -> string -> comparison) (l : list string) :
  Permutation l (sortBy cmp l).
Proof.
  induction l as [|x l IH]; simpl; [constructor|].
  rewrite <- insertBy_Permutation. now constructor.
Qed.

(** [sortKeywords], whichever the order asked for and whatever the
    collation does, rearranges the keywords: none is dropped, added or
    merged with a duplicate, and no other field changes. *)
Theorem sortKeywords_permutes (localeCompare : string -> string -> comparison)
        (d : StockMetadata) (t : SortType) :
  Permutation (keywords d) (keywords (sortKeywords localeCompare d t)) /\
  (forall k, count_occ string_dec (keywords (sortKeywords localeCompare d t)) k
             = count_occ string_dec (keywords d) k) /\
  sortKeywords localeCompare d t
  = withKeywords d (keywords (sortKeywords localeCompare d t)).
Proof.
  assert (P : Permutation (keywords d) (keywords (sortKeywords localeCompare d t)))
    by (destruct t; simpl; apply sortBy_Permutation).
  split; [exact P|]. split.
  - intros k. symmetry.
    apply (proj1 (Permutation_count_occ string_dec _ _) P).
  - now destruct t.
Qed.

Section SortedBy.

Variable cmp : string -> string -> comparison.
Hypothesis cmp_total :
  forall a b, notAfter (cmp a b) = true \/ notAfter (cmp b a) = true.
Hypothesis cmp_trans :
  forall a b c, notAfter (cmp a b) = true -> notAfter (cmp b c) = true ->
                notAfter (cmp a c) = true.

Lemma insertBy_sorted (x : string) (l : list string) :
  StronglySorted (fun a b => notAfter (cmp a b) = true) l ->
  StronglySorted (fun a b => notAfter (cmp a b) = true) (insertBy cmp x l).
Proof.
  induction l as [|y l IH]; intros H; simpl.
  - constructor; constructor.
  - inversion H as [|? ? Hl Hy]; subst.
    destruct (notAfter (cmp x y)) eqn:E.
    + constructor; [assumption|]. constructor; [assumption|].
      rewrite Forall_forall in *. intros z Hz. eapply cmp_trans; eauto.
    + constructor; [now apply IH|].
      assert (Hyx : notAfter (cmp y x) = true)
        by (destruct (cmp_total x y); congruence).
      rewrite Forall_forall in *. intros z Hz.
      apply (Permutation_in _ (Permutation_sym (insertBy_Permutation cmp x l))) in Hz.
      destruct Hz as [<- | Hz]; auto.
Qed.

Lemma sortBy_sorted (l : list string) :
  StronglySorted (fun a b => notAfter (cmp a b) = true) (sortBy cmp l).
Proof.
  induction l as [|x l IH]; simpl; [constructor | now apply insertBy_sorted].
Qed.

Lemma sortBy_of_sorted (l : list string) :
  StronglySorted (fun a b => notAfter (cmp a b) = true) l -> sortBy cmp l = l.
Proof.
  induction l as [|x l IH]; intros H; simpl; [reflexivity|].
  inversion H as [|? ? Hl Hx]; subst. rewrite (IH Hl).
  destruct l as [|y l]; simpl; [reflexivity|].
  inversion Hx as [|? ? Hxy _]; subst. now rewrite Hxy.
Qed.

End SortedBy.

Lemma compareLength_notAfter (a b : string) :
  notAfter (compareLength a b) = true <-> String.length a <= String.length b.
Proof.
  unfold compareLength, notAfter.
  destruct (Nat.compare_spec (String.length a) (String.length b)); split;
    intros; try reflexivity; try lia; discriminate.
Qed.

Lemma insertBy_length_filter (n : nat) (x : string) (l : list string) :
  filter (fun k => Nat.eqb (String.length k) n) (insertBy compareLength x l)
  = filter (fun k => Nat.eqb (String.length k) n) (x :: l).
Proof.
  induction l as [|y l IH]; simpl; [reflexivity|].
  destruct (notAfter (compareLength x y)) eqn:E; [reflexivity|].
  assert (Hlt : String.length y < String.length x).
  { destruct (Nat.le_gt_cases (String.length x) (String.length y)) as [H | H];
      [|exact H].
    apply compareLength_notAfter in H. congruence. }
  simpl. rewrite IH. simpl.
  destruct (Nat.eqb_spec (String.length x) n), (Nat.eqb_spec (String.length y) n);
    try reflexivity. lia.
Qed.

(** Sorting by length puts the keywords in ascending order of length,
    keeps keywords of the same length in the order they had (the sort is
    stable), and sorting again changes nothing. *)
Theorem sortKeywords_by_length (localeCompare : string -> string -> comparison)
        (d : StockMetadata) :
  let sorted := sortKeywords localeCompare d SortLength in
  StronglySorted (fun a b => String.length a <= String.length b)
                 (keywords sorted) /\
  (forall n,
      filter (fun k => Nat.eqb (String.length k) n) (keywords sorted)
      = filter (fun k => Nat.eqb (String.length k) n) (keywords d)) /\
  sortKeywords localeCompare sorted SortLength = sorted.
Proof.
  assert (Htot : forall a b, notAfter (compareLength a b) = true \/
                             notAfter (compareLength b a) = true).
  { intros a b. rewrite !compareLength_notAfter. lia. }
  assert (Htr : forall a b c, notAfter (compareLength a b) = true ->
                              notAfter (compareLength b c) = true ->
                              notAfter (compareLength a c) = true).
  { intros a b c. rewrite !compareLength_notAfter. lia. }
  pose proof (sortBy_sorted compareLength Htot Htr (keywords d)) as S.
  simpl. split; [|split].
  - eapply StronglySorted_ind with
      (P := StronglySorted (fun a b => String.length a <= String.length b));
      [constructor | | exact S].
    intros a l _ IH Ha. constructor; [exact IH|].
    rewrite Forall_forall in *. intros z Hz.
    now apply compareLength_notAfter, Ha.
  - intros n. induction (keywords d) as [|x l IH]; [reflexivity|].
    change (sortBy compareLength (x :: l))
      with (insertBy compareLength x (sortBy compareLength l)).
    rewrite insertBy_length_filter. simpl. rewrite IH.
    + reflexivity.
    + apply (sortBy_sorted compareLength Htot Htr).
  - now rewrite (sortBy_of_sorted compareLength _ S).
Qed.

(** Sorting alphabetically, with a collation that is a consistent
    comparator (total and transitive), puts the keywords in
    non-descending order of that collation. *)
Theorem sortKeywords_alpha_sorted (localeCompare : string -> string -> comparison)
        (d : StockMetadata) :
  (forall a b, notAfter (localeCompare a b) = true \/
               notAfter (localeCompare b a) = true) ->
  (forall a b c, notAfter (localeCompare a b) = true ->
                 notAfter (localeCompare b c) = true ->
                 notAfter (localeCompare a c) = true) ->
  StronglySorted (fun a b => notAfter (localeCompare a b) = true)
                 (keywords (sortKeywords localeCompare d SortAlpha)).
Proof.
  intros Htot Htr. simpl. now apply sortBy_sorted.
Qed.

Lemma sortKeywords_alpha_sorted_witness :
  StronglySorted (fun a b => notAfter (compareLength a b) = true)
                 (keywords (sortKeywords compareLength
                              (sampleMetadata "t" ["sunset"; "cat"; "tree"])
                              SortAlpha)).
Proof.
  apply sortKeywords_alpha_sorted.
  - intros a b. rewrite !compareLength_notAfter. lia.
  - intros a b c. rewrite !compareLength_notAfter. lia.
Defined.

Lemma In_remove_nth {A : Type} (l : list A) (i : nat) (x : A) :
  In x (firstn i l ++ skipn (S i) l) -> In x l.
Proof.
  revert i. induction l as [|y l IH]; intros i H.
  - now destruct i.
  - destruct i as [|i]; simpl in *; [now right|].
    destruct H as [H | H]; [now left | right; now apply (IH i)].
Qed.

Lemma NoDup_remove_nth {A : Type} (l : list A) (i : nat) :
  NoDup l -> NoDup (firstn i l ++ skipn (S i) l).
Proof.
  revert i. induction l as [|x l IH]; intros i H.
  - now destruct i.
  - inversion H as [|? ? Hnin Hl]; subst. destruct i as [|i]; simpl; [exact Hl|].
    constructor; [|now apply IH].
    intros Hin. apply Hnin. now apply (In_remove_nth l i).
Qed.

(** A keyword sequence without duplicates stays without duplicates
    under adding, removing and sorting. *)
Theorem keyword_operations_keep_distinct
        (localeCompare : string -> string -> comparison) (d : StockMetadata) :
  NoDup (keywords d) ->
  (forall keyword, NoDup (keywords (afterAddKeyword d keyword))) /\
  (forall i, NoDup (keywords (removeKeyword d i))) /\
  (forall t, NoDup (keywords (sortKeywords localeCompare d t))).
Proof.
  intros H. split; [|split].
  - intros keyword. unfold afterAddKeyword, addKeyword.
    destruct (truthy (trim keyword)); simpl; [|exact H].
    destruct (includes (keywords d) (trim keyword)) eqn:E; simpl; [exact H|].
    apply includes_false in E.
    apply NoDup_app; [exact H | constructor; [intros [] | constructor] |].
    intros a Ha [<- | []]. contradiction.
  - intros i. simpl.
    change (filterIndex (keywords d) 0 i) with (filterIndex (keywords d) 0 (0 + i)).
    rewrite filterIndex_shift. now apply NoDup_remove_nth.
  - intros t. eapply Permutation_NoDup; [|exact H].
    destruct t; simpl; apply sortBy_Permutation.
Qed.

Lemma keyword_operations_keep_distinct_witness :
  NoDup (keywords (afterAddKeyword (sampleMetadata "t" ["cat"; "dog"]) "cat")) /\
  NoDup (keywords (removeKeyword (sampleMetadata "t" ["cat"; "dog"]) 0)).
Proof.
  assert (H : NoDup (keywords (sampleMetadata "t" ["cat"; "dog"])))
    by distinct_strings.
  destruct (keyword_operations_keep_distinct
              compareLength (sampleMetadata "t" ["cat"; "dog"]) H)
    as [Hadd [Hrem _]].
  split; [apply Hadd | apply Hrem].
Defined.

(** ** BatchResults.tsx: the CSV export *)

Lemma string_app_assoc (a b c : string) : ((a ++ b) ++ c = a ++ (b ++ c))%string.
Proof. induction a as [|x a IH]; simpl; [reflexivity | now rewrite IH]. Qed.

Lemma string_app_nil_r (a : string) : (a ++ "" = a)%string.
Proof. induction a as [|x a IH]; simpl; [reflexivity | now rewrite IH]. Qed.

Lemma concat_cons (sep x : string) (l : list string) :
  String.concat sep (x :: l) = (x ++ afterFirst sep l)%string.
Proof. destruct l; simpl; [now rewrite string_app_nil_r | reflexivity]. Qed.

Lemma readQuoted_doubleQuotes (text rest : string) :
  match rest with
  | EmptyString => True
  | String c _ => c <> doubleQuote
  end ->
  readQuoted (doubleQuotes text ++ String doubleQuote rest) = Some (text, rest).
Proof.
  intros Hrest.
  assert (Hq : Ascii.eqb doubleQuote doubleQuote = true) by apply Ascii.eqb_refl.
  induction text as [|c t IH].
  - cbn [doubleQuotes append readQuoted]. rewrite Hq.
    destruct rest as [|c r]; [reflexivity|].
    apply Ascii.eqb_neq in Hrest. now rewrite Hrest.
  - cbn [doubleQuotes]. destruct (Ascii.eqb c doubleQuote) eqn:E.
    + cbn [append readQuoted]. rewrite Hq, IH. cbn [option_map fst snd].
      apply Ascii.eqb_eq in E. now subst.
    + cbn [append readQuoted]. rewrite E, IH. reflexivity.
Qed.

Lemma escape_app (text rest : string) :
  (escape text ++ rest
   = String doubleQuote (doubleQuotes text ++ String doubleQuote rest))%string.
Proof.
  unfold escape. cbn [append]. f_equal. now rewrite string_app_assoc.
Qed.

Lemma escape_concat_inj (l1 l2 : list string) :
  String.concat "," (map escape l1) = String.concat "," (map escape l2) ->
  l1 = l2.
Proof.
  revert l2. induction l1 as [|a l1 IH]; intros [|b l2] H.
  - reflexivity.
  - simpl map in H. rewrite concat_cons in H. discriminate H.
  - simpl map in H. rewrite concat_cons in H. discriminate H.
  - simpl map in H. rewrite !concat_cons, !escape_app in H.
    injection H as H.
    assert (Hshape : forall l, match afterFirst "," (map escape l) with
                               | EmptyString => True
                               | String c _ => c <> doubleQuote
                               end).
    { intros [|x l]; simpl; [exact I | discriminate]. }
    pose proof (readQuoted_doubleQuotes a _ (Hshape l1)) as Ra.
    pose proof (readQuoted_doubleQuotes b _ (Hshape l2)) as Rb.
    rewrite H in Ra. rewrite Ra in Rb. injection Rb as -> Htail.
    f_equal. apply IH.
    destruct l1 as [|x l1], l2 as [|y l2]; simpl afterFirst in Htail;
      try discriminate.
    + reflexivity.
    + simpl in Htail. now injection Htail.
Qed.

(** The escaping of the CSV export loses nothing: two rows are equal
    only if the file names, titles, descriptions, joined keywords,
    categories, prompts and technical settings they were made of are
    equal, whatever quotes, commas or line breaks these texts hold. *)
Theorem csvRow_lossless (i1 i2 : BatchItem) (d1 d2 : StockMetadata) :
  csvRow i1 d1 = csvRow i2 d2 ->
  name (file i1) = name (file i2) /\
  title d1 = title d2 /\
  description d1 = description d2 /\
  String.concat ", " (keywords d1) = String.concat ", " (keywords d2) /\
  category d1 = category d2 /\
  ai_prompt d1 = ai_prompt d2 /\
  orElse (technical_settings d1) "" = orElse (technical_settings d2) "".
Proof.
  intros H. apply escape_concat_inj in H. unfold csvFields in H.
  injection H as H1 H2 H3 H4 H5 H6 H7. auto 10.
Qed.

Lemma csvRow_lossless_witness :
  title (sampleMetadata "A" ["cat"]) = title (sampleMetadata "A" ["cat"]).
Proof.
  exact (proj1 (proj2 (csvRow_lossless
                         {| id := "a1b2"; file := jpeg "a.jpg"; status := Completed;
                            data := Some (sampleMetadata "A" ["cat"]);
                            error := None |}
                         {| id := "zz"; file := jpeg "a.jpg"; status := Completed;
                            data := None; error := None |}
                         (sampleMetadata "A" ["cat"]) (sampleMetadata "A" ["cat"])
                         eq_refl))).
Defined.

Lemma csvRows_length (l : list BatchItem) :
  (forall i, In i l -> unitOk i = true) ->
  List.length (csvRows l) = completedCount l.
Proof.
  unfold completedCount. induction l as [|i l IH]; intros H; simpl; [reflexivity|].
  pose proof (unitOk_cases i (H i (or_introl eq_refl))) as Hi.
  specialize (IH (fun j Hj => H j (or_intror Hj))).
  destruct (status i); simpl; try exact IH.
  destruct (data i); [simpl; now rewrite IH | destruct Hi; congruence].
Qed.

(** In every state reached with pairwise distinct ids the CSV export
    writes exactly one row per completed unit of the queue: the export
    button, shown when some unit is completed, never does nothing. *)
Theorem export_has_a_row_per_completed_unit (s : Sys) :
  reachable s ->
  NoDup (issued s) ->
  List.length (csvRows (items (state (store s))))
  = completedCount (items (state (store s))) /\
  (handleExportCSV (items (state (store s))) = None <->
   completedCount (items (state (store s))) = 0).
Proof.
  intros Hr Hnd.
  pose proof (csvRows_length _ (inv_units (reachable_Inv s Hr Hnd))) as H.
  split; [exact H|]. unfold handleExportCSV. rewrite <- H.
  destruct (csvRows (items (state (store s)))); simpl; split;
    intros; try reflexivity; discriminate.
Qed.

Lemma export_has_a_row_per_completed_unit_witness :
  List.length (csvRows (items (state (store (stateAfter refineDuringBatch))))) = 1.
Proof.
  rewrite (proj1 (export_has_a_row_per_completed_unit
                    (stateAfter refineDuringBatch)
                    (ex_intro _ refineDuringBatch eq_refl)
                    ltac:(distinct_strings))).
  reflexivity.
Defined.

(** ** geminiService.ts: the preview's aspect ratio *)

(** The preview is always requested with one of the five supported
    ratios; a supported ratio is passed as it is, and only those are. *)
Theorem safeRatio_supported (aspectRatio : string) :
  In (safeRatio aspectRatio) supportedRatios /\
  (safeRatio aspectRatio = aspectRatio <-> In aspectRatio supportedRatios) /\
  safeRatio (safeRatio aspectRatio) = safeRatio aspectRatio.
Proof.
  unfold safeRatio, supportedRatios.
  destruct (String.eqb_spec aspectRatio "16:9") as [-> | H1];
    [simpl; split; [|split]; [tauto | | reflexivity]; split; [tauto | reflexivity]|].
  destruct (String.eqb_spec aspectRatio "9:16") as [-> | H2];
    [simpl; split; [|split]; [tauto | | reflexivity]; split; [tauto | reflexivity]|].
  destruct (String.eqb_spec aspectRatio "4:3") as [-> | H3];
    [simpl; split; [|split]; [tauto | | reflexivity]; split; [tauto | reflexivity]|].
  destruct (String.eqb_spec aspectRatio "3:2") as [-> | H4];
    [simpl; split; [|split]; [tauto | | reflexivity];
     split; [discriminate | intros H; repeat (destruct H as [H | H];
                                              [discriminate H|]); destruct H]|].
  destruct (String.eqb_spec aspectRatio "3:4") as [-> | H5];
    [simpl; split; [|split]; [tauto | | reflexivity]; split; [tauto | reflexivity]|].
  destruct (String.eqb_spec aspectRatio "2:3") as [-> | H6];
    [simpl; split; [|split]; [tauto | | reflexivity];
     split; [discriminate | intros H; repeat (destruct H as [H | H];
                                              [discriminate H|]); destruct H]|].
  simpl. split; [tauto|]. split; [|reflexivity].
  split.
  - intros <-. tauto.
  - intros H. repeat (destruct H as [H | H]; [congruence|]). destruct H.
Qed.

(** ** FileUpload.tsx: the validation of a selection *)

Lemma validFiles_all (fileList : list File) :
  existsb (fun f => negb (includes validTypes (type f))) fileList = false <->
  validFiles fileList = fileList.
Proof.
  unfold validFiles. induction fileList as [|f l IH]; [simpl; tauto|].
  cbn [existsb filter].
  destruct (includes validTypes (type f)) eqn:E; cbn [negb orb].
  - rewrite IH. split; [intros ->; reflexivity | intros H; now injection H].
  - split; [discriminate|]. intros H.
    assert (Hlen : List.length (filter (fun f0 => includes validTypes (type f0)) l)
                   <= List.length l) by apply filter_length_le.
    rewrite H in Hlen. simpl in Hlen. lia.
Qed.

(** [validateAndProcessFiles] hands on exactly the files of a supported
    type, in the order selected, and only if there is one; it raises its
    notice exactly when some selected file is left out. *)
Theorem validateAndProcessFiles_partition (fileList : list File) :
  let v := validateAndProcessFiles fileList in
  (forall files, passedOn v = Some files ->
     files = filter (fun f => includes validTypes (type f)) fileList /\
     files <> [] /\
     forall f, In f files -> In (type f) validTypes) /\
  (passedOn v = None <->
   forall f, In f fileList -> ~ In (type f) validTypes) /\
  (notice v = None <->
   forall f, In f fileList -> In (type f) validTypes) /\
  (notice v = None -> fileList <> [] -> passedOn v = Some fileList).
Proof.
  cbv zeta. unfold validateAndProcessFiles. cbn [passedOn notice].
  split; [|split; [|split]].
  - intros files H. unfold validFiles in H.
    destruct (filter _ fileList) as [|x l] eqn:E; [discriminate|].
    injection H as <-. split; [reflexivity|]. split; [discriminate|].
    intros f Hf. rewrite <- E in Hf. apply filter_In in Hf.
    apply includes_In, Hf.
  - unfold validFiles. split.
    + intros H f Hf Ht.
      assert (Hin : In f (filter (fun f0 => includes validTypes (type f0)) fileList)).
      { apply filter_In. split; [assumption | now apply includes_In]. }
      destruct (filter _ fileList); [contradiction | discriminate].
    + intros H. destruct (filter _ fileList) as [|x l] eqn:E; [reflexivity|].
      exfalso. assert (Hx : In x (x :: l)) by now left.
      rewrite <- E in Hx. apply filter_In in Hx. destruct Hx as [Hx Ht].
      apply (H x Hx). now apply includes_In.
  - destruct (existsb _ fileList) eqn:E.
    + split; [discriminate|]. intros H. exfalso.
      apply existsb_exists in E. destruct E as [f [Hf Hn]].
      apply negb_true_iff, includes_false in Hn. apply Hn, H, Hf.
    + split; [|reflexivity]. intros _ f Hf.
      destruct (in_dec string_dec (type f) validTypes) as [Hin | Hnin]; [exact Hin|].
      exfalso.
      assert (Hex : existsb (fun f0 => negb (includes validTypes (type f0))) fileList
                    = true).
      { apply existsb_exists. exists f. split; [exact Hf|].
        apply negb_true_iff. now apply includes_false. }
      congruence.
  - destruct (existsb _ fileList) eqn:E; [discriminate|]. intros _ Hne.
    apply validFiles_all in E. rewrite E.
    destruct fileList; [contradiction | reflexivity].
Qed.

(** ** pdfUtils.ts: what a conversion returns, and when it throws *)

Lemma renderPages_throws (pdfFile : File) (pdf : PdfDocument) (k i : nat)
      (images : list File) :
  renderPages pdfFile pdf i k images = None <->
  exists j, i <= j < i + k /\ page pdf j = RenderThrows.
Proof.
  revert i images. induction k as [|k IH]; intros i images; simpl.
  - split; [discriminate | intros [j [Hj _]]; lia].
  - destruct (page pdf i) eqn:E.
    + split; [|reflexivity]. intros _. exists i. split; [lia | exact E].
    + rewrite IH. split; intros [j [Hj Hp]].
      * exists j. split; [lia | exact Hp].
      * exists j. split; [|exact Hp].
        destruct (Nat.eq_dec j i) as [-> | Hne]; [congruence | lia].
    + rewrite IH. split; intros [j [Hj Hp]].
      * exists j. split; [lia | exact Hp].
      * exists j. split; [|exact Hp].
        destruct (Nat.eq_dec j i) as [-> | Hne]; [congruence | lia].
    + rewrite IH. split; intros [j [Hj Hp]].
      * exists j. split; [lia | exact Hp].
      * exists j. split; [|exact Hp].
        destruct (Nat.eq_dec j i) as [-> | Hne]; [congruence | lia].
Qed.

(** A conversion that returns gives, in page order, the JPEG images of
    those of the first [min numPages 10] pages that rendered to a blob:
    never more than ten files, never a page past the tenth, each file
    carrying the blob of its page. *)
Theorem convertPdfToImages_returns (env : PdfEnv) (pdfFile : File)
        (images : list File) :
  convertPdfToImages env pdfFile = inl images ->
  exists pdf,
    getDocument env pdfFile = Some pdf /\
    images = map (pageImage pdfFile pdf)
                 (filter (fun j => rendersToBlob (page pdf j))
                         (seq 1 (Nat.min (numPages pdf) 10))) /\
    List.length images <= Nat.min (numPages pdf) 10 /\
    Forall (fun f => type f = "image/jpeg") images.
Proof.
  unfold convertPdfToImages.
  destruct (pdfjsLib env); simpl; [|discriminate].
  destruct (getDocument env pdfFile) as [pdf|]; [|discriminate].
  destruct (renderPages pdfFile pdf 1 (Nat.min (numPages pdf) 10) []) eqn:E;
    [|discriminate].
  intros H. injection H as <-. exists pdf. split; [reflexivity|].
  apply renderPages_returns in E. simpl in E. subst l.
  split; [reflexivity|]. split.
  - rewrite length_map. etransitivity; [apply filter_length_le|].
    now rewrite length_seq.
  - apply Forall_forall. intros f Hf. apply in_map_iff in Hf.
    now destruct Hf as [j [<- _]].
Qed.

Lemma convertPdfToImages_returns_witness :
  exists pdf,
    getDocument (browser 3 (Blob "jpeg")) report = Some pdf /\
    List.length (map (pageImage report pdf) [1; 2; 3]) <= Nat.min (numPages pdf) 10.
Proof.
  destruct (convertPdfToImages_returns
              (browser 3 (Blob "jpeg")) report
              (map (pageImage report {| numPages := 3; page := fun _ => Blob "jpeg" |})
                   [1; 2; 3]) eq_refl)
    as [pdf [Hdoc [Himg [Hlen _]]]].
  exists pdf. split; [exact Hdoc|].
  injection Hdoc as <-. exact Hlen.
Defined.

(** A conversion throws exactly when pdf.js is missing, the document
    cannot be opened, or one of the first [min numPages 10] pages fails
    to load or render; a page without canvas context or blob, and any
    page past the tenth, never makes it throw. *)
Theorem convertPdfToImages_throws_iff (env : PdfEnv) (pdfFile : File) :
  (exists e, convertPdfToImages env pdfFile = inr e) <->
  pdfjsLib env = false \/
  getDocument env pdfFile = None \/
  exists pdf j,
    getDocument env pdfFile = Some pdf /\
    1 <= j <= Nat.min (numPages pdf) 10 /\ page pdf j = RenderThrows.
Proof.
  unfold convertPdfToImages.
  destruct (pdfjsLib env); simpl.
  2:{ split; [auto | intros _; eauto]. }
  destruct (getDocument env pdfFile) as [pdf|].
  2:{ split; [auto | intros _; eauto]. }
  destruct (renderPages pdfFile pdf 1 (Nat.min (numPages pdf) 10) []) eqn:E.
  - split; [intros [e H]; discriminate|].
    intros [H | [H | [pdf' [j [Hd [Hj Hp]]]]]]; try discriminate.
    injection Hd as <-.
    assert (Hn : renderPages pdfFile pdf 1 (Nat.min (numPages pdf) 10) [] = None).
    { apply renderPages_throws. exists j. split; [lia | exact Hp]. }
    congruence.
  - split; [|intros _; eauto]. intros _. right. right.
    apply renderPages_throws in E. destruct E as [j [Hj Hp]].
    exists pdf, j. split; [reflexivity|]. split; [lia | exact Hp].
Qed.

Lemma renderPages_ext (pdfFile : File) (pdf1 pdf2 : PdfDocument) (k i : nat)
      (images : list File) :
  (forall j, i <= j < i + k -> page pdf1 j = page pdf2 j) ->
  renderPages pdfFile pdf1 i k images = renderPages pdfFile pdf2 i k images.
Proof.
  revert i images. induction k as [|k IH]; intros i images H; simpl; [reflexivity|].
  rewrite <- (H i) by lia.
  destruct (page pdf1 i); try reflexivity; apply IH; intros j Hj; apply H; lia.
Qed.

(** The conversion never looks at a page past the tenth: two documents
    with the same first ten pages, both of more than ten pages or of the
    same number of pages, convert to the same result. *)
Theorem convertPdfToImages_ignores_later_pages (env1 env2 : PdfEnv)
        (pdfFile : File) (pdf1 pdf2 : PdfDocument) :
  pdfjsLib env1 = pdfjsLib env2 ->
  getDocument env1 pdfFile = Some pdf1 ->
  getDocument env2 pdfFile = Some pdf2 ->
  Nat.min (numPages pdf1) 10 = Nat.min (numPages pdf2) 10 ->
  (forall j, 1 <= j <= 10 -> page pdf1 j = page pdf2 j) ->
  convertPdfToImages env1 pdfFile = convertPdfToImages env2 pdfFile.
Proof.
  intros Hlib H1 H2 Hn Hp. unfold convertPdfToImages.
  rewrite Hlib, H1, H2, <- Hn.
  rewrite (renderPages_ext pdfFile pdf1 pdf2); [reflexivity|].
  intros j Hj. apply Hp. lia.
Qed.

Lemma convertPdfToImages_ignores_later_pages_witness :
  convertPdfToImages (browser 12 (Blob "jpeg")) report
  = convertPdfToImages
      {| pdfjsLib := true;
         getDocument := fun _ =>
           Some {| numPages := 25;
                   page := fun j => if Nat.leb j 10 then Blob "jpeg"
                                    else RenderThrows |} |}
      report.
Proof.
  eapply convertPdfToImages_ignores_later_pages.
  - reflexivity.
  - reflexivity.
  - reflexivity.
  - reflexivity.
  - intros j Hj. simpl. destruct (Nat.leb_spec j 10); [reflexivity | lia].
Defined.

Lemma string_app_inv_head (p x y : string) : (p ++ x = p ++ y)%string -> x = y.
Proof.
  induction p as [|c p IH]; simpl; intros H; [exact H|].
  injection H as H. now apply IH.
Qed.

Lemma string_length_app (x y : string) :
  String.length (x ++ y) = String.length x + String.length y.
Proof. induction x as [|c x IH]; simpl; [reflexivity | now rewrite IH]. Qed.

Lemma string_app_inv_tail (x y s : string) : (x ++ s = y ++ s)%string -> x = y.
Proof.
  revert y. induction x as [|c x IH]; intros [|d y] H; simpl in H.
  - reflexivity.
  - apply (f_equal String.length) in H. simpl in H.
    rewrite string_length_app in H. lia.
  - apply (f_equal String.length) in H. simpl in H.
    rewrite string_length_app in H. lia.
  - injection H as -> H. f_equal. now apply IH.
Qed.

Lemma numberToString_inj (n m : nat) :
  numberToString n = numberToString m -> n = m.
Proof.
  unfold numberToString. intros H.
  assert (Hnn : forall k, Nat.to_uint k <> Decimal.Nil).
  { intros k Hk. pose proof (Unsigned.of_to k) as E. rewrite Hk in E.
    simpl in E. subst k. discriminate Hk. }
  pose proof (NilZero.usu _ (Hnn n)) as Hn.
  pose proof (NilZero.usu _ (Hnn m)) as Hm.
  rewrite H in Hn. rewrite Hn in Hm. injection Hm as Hm.
  now apply Unsigned.to_uint_inj.
Qed.

Lemma NoDup_map_inj_in {A B : Type} (f : A -> B) (l : list A) :
  (forall a b, In a l -> In b l -> f a = f b -> a = b) ->
  NoDup l -> NoDup (map f l).
Proof.
  intros Hinj H. induction H as [|x l Hnin Hl IH]; simpl; constructor.
  - intros Hin. apply in_map_iff in Hin. destruct Hin as [y [E Hy]].
    assert (y = x) by (apply Hinj; simpl; auto). now subst.
  - apply IH. intros a b Ha Hb. apply Hinj; now right.
Qed.

(** The images a conversion returns have pairwise distinct names: the
    page number tells them apart. *)
Theorem convertPdfToImages_names_distinct (env : PdfEnv) (pdfFile : File)
        (images : list File) :
  convertPdfToImages env pdfFile = inl images ->
  NoDup (map name images).
Proof.
  unfold convertPdfToImages.
  destruct (pdfjsLib env); simpl; [|discriminate].
  destruct (getDocument env pdfFile) as [pdf|]; [|discriminate].
  destruct (renderPages pdfFile pdf 1 (Nat.min (numPages pdf) 10) []) eqn:E;
    [|discriminate].
  intros H. injection H as <-.
  apply renderPages_returns in E. simpl in E. subst l.
  rewrite map_map. apply NoDup_map_inj_in.
  - intros a b _ _ H. unfold pageImage, pageFileName in H. simpl in H.
    apply string_app_inv_head in H.
    change ("_page_" ++ numberToString a ++ ".jpg")%string
      with ("_page_" ++ (numberToString a ++ ".jpg"))%string in H.
    apply (string_app_inv_head "_page_") in H.
    apply string_app_inv_tail in H. now apply numberToString_inj.
  - apply NoDup_filter, seq_NoDup.
Qed.

Lemma convertPdfToImages_names_distinct_witness :
  NoDup (map name (map (pageImage report
                          {| numPages := 3; page := fun _ => Blob "jpeg" |})
                       [1; 2; 3])).
Proof.
  exact (convertPdfToImages_names_distinct (browser 3 (Blob "jpeg")) report _ eq_refl).
Defined.

(** ** utils/pdfUtils.ts: a PDF of more than ten pages *)

(** Removing the extension of a name that has no other dot. *)
Lemma replace_extension (base : string) :
  (forall i, String.get i base <> Some "."%char) ->
  replace ".pdf" "" (base ++ ".pdf") = base.
Proof.
  induction base as [|c base IH]; intros H; [reflexivity|].
  assert (Hc : c <> "."%char).
  { intros ->. now apply (H 0). }
  change (replace ".pdf" "" (String c base ++ ".pdf"))
    with (if prefix ".pdf" (String c (base ++ ".pdf"))
          then ("" ++ dropChars (String.length ".pdf") (String c (base ++ ".pdf")))%string
          else String c (replace ".pdf" "" (base ++ ".pdf"))).
  assert (Hp : prefix ".pdf" (String c (base ++ ".pdf")) = false).
  { change (prefix ".pdf" (String c (base ++ ".pdf")))
      with (if ascii_dec "." c then prefix "pdf" (base ++ ".pdf") else false).
    destruct (ascii_dec "." c) as [E | _]; [|reflexivity].
    now contradiction Hc. }
  rewrite Hp, IH; [reflexivity|].
  intros i. apply (H (S i)).
Qed.

(** C7, as the specification states it, for every PDF of more than ten
    pages: exactly ten images.  A page whose canvas gives no blob is
    skipped by an explicit guard: a twelve-page PDF whose page 3 gives
    none is converted to nine images, those of pages 1, 2 and 4 to
    10. *)
Lemma pdf_page_without_blob_skipped :
  exists pdf images,
    getDocument browserWithoutPage3 report = Some pdf /\
    10 < numPages pdf /\
    convertPdfToImages browserWithoutPage3 report = inl images /\
    List.length images = 9 /\
    map name images
    = ["report_page_1.jpg"; "report_page_2.jpg"; "report_page_4.jpg";
       "report_page_5.jpg"; "report_page_6.jpg"; "report_page_7.jpg";
       "report_page_8.jpg"; "report_page_9.jpg"; "report_page_10.jpg"].
Proof.
  eexists. eexists.
  split; [reflexivity|]. split; [simpl; lia|].
  split; [vm_compute; reflexivity|].
  split; reflexivity.
Qed.

(** C7, amended: a PDF of more than ten pages that pdf.js opens and
    each of whose first ten pages renders to a blob is converted to
    exactly ten JPEG files, one per page 1..10 in page order, with
    pairwise distinct names; the file of page K carries that page's
    blob and is named [<original>_page_K.jpg], K written in decimal and
    [<original>] being the PDF's name with its first [.pdf] removed
    (for a name [base.pdf] without another dot, [base]). *)
Theorem convertPdfToImages_ten_pages (env : PdfEnv) (pdfFile : File)
        (pdf : PdfDocument) :
  pdfjsLib env = true ->
  getDocument env pdfFile = Some pdf ->
  10 < numPages pdf ->
  (forall K, 1 <= K <= 10 -> exists b, page pdf K = Blob b) ->
  exists images,
    convertPdfToImages env pdfFile = inl images /\
    List.length images = 10 /\
    NoDup (map name images) /\
    (forall K, 1 <= K <= 10 ->
       exists b,
         page pdf K = Blob b /\
         nth_error images (K - 1)
         = Some {| name := (replace ".pdf" "" (name pdfFile) ++ "_page_"
                            ++ NilZero.string_of_uint (Nat.to_uint K)
                            ++ ".jpg")%string;
                   type := "image/jpeg";
                   bytes := b |}) /\
    (forall base,
        name pdfFile = (base ++ ".pdf")%string ->
        (forall i, String.get i base <> Some "."%char) ->
        forall K, 1 <= K <= 10 ->
          exists f,
            nth_error images (K - 1) = Some f /\
            name f = (base ++ "_page_"
                      ++ NilZero.string_of_uint (Nat.to_uint K)
                      ++ ".jpg")%string).
Proof.
  intros Hlib Hdoc Hn Hpages.
  assert (Hnth : forall K, 1 <= K <= 10 ->
             nth_error (map (pageImage pdfFile pdf) (seq 1 10)) (K - 1)
             = Some (pageImage pdfFile pdf K)).
  { intros K HK. rewrite nth_error_map, nth_error_seq.
    destruct (Nat.ltb_spec (K - 1) 10) as [_ | Hge]; [|lia].
    replace (1 + (K - 1)) with K by lia. reflexivity. }
  exists (map (pageImage pdfFile pdf) (seq 1 10)).
  split; [|split; [|split; [|split]]].
  - unfold convertPdfToImages. rewrite Hlib, Hdoc. simpl negb. cbv iota.
    replace (Nat.min (numPages pdf) 10) with 10 by lia.
    rewrite renderPages_all_blobs; [reflexivity|].
    intros j Hj. destruct (Hpages j) as [b Hb]; [lia|]. now rewrite Hb.
  - now rewrite length_map, length_seq.
  - rewrite map_map. apply NoDup_map_inj_in; [|apply seq_NoDup].
    intros a b _ _ H. unfold pageImage, pageFileName in H. simpl in H.
    apply string_app_inv_head in H.
    change ("_page_" ++ numberToString a ++ ".jpg")%string
      with ("_page_" ++ (numberToString a ++ ".jpg"))%string in H.
    apply (string_app_inv_head "_page_") in H.
    apply string_app_inv_tail in H. now apply numberToString_inj.
  - intros K HK. destruct (Hpages K HK) as [b Hb]. exists b.
    split; [exact Hb|]. rewrite (Hnth K HK).
    unfold pageImage, pageFileName, numberToString. now rewrite Hb.
  - intros base Hname Hdot K HK. exists (pageImage pdfFile pdf K).
    split; [exact (Hnth K HK)|].
    unfold pageImage, pageFileName, numberToString. simpl name.
    now rewrite Hname, (replace_extension base Hdot).
Qed.

Lemma convertPdfToImages_ten_pages_witness :
  exists images,
    convertPdfToImages (browser 12 (Blob "jpeg")) report = inl images /\
    List.length images = 10 /\
    map name images
    = ["report_page_1.jpg"; "report_page_2.jpg"; "report_page_3.jpg";
       "report_page_4.jpg"; "report_page_5.jpg"; "report_page_6.jpg";
       "report_page_7.jpg"; "report_page_8.jpg"; "report_page_9.jpg";
       "report_page_10.jpg"] /\
    Forall (fun f => type f = "image/jpeg" /\ bytes f = "jpeg") images.
Proof.
  destruct (convertPdfToImages_ten_pages (browser 12 (Blob "jpeg")) report
              {| numPages := 12; page := fun _ => Blob "jpeg" |})
    as [images [Hc [Hl _]]].
  - reflexivity.
  - reflexivity.
  - simpl. lia.
  - intros K _. exists "jpeg". reflexivity.
  - exists images. split; [exact Hc|]. split; [exact Hl|].
    vm_compute in Hc. injection Hc as <-.
    split; [reflexivity|]. repeat constructor.
Defined.

(** ** App.tsx: the flags and the selection *)

Lemma reachable_step (e : Event) (s s' : Sys) :
  reachable s -> exec e s = Some s' -> reachable s'.
Proof.
  intros [es H] E. exists (es ++ [e]). rewrite run_app, H. simpl. now rewrite E.
Qed.

(** Induction on the schedule, with the state before each step known to
    be reachable. *)
Lemma reachable_ind (P : Sys -> Prop) :
  P init ->
  (forall e s s', reachable s -> exec e s = Some s' -> P s -> P s') ->
  forall s, reachable s -> P s.
Proof.
  intros Hinit Hstep s [es H]. revert s H.
  induction es as [|e es IH] using rev_ind; intros s H.
  - simpl in H. now injection H as <-.
  - rewrite run_app in H. destruct (run es init) as [s1|] eqn:E1; [|discriminate].
    simpl in H. destruct (exec e s1) as [s2|] eqn:E2; [|discriminate].
    injection H as <-.
    apply (Hstep e s1 s2); [now exists es | exact E2 | now apply IH].
Qed.

Lemma loopFrom_flag (r : nat) (c : PromptConfig) (l : list BatchItem) (i : nat)
      (a a' : AnalysisState) (p : RunnerPc) (cs : list Call) :
  loopFrom r c l i a = (a', p, cs) ->
  (p = Awaiting i /\ isProcessing a' = isProcessing a /\
   activeItemId a' = activeItemId a) \/
  (p = Finished /\ isProcessing a' = false /\ items a' = items a /\
   activeItemId a' = activeItemId a).
Proof.
  unfold loopFrom. destruct (nth_error l i); intros H; injection H as <- <- _;
    [left | right]; auto.
Qed.

(** A busy flag is never left on: while [isProcessing] is set some
    runner is awaiting a generation call, while [isPreparingFiles] is
    set some selection is being prepared, while [isRefining] is set
    some refinement call is pending. *)
Theorem busy_flags_have_a_cause (s : Sys) :
  reachable s ->
  (isProcessing (state (store s)) = true ->
   exists r R j, nth_error (runners s) r = Some R /\ pc R = Awaiting j) /\
  (isPreparingFiles (store s) = true ->
   exists r R, nth_error (runners s) r = Some R /\ pc R = Preparing) /\
  (isRefining (store s) = true ->
   exists k q, nth_error (refinements s) k = Some q /\ settled q = None).
Proof.
  revert s. apply reachable_ind.
  - simpl. repeat split; discriminate.
  - intros e s s' _ H [Hproc [Hprep Href]].
    (* a runner other than the one that moves keeps its place *)
    assert (Hkeep : forall r0 R0 l p (Q : RunnerPc -> Prop),
               nth_error (runners s) r0 = Some R0 ->
               ~ Q (pc R0) ->
               (exists r R, nth_error (runners s) r = Some R /\ Q (pc R)) ->
               exists r R, nth_error (setNth r0 (withPc R0 l p) (runners s)) r
                           = Some R /\ Q (pc R)).
    { intros r0 R0 l p Q H0 HnQ [r [R [HR HQ]]]. exists r, R.
      rewrite nth_error_setNth_ne; [auto|]. intros ->.
      assert (R = R0) by congruence. now subst. }
    destruct e; exec_paths H; simpl in *; auto.
    + (* SelectFiles *)
      split; [|split; [|exact Href]].
      * intros Hp. destruct (Hproc Hp) as [r [R [j [HR Hj]]]].
        exists r, R, j. split; [|exact Hj].
        rewrite nth_error_app1; [exact HR|]. apply nth_error_Some. congruence.
      * intros _. exists (List.length (runners s)). eexists.
        rewrite nth_error_app2, Nat.sub_diag by lia. simpl. eauto.
    + (* FilesPrepared *)
      split; [|split; [discriminate | exact Href]].
      match goal with
      | Hr : nth_error (runners s) _ = Some _, Hl : loopFrom _ _ _ _ _ = _ |- _ =>
          destruct (loopFrom_flag _ _ _ _ _ _ _ _ Hl)
            as [[-> _] | [_ [Hf _]]];
          [ intros _; eexists; eexists; eexists;
            rewrite (nth_error_setNth_eq _ _ _ _ Hr); split; reflexivity
          | rewrite Hf; discriminate ]
      end.
    + (* GenerationSettled *)
      split; [|split; [|exact Href]].
      * match goal with
        | Hr : nth_error (runners s) _ = Some _, Hl : loopFrom _ _ _ _ _ = _ |- _ =>
            destruct (loopFrom_flag _ _ _ _ _ _ _ _ Hl)
              as [[-> _] | [_ [Hf _]]];
            [ intros _; eexists; eexists; eexists;
              rewrite (nth_error_setNth_eq _ _ _ _ Hr); split; reflexivity
            | rewrite Hf; discriminate ]
        end.
      * intros Hp.
        match goal with
        | Hr : nth_error (runners s) _ = Some ?R0, Hpc : pc ?R0 = Awaiting _ |- _ =>
            apply (Hkeep _ _ _ _ (fun q => q = Preparing) Hr);
            [rewrite Hpc; discriminate | auto]
        end.
    + (* RefineItem *)
      unfold startRefine.
      destruct (findItem _ _) as [it|]; [destruct (data it)|]; simpl; auto.
      split; [exact Hproc|]. split; [exact Hprep|]. intros _.
      exists (List.length (refinements s)). eexists.
      rewrite nth_error_app2, Nat.sub_diag by lia. simpl. eauto.
    + (* RefineSettled *)
      unfold finishRefine. destruct outcome; simpl; auto.
      * split; [exact Hproc|]. split; [exact Hprep | discriminate].
      * split; [exact Hproc|]. split; [exact Hprep | discriminate].
    + (* Clear *)
      split; [discriminate|]. split; [exact Hprep | exact Href].
Qed.

Lemma busy_flags_have_a_cause_witness :
  isProcessing (state (store (stateAfter threeAdmitted))) = true /\
  exists r R j,
    nth_error (runners (stateAfter threeAdmitted)) r = Some R /\
    pc R = Awaiting j.
Proof.
  split; [reflexivity|].
  apply (busy_flags_have_a_cause (stateAfter threeAdmitted)).
  - exists threeAdmitted. vm_compute. reflexivity.
  - reflexivity.
Defined.

(** ** App.tsx and BatchResults.tsx: the selection *)

Lemma selectionOk_sameIds (a a' : AnalysisState) :
  map id (items a') = map id (items a) ->
  activeItemId a' = activeItemId a ->
  selectionOk a -> selectionOk a'.
Proof.
  unfold selectionOk. intros Hi Ha. rewrite Ha.
  destruct (activeItemId a); [now rewrite Hi|].
  intros E. rewrite E in Hi. simpl in Hi. now apply map_eq_nil in Hi.
Qed.

Lemma selectionOk_mapItems (f : BatchItem -> BatchItem) (a : AnalysisState) :
  (forall i, id (f i) = id i) -> selectionOk a -> selectionOk (mapItems f a).
Proof.
  intros Hf. apply selectionOk_sameIds; simpl;
    [now apply map_map_same | reflexivity].
Qed.

Lemma selectionOk_loopFrom (r : nat) (c : PromptConfig) (l : list BatchItem)
      (i : nat) (a a' : AnalysisState) (p : RunnerPc) (cs : list Call) :
  loopFrom r c l i a = (a', p, cs) -> selectionOk a -> selectionOk a'.
Proof.
  intros H. apply selectionOk_sameIds.
  - apply (files_loopFrom _ _ _ _ _ _ _ _ H).
  - destruct (loopFrom_flag _ _ _ _ _ _ _ _ H) as [[_ [_ E]] | [_ [_ [_ E]]]];
      exact E.
Qed.

Lemma selectionOk_appendItems (newItems : list BatchItem)
      (prev a : AnalysisState) :
  appendItems newItems prev = Some a -> selectionOk prev -> selectionOk a.
Proof.
  unfold appendItems, selectionOk. intros H Hs.
  destruct (activeItemId prev) as [x|]; [destruct (truthy x)|];
    try destruct newItems as [|first rest]; try discriminate H;
    injection H as <-; simpl; rewrite map_app, in_app_iff; simpl; auto.
Qed.

Lemma selectionOk_settleItem (item : BatchItem) (o : Result StockMetadata)
      (a : AnalysisState) :
  selectionOk a -> selectionOk (settleItem item o a).
Proof.
  destruct o; simpl; apply selectionOk_mapItems; intros i;
    [apply id_markCompleted | apply id_markError].
Qed.

Lemma exec_selectionOk (e : Event) (s s' : Sys) :
  exec e s = Some s' ->
  selectionOk (state (store s)) -> selectionOk (state (store s')).
Proof.
  intros H Hs. destruct e.
  - exec_paths H; simpl; exact Hs.
  - exec_paths H; simpl.
    match goal with
    | Ha : appendItems _ _ = Some ?a1, Hl : loopFrom _ _ _ _ _ = _ |- _ =>
        apply (selectionOk_loopFrom _ _ _ _ _ _ _ _ Hl);
        apply (selectionOk_sameIds a1); [reflexivity | reflexivity |];
        apply (selectionOk_appendItems _ _ _ Ha Hs)
    end.
  - exec_paths H; simpl.
    match goal with
    | Hl : loopFrom _ _ _ _ _ = _ |- _ =>
        apply (selectionOk_loopFrom _ _ _ _ _ _ _ _ Hl);
        now apply selectionOk_settleItem
    end.
  - exec_paths H; simpl. apply selectionOk_mapItems; [|exact Hs].
    intros i. apply id_replaceData.
  - exec_paths H; simpl; [|exact Hs]. unfold startRefine.
    destruct (findItem _ _) as [it|]; [destruct (data it)|]; exact Hs.
  - exec_paths H; simpl. unfold finishRefine. destruct outcome; simpl; [|exact Hs].
    apply selectionOk_mapItems; [|exact Hs]. intros i. apply id_replaceData.
  - exec_paths H; simpl. reflexivity.
  - exec_paths H; simpl. unfold selectionOk. simpl. apply in_map.
    eapply nth_error_In; eassumption.
  - exec_paths H; simpl. exact Hs.
Qed.

Lemma reachable_selectionOk (s : Sys) :
  reachable s -> selectionOk (state (store s)).
Proof.
  intros [es H].
  apply (run_invariant (fun s => selectionOk (state (store s)))
                       exec_selectionOk es init s H).
  reflexivity.
Qed.

Lemma selectionOk_none (a : AnalysisState) :
  selectionOk a -> (activeItemId a = None <-> items a = []).
Proof.
  unfold selectionOk. destruct (activeItemId a) as [x|]; intros Hs.
  - split; [discriminate|]. intros E. rewrite E in Hs. destruct Hs.
  - tauto.
Qed.

(** The card shown is always that of the selected unit: in every state
    the application reaches, the selection is missing exactly when the
    queue is empty, and the unit [BatchResults] shows is the one whose
    id is [activeItemId]; its fallback to the first unit of the queue is
    never what decides. *)
Theorem active_unit_is_selected (s : Sys) :
  reachable s ->
  (activeItemId (state (store s)) = None <-> items (state (store s)) = []) /\
  (forall item, activeItem (state (store s)) = Some item ->
                activeItemId (state (store s)) = Some (id item)).
Proof.
  intros Hr. pose proof (reachable_selectionOk s Hr) as Hs.
  split; [now apply selectionOk_none|].
  unfold selectionOk in Hs. unfold activeItem.
  destruct (activeItemId (state (store s))) as [a|].
  - intros item. destruct (findItem a (items (state (store s)))) as [it|] eqn:E.
    + intros H. injection H as <-.
      destruct (findItem_id _ _ _ E) as [-> _]. reflexivity.
    + exfalso. apply in_map_iff in Hs. destruct Hs as [i [Hi Hin]].
      unfold findItem in E. apply (find_none _ _ E) in Hin.
      rewrite Hi, String.eqb_refl in Hin. discriminate.
  - rewrite Hs. discriminate.
Qed.

Lemma active_unit_is_selected_witness :
  activeItem (state (store (stateAfter refineDuringBatch)))
  = Some {| id := "a1b2"; file := jpeg "a.jpg"; status := Completed;
            data := Some (sampleMetadata "A2" ["cat"]); error := None |} /\
  activeItemId (state (store (stateAfter refineDuringBatch))) = Some "a1b2".
Proof.
  assert (H : activeItem (state (store (stateAfter refineDuringBatch)))
              = Some {| id := "a1b2"; file := jpeg "a.jpg"; status := Completed;
                        data := Some (sampleMetadata "A2" ["cat"]);
                        error := None |}).
  { vm_compute. reflexivity. }
  split; [exact H|].
  refine (proj2 (active_unit_is_selected (stateAfter refineDuringBatch) _) _ H).
  exists refineDuringBatch. vm_compute. reflexivity.
Defined.

Lemma appendItems_None (newItems : list BatchItem) (prev : AnalysisState) :
  appendItems newItems prev = None <->
  newItems = [] /\ (activeItemId prev = None \/ activeItemId prev = Some "").
Proof.
  unfold appendItems.
  destruct (activeItemId prev) as [x|]; [destruct x as [|c x]; simpl|];
    destruct newItems; split; try discriminate; auto;
    try (intros [Hn _]; discriminate Hn);
    intros [_ [Hn | Hn]]; discriminate Hn.
Qed.

(** The state updater of [handleFilesSelect] reads [newItems[0].id]
    when no unit is selected.  For a selection that is being prepared,
    the updater throws exactly when the preparation leaves no file
    (every selected file was a PDF that gave no page image) and the
    queue is empty or the selected id is the empty string; otherwise the
    new units are appended. *)
Theorem handleFilesSelect_throws_iff (s : Sys) (r : nat) (R : Runner)
        (env : PdfEnv) (random : nat -> string) :
  reachable s ->
  nth_error (runners s) r = Some R ->
  pc R = Preparing ->
  (exec (FilesPrepared r env random) s = None <->
   prepareFiles env (selected R) = [] /\
   (items (state (store s)) = [] \/
    activeItemId (state (store s)) = Some "")).
Proof.
  intros Hr HR Hpc.
  pose proof (selectionOk_none _ (reachable_selectionOk s Hr)) as Hnone.
  assert (Hnil : createItems random 0 (prepareFiles env (selected R)) = []
                 <-> prepareFiles env (selected R) = []).
  { split; intros E.
    - apply length_zero_iff_nil.
      rewrite <- (createItems_length random _ 0), E. reflexivity.
    - rewrite E. reflexivity. }
  unfold exec. cbv zeta. rewrite HR, Hpc.
  destruct (appendItems _ _) as [a1|] eqn:Ea.
  - destruct (loopFrom _ _ _ _ _) as [[a2 p] cs]. split; [discriminate|].
    intros [Hf Hor]. exfalso.
    assert (Hthrow : appendItems (createItems random 0 (prepareFiles env (selected R)))
                                 (state (store s)) = None).
    { apply appendItems_None. split; [now apply Hnil|].
      destruct Hor as [E | E]; [left; now apply Hnone | now right]. }
    congruence.
  - split; [|reflexivity]. intros _.
    apply appendItems_None in Ea. destruct Ea as [En Ha].
    split; [now apply Hnil|].
    destruct Ha as [E | E]; [left; now apply Hnone | now right].
Qed.

Lemma handleFilesSelect_throws_iff_witness :
  exec (FilesPrepared 0 (browser 3 NoBlob) draws)
       (stateAfter [SelectFiles [report]]) = None.
Proof.
  apply (handleFilesSelect_throws_iff
           (stateAfter [SelectFiles [report]]) 0
           {| captured := initialConfig; selected := [report];
              itemsToProcess := []; pc := Preparing |}).
  - exists [SelectFiles [report]]. vm_compute. reflexivity.
  - reflexivity.
  - reflexivity.
  - split; [vm_compute; reflexivity | left; reflexivity].
Defined.

(** ** App.tsx: what the queue keeps *)

Lemma file_settleMark (item : BatchItem) (o : Result StockMetadata) (i : BatchItem) :
  file (settleMark item o i) = file i.
Proof. destruct o; simpl; [apply file_markCompleted | apply file_markError]. Qed.

Lemma run_issued (es : list Event) (s s' : Sys) :
  run es s = Some s' -> exists l, issued s' = issued s ++ l.
Proof.
  revert s. induction es as [|e es IH]; intros s H; simpl in H.
  - injection H as <-. exists []. now rewrite app_nil_r.
  - destruct (exec e s) as [s1|] eqn:E; [|discriminate].
    destruct (IH s1 H) as [l Hl]. destruct (exec_issued _ _ _ E) as [l' Hl'].
    exists (l' ++ l). now rewrite Hl, Hl', app_assoc.
Qed.

(** A unit that is completed or in error is neither the one a runner
    awaits nor the one it visits next. *)
Lemma terminal_not_awaited (s : Sys) (r : nat) (R : Runner) (j : nat) :
  Inv s ->
  nth_error (runners s) r = Some R ->
  pc R = Awaiting j ->
  forall k u i,
    nth_error (itemsToProcess R) k = Some u ->
    k = j \/ k = S j ->
    In i (items (state (store s))) ->
    terminal (status i) = true ->
    id i <> id u.
Proof.
  intros I HR Hpc k u i Hu Hk Hin Ht E.
  destruct (inv_owner I i Hin) as [r0 [R0 [k0 [u0 [HR0 [Hu0 [Hid Hex]]]]]]].
  assert (Hsame : r0 = r /\ k0 = k).
  { apply (inv_inj I _ _ _ _ _ _ _ _ HR0 Hu0 HR Hu). congruence. }
  destruct Hsame as [-> ->].
  assert (R0 = R) by congruence. subst R0.
  rewrite Hpc in Hex. destruct Hex as [_ [Heq Hgt]].
  destruct Hk as [-> | ->].
  - rewrite (Heq eq_refl) in Ht. discriminate Ht.
  - rewrite (Hgt (Nat.lt_succ_diag_r _)) in Ht. discriminate Ht.
Qed.

(** The queue after an event other than a reset: the old units, each
    updated in place by a function that keeps its id and its file,
    followed by the new units; when ids are distinct the function keeps
    the status and the error message of the units that are completed or
    in error. *)
Lemma exec_items_shape (e : Event) (s s' : Sys) :
  exec e s = Some s' -> e <> Clear ->
  exists g l,
    items (state (store s')) = map g (items (state (store s))) ++ l /\
    (forall i, id (g i) = id i /\ file (g i) = file i) /\
    (Inv s -> NoDup (issued s') ->
     forall i, In i (items (state (store s))) -> terminal (status i) = true ->
               status (g i) = status i /\ error (g i) = error i).
Proof.
  intros H Hne.
  assert (Hsame : items (state (store s')) = items (state (store s)) ->
                  exists g l,
                    items (state (store s')) = map g (items (state (store s))) ++ l /\
                    (forall i, id (g i) = id i /\ file (g i) = file i) /\
                    (Inv s -> NoDup (issued s') ->
                     forall i, In i (items (state (store s))) ->
                               terminal (status i) = true ->
                               status (g i) = status i /\ error (g i) = error i)).
  { intros ->. exists (fun i => i), []. rewrite map_id, app_nil_r. auto. }
  assert (Hdata : forall x m,
             items (state (store s')) = map (replaceData x m) (items (state (store s))) ->
             exists g l,
               items (state (store s')) = map g (items (state (store s))) ++ l /\
               (forall i, id (g i) = id i /\ file (g i) = file i) /\
               (Inv s -> NoDup (issued s') ->
                forall i, In i (items (state (store s))) ->
                          terminal (status i) = true ->
                          status (g i) = status i /\ error (g i) = error i)).
  { intros x m ->. exists (replaceData x m), []. rewrite app_nil_r.
    split; [reflexivity|]. split.
    - intros i. split; [apply id_replaceData | apply file_replaceData].
    - intros _ _ i _ _. unfold replaceData.
      destruct (String.eqb (id i) x); auto. }
  destruct e.
  - (* SelectFiles *) apply Hsame. exec_paths H; reflexivity.
  - (* FilesPrepared *)
    exec_paths H. simpl.
    match goal with
    | Ha : appendItems ?new _ = Some ?a1, Hl : loopFrom _ _ _ _ _ = _ |- _ =>
        pose proof (items_appendItems _ _ _ Ha) as Hits;
        unfold loopFrom in Hl; destruct new as [|first rest] eqn:En;
        simpl in Hl; injection Hl as <- _ _; simpl; rewrite Hits
    end.
    + exists (fun i => i), []. rewrite map_id. auto.
    + exists (markProcessing (id first)), (map (markProcessing (id first)) (first :: rest)).
      rewrite map_app. split; [reflexivity|]. split.
      * intros i. split; [apply id_markProcessing | apply file_markProcessing].
      * intros I Hnd i Hi _. rewrite markProcessing_other; [auto|].
        intros E. apply (NoDup_app_disjoint _ _ (id first) Hnd).
        -- rewrite <- E. apply (items_issued _ _ _ _ I i Hi).
        -- simpl. now left.
  - (* GenerationSettled *)
    exec_paths H. simpl.
    match goal with
    | Hr : nth_error (runners s) _ = Some ?R, Hp : pc _ = Awaiting ?j,
      Hl : loopFrom _ _ _ _ _ = _ |- _ =>
        pose proof (fun I => terminal_not_awaited s _ _ _ I Hr Hp) as Hkeep;
        rewrite settleItem_mapItems in Hl; unfold loopFrom in Hl;
        destruct (nth_error (itemsToProcess R) (S j)) as [next|] eqn:En;
        injection Hl as <- _ _; simpl
    end.
    + exists (fun i => markProcessing (id next) (settleMark b outcome i)), [].
      rewrite app_nil_r, map_map. split; [reflexivity|]. split.
      * intros i. rewrite id_markProcessing, file_markProcessing.
        split; [apply id_settleMark | apply file_settleMark].
      * intros I _ i Hin Ht.
        rewrite settleMark_other, markProcessing_other; auto.
        -- apply (Hkeep I _ _ i En); auto.
        -- match goal with
           | Hi : nth_error (itemsToProcess _) _ = Some b |- _ =>
               apply (Hkeep I _ _ i Hi); auto
           end.
    + exists (settleMark b outcome), [].
      rewrite app_nil_r. split; [reflexivity|]. split.
      * intros i. split; [apply id_settleMark | apply file_settleMark].
      * intros I _ i Hin Ht. rewrite settleMark_other; auto.
        match goal with
        | Hi : nth_error (itemsToProcess _) _ = Some b |- _ =>
            apply (Hkeep I _ _ i Hi); auto
        end.
  - (* UpdateItem *)
    exec_paths H. simpl. eapply Hdata. reflexivity.
  - (* RefineItem *)
    apply Hsame. exec_paths H; [|reflexivity]. unfold startRefine.
    destruct (findItem _ _) as [it|]; [destruct (data it)|]; reflexivity.
  - (* RefineSettled *)
    exec_paths H. unfold finishRefine. destruct outcome; simpl.
    + eapply Hdata. reflexivity.
    + apply Hsame. reflexivity.
  - (* Clear *) now contradiction Hne.
  - (* SelectItem *) apply Hsame. exec_paths H; reflexivity.
  - (* ConfigChange *) apply Hsame. exec_paths H; reflexivity.
Qed.

Lemma run_items_shape (es : list Event) (s s' : Sys) :
  run es s = Some s' ->
  Forall (fun e => e <> Clear) es ->
  exists g l,
    items (state (store s')) = map g (items (state (store s))) ++ l /\
    (forall i, id (g i) = id i /\ file (g i) = file i) /\
    (Inv s -> NoDup (issued s') ->
     forall i, In i (items (state (store s))) -> terminal (status i) = true ->
               status (g i) = status i /\ error (g i) = error i).
Proof.
  revert s. induction es as [|e es IH]; intros s H Hes; simpl in H.
  - injection H as <-. exists (fun i => i), []. rewrite map_id, app_nil_r. auto.
  - destruct (exec e s) as [s1|] eqn:E; [|discriminate].
    inversion Hes as [|? ? He Hes']; subst.
    destruct (exec_items_shape e s s1 E He) as [g1 [l1 [H1 [Hg1 Ht1]]]].
    destruct (IH s1 H Hes') as [g2 [l2 [H2 [Hg2 Ht2]]]].
    exists (fun i => g2 (g1 i)), (map g2 l1 ++ l2).
    split; [|split].
    + now rewrite H2, H1, map_app, map_map, app_assoc.
    + intros i. destruct (Hg1 i) as [Hi Hf]. destruct (Hg2 (g1 i)) as [Hi' Hf'].
      split; congruence.
    + intros I Hnd i Hin Ht.
      assert (Hnd1 : NoDup (issued s1)).
      { destruct (run_issued es s1 s' H) as [l Hl]. rewrite Hl in Hnd.
        now apply NoDup_app_remove_r in Hnd. }
      destruct (Ht1 I Hnd1 i Hin Ht) as [Hs1 He1].
      destruct (Ht2 (exec_Inv e s s1 E Hnd1 I) Hnd (g1 i)) as [Hs2 He2].
      * rewrite H1. apply in_or_app. left. now apply in_map.
      * now rewrite Hs1.
      * split; congruence.
Qed.

(** Until it is reset the queue only grows, and in place: along every
    schedule without a reset, from any state, the unit at a position of
    the queue stays at that position with its id and its file; new units
    come after it. *)
Theorem queue_grows_in_place (es : list Event) (s s' : Sys) (k : nat)
        (i : BatchItem) :
  run es s = Some s' ->
  Forall (fun e => e <> Clear) es ->
  nth_error (items (state (store s))) k = Some i ->
  exists i',
    nth_error (items (state (store s'))) k = Some i' /\
    id i' = id i /\ file i' = file i.
Proof.
  intros H Hes Hk.
  destruct (run_items_shape es s s' H Hes) as [g [l [Hits [Hg _]]]].
  exists (g i). destruct (Hg i) as [Hi Hf]. split; [|now split].
  rewrite Hits, nth_error_app1, nth_error_map, Hk; [reflexivity|].
  rewrite length_map. apply nth_error_Some. congruence.
Qed.

Lemma queue_grows_in_place_witness :
  exists i',
    nth_error (items (state (store (stateAfter refineDuringBatch)))) 0 = Some i' /\
    id i' = "a1b2" /\ file i' = jpeg "a.jpg".
Proof.
  apply (queue_grows_in_place
           [GenerationSettled 0 (inl (sampleMetadata "A" ["cat"]));
            RefineItem "warmer light" "1:1";
            RefineSettled 0 (inl (sampleMetadata "A2" ["cat"]))]
           (stateAfter threeAdmitted) (stateAfter refineDuringBatch) 0
           {| id := "a1b2"; file := jpeg "a.jpg"; status := Processing;
              data := None; error := None |}).
  - vm_compute. reflexivity.
  - repeat constructor; discriminate.
  - vm_compute. reflexivity.
Defined.

(** A unit that is completed or in error stays so: along every schedule
    without a reset that starts in a reachable state and keeps ids
    pairwise distinct, such a unit keeps its status and its error
    message (later generation calls, edits and refinements do not touch
    them). *)
Theorem settled_units_stay_settled (es : list Event) (s s' : Sys) (k : nat)
        (i : BatchItem) :
  reachable s ->
  run es s = Some s' ->
  NoDup (issued s') ->
  Forall (fun e => e <> Clear) es ->
  nth_error (items (state (store s))) k = Some i ->
  terminal (status i) = true ->
  exists i',
    nth_error (items (state (store s'))) k = Some i' /\
    id i' = id i /\ status i' = status i /\ error i' = error i.
Proof.
  intros Hr H Hnd Hes Hk Ht.
  destruct (run_items_shape es s s' H Hes) as [g [l [Hits [Hg Hkeep]]]].
  assert (Hnd0 : NoDup (issued s)).
  { destruct (run_issued es s s' H) as [l0 Hl]. rewrite Hl in Hnd.
    now apply NoDup_app_remove_r in Hnd. }
  destruct (Hkeep (reachable_Inv s Hr Hnd0) Hnd i (nth_error_In _ _ Hk) Ht)
    as [Hs He].
  exists (g i). destruct (Hg i) as [Hi _]. split; [|now repeat split].
  rewrite Hits, nth_error_app1, nth_error_map, Hk; [reflexivity|].
  rewrite length_map. apply nth_error_Some. congruence.
Qed.

Lemma settled_units_stay_settled_witness :
  exists i',
    nth_error (items (state (store (stateAfter refineDuringBatch)))) 0 = Some i' /\
    id i' = "a1b2" /\ status i' = Completed /\ error i' = None.
Proof.
  apply (settled_units_stay_settled
           [RefineItem "warmer light" "1:1";
            RefineSettled 0 (inl (sampleMetadata "A2" ["cat"]))]
           (stateAfter
              [SelectFiles [jpeg "a.jpg"; jpeg "b.jpg"; jpeg "c.jpg"];
               FilesPrepared 0 noPdfJs draws;
               GenerationSettled 0 (inl (sampleMetadata "A" ["cat"]))])
           (stateAfter refineDuringBatch) 0
           {| id := "a1b2"; file := jpeg "a.jpg"; status := Completed;
              data := Some (sampleMetadata "A" ["cat"]); error := None |}).
  - exists [SelectFiles [jpeg "a.jpg"; jpeg "b.jpg"; jpeg "c.jpg"];
            FilesPrepared 0 noPdfJs draws;
            GenerationSettled 0 (inl (sampleMetadata "A" ["cat"]))].
    vm_compute. reflexivity.
  - vm_compute. reflexivity.
  - distinct_strings.
  - repeat constructor; discriminate.
  - vm_compute. reflexivity.
  - reflexivity.
Defined.

(** ** App.tsx: one generation call per unit *)

Lemma NoDup_by_caller (cs : list Call) :
  (forall r, NoDup (map callItem (callsOf r cs))) ->
  (forall c1 c2, In c1 cs -> In c2 cs -> callItem c1 = callItem c2 ->
                 caller c1 = caller c2) ->
  NoDup (map callItem cs).
Proof.
  induction cs as [|c cs IH]; intros Hper Hcross; simpl; constructor.
  - intros Hin. apply in_map_iff in Hin. destruct Hin as [c' [E Hc']].
    assert (Hsame : caller c' = caller c).
    { apply Hcross; [now right | now left | exact E]. }
    specialize (Hper (caller c)). unfold callsOf in Hper. simpl in Hper.
    rewrite Nat.eqb_refl in Hper. simpl in Hper.
    inversion Hper as [|? ? Hnin _]; subst. apply Hnin.
    apply in_map_iff. exists c'. split; [exact E|].
    apply filter_In. split; [exact Hc'|]. now apply Nat.eqb_eq.
  - apply IH.
    + intros r. specialize (Hper r). unfold callsOf in *. simpl in Hper.
      destruct (Nat.eqb (caller c) r); [|exact Hper].
      simpl in Hper. now inversion Hper.
    + intros c1 c2 H1 H2. apply Hcross; now right.
Qed.

Lemma batch_ids_distinct (s : Sys) (r : nat) (R : Runner) :
  Inv s -> nth_error (runners s) r = Some R ->
  NoDup (map id (itemsToProcess R)).
Proof.
  intros I HR. apply NoDup_nth_error. intros k k' Hk E.
  rewrite length_map in Hk. rewrite !nth_error_map in E.
  destruct (nth_error (itemsToProcess R) k) as [u|] eqn:Hu;
    [|apply nth_error_None in Hu; lia].
  destruct (nth_error (itemsToProcess R) k') as [u'|] eqn:Hu'; [|discriminate E].
  simpl in E. injection E as E.
  apply (inv_inj I r R k u r R k' u' HR Hu HR Hu' E).
Qed.

(** Every generation call is for an item of its caller's batch. *)
Lemma call_of_batch (s : Sys) (c : Call) :
  reachable s -> In c (calls s) ->
  exists R k u,
    nth_error (runners s) (caller c) = Some R /\
    nth_error (itemsToProcess R) k = Some u /\
    id u = callItem c.
Proof.
  intros Hr Hc.
  destruct (reachable_callsFromClosures s Hr c Hc) as [R [HR _]].
  pose proof (reachable_callsInOrder s Hr (caller c) R HR) as O.
  assert (Hin : In c (callsOf (caller c) (calls s))).
  { apply filter_In. split; [exact Hc | apply Nat.eqb_refl]. }
  rewrite O in Hin. apply in_map_iff in Hin. destruct Hin as [u [Eu Hu]].
  assert (Hu' : In u (itemsToProcess R)).
  { rewrite <- (firstn_skipn (dispatched R) (itemsToProcess R)).
    apply in_or_app. now left. }
  apply In_nth_error in Hu'. destruct Hu' as [k Hk].
  exists R, k, u. rewrite <- Eu. auto.
Qed.

(** No unit is sent to the model twice: in every state reached with
    pairwise distinct ids, the generation calls made so far, by all
    runners together, are for pairwise distinct units. *)
Theorem no_unit_generated_twice (s : Sys) :
  reachable s ->
  NoDup (issued s) ->
  NoDup (map callItem (calls s)).
Proof.
  intros Hr Hnd. pose proof (reachable_Inv s Hr Hnd) as I.
  apply NoDup_by_caller.
  - intros r. destruct (nth_error (runners s) r) as [R|] eqn:HR.
    + rewrite (reachable_callsInOrder s Hr r R HR), map_map. simpl.
      pose proof (batch_ids_distinct s r R I HR) as Hb.
      rewrite <- (firstn_skipn (dispatched R) (itemsToProcess R)), map_app in Hb.
      now apply NoDup_app_remove_r in Hb.
    + destruct (callsOf r (calls s)) as [|c l] eqn:E; [constructor|].
      exfalso.
      assert (Hin : In c (callsOf r (calls s))) by (rewrite E; now left).
      apply filter_In in Hin. destruct Hin as [Hc Hcaller].
      apply Nat.eqb_eq in Hcaller.
      destruct (reachable_callsFromClosures s Hr c Hc) as [R [HR' _]].
      congruence.
  - intros c1 c2 H1 H2 E.
    destruct (call_of_batch s c1 Hr H1) as [R1 [k1 [u1 [HR1 [Hu1 E1]]]]].
    destruct (call_of_batch s c2 Hr H2) as [R2 [k2 [u2 [HR2 [Hu2 E2]]]]].
    apply (inv_inj I _ _ _ _ _ _ _ _ HR1 Hu1 HR2 Hu2). congruence.
Qed.

Lemma no_unit_generated_twice_witness :
  NoDup (map callItem (calls (stateAfter refineDuringBatch))).
Proof.
  apply no_unit_generated_twice.
  - exists refineDuringBatch. vm_compute. reflexivity.
  - distinct_strings.
Defined.

(** ** App.tsx: a batch runs to its end *)

Lemma exec_GenerationSettled_issued (r : nat) (o : Result StockMetadata)
      (s s' : Sys) :
  exec (GenerationSettled r o) s = Some s' -> issued s' = issued s.
Proof. intros H. exec_paths H. reflexivity. Qed.

Lemma run_GenerationSettled_issued (r : nat) (os : list (Result StockMetadata))
      (s s' : Sys) :
  run (map (GenerationSettled r) os) s = Some s' -> issued s' = issued s.
Proof.
  revert s. induction os as [|o os IH]; intros s H; cbn [map run] in H.
  - now injection H as <-.
  - destruct (exec (GenerationSettled r o) s) as [s1|] eqn:E; [|discriminate].
    rewrite (IH s1 H). now apply exec_GenerationSettled_issued in E.
Qed.

(** The step on which a runner leaves its loop resets [isProcessing]. *)
Lemma exec_GenerationSettled_finished (r : nat) (o : Result StockMetadata)
      (s s' : Sys) (R' : Runner) :
  exec (GenerationSettled r o) s = Some s' ->
  nth_error (runners s') r = Some R' ->
  pc R' = Finished ->
  isProcessing (state (store s')) = false.
Proof.
  intros H. exec_paths H. simpl.
  match goal with
  | Hr : nth_error (runners s) _ = Some _, Hl : loopFrom _ _ _ _ _ = _ |- _ =>
      rewrite (nth_error_setNth_eq _ _ _ _ Hr); intros HR' Hpc;
      injection HR' as <-; simpl in Hpc;
      destruct (loopFrom_flag _ _ _ _ _ _ _ _ Hl) as [[E _] | [_ [Hf _]]];
      [congruence | exact Hf]
  end.
Qed.

Lemma run_reachable (es : list Event) (s s' : Sys) :
  reachable s -> run es s = Some s' -> reachable s'.
Proof.
  intros [es0 H0] H. exists (es0 ++ es). now rewrite run_app, H0.
Qed.

(** A batch runs to its end: from a reachable state with pairwise
    distinct ids in which a runner awaits the call of one of its items,
    once as many calls have settled as items remain, with whatever
    outcomes, [isProcessing] is reset and every unit of the batch that
    is in the queue is completed or in error. *)
Theorem batch_runs_to_its_end (s : Sys) (r : nat) (R : Runner) (j : nat)
        (item : BatchItem) (os : list (Result StockMetadata)) :
  reachable s ->
  NoDup (issued s) ->
  nth_error (runners s) r = Some R ->
  pc R = Awaiting j ->
  nth_error (itemsToProcess R) j = Some item ->
  List.length os = List.length (itemsToProcess R) - j ->
  exists s',
    run (map (GenerationSettled r) os) s = Some s' /\
    isProcessing (state (store s')) = false /\
    forall i, In i (items (state (store s'))) ->
              In (id i) (map id (itemsToProcess R)) ->
              terminal (status i) = true.
Proof.
  intros Hr Hnd HR Hpc Hitem Hlen.
  destruct (run_drains os s r R j item HR Hpc Hitem Hlen)
    as [s' [R' [Hrun [HR' [Hpc' [Hits _]]]]]].
  exists s'. split; [exact Hrun|]. split.
  - destruct (exists_last (l := os)) as [os0 [o Eo]].
    { intros ->. simpl in Hlen.
      assert (j < List.length (itemsToProcess R))
        by (apply nth_error_Some; congruence). lia. }
    rewrite Eo, map_app, run_app in Hrun.
    destruct (run (map (GenerationSettled r) os0) s) as [s1|]; [|discriminate].
    cbn [map run] in Hrun.
    destruct (exec (GenerationSettled r o) s1) as [s2|] eqn:E; [|discriminate].
    injection Hrun as ->.
    apply (exec_GenerationSettled_finished r o s1 s' R' E HR' Hpc').
  - assert (I : Inv s').
    { apply reachable_Inv; [apply (run_reachable _ s s' Hr Hrun)|].
      now rewrite (run_GenerationSettled_issued r os s s' Hrun). }
    intros i Hin Hid. apply in_map_iff in Hid. destruct Hid as [u [Eu Hu]].
    apply In_nth_error in Hu. destruct Hu as [k Hk]. rewrite <- Hits in Hk.
    destruct (inv_owner I i Hin) as [r0 [R0 [k0 [u0 [HR0 [Hu0 [Hid0 Hex]]]]]]].
    assert (Hsame : r0 = r /\ k0 = k).
    { apply (inv_inj I _ _ _ _ _ _ _ _ HR0 Hu0 HR' Hk). congruence. }
    destruct Hsame as [-> ->].
    assert (R0 = R') by congruence. subst R0.
    rewrite Hpc' in Hex. exact Hex.
Qed.

Lemma batch_runs_to_its_end_witness :
  exists s',
    run (map (GenerationSettled 0)
             [inl (sampleMetadata "A" ["cat"]);
              inr (newError "quota");
              inl (sampleMetadata "C" ["dog"])])
        (stateAfter threeAdmitted) = Some s' /\
    isProcessing (state (store s')) = false /\
    forall i, In i (items (state (store s'))) ->
              In (id i)
                 (map id (createItems draws 0
                            [jpeg "a.jpg"; jpeg "b.jpg"; jpeg "c.jpg"])) ->
              terminal (status i) = true.
Proof.
  apply (batch_runs_to_its_end
           (stateAfter threeAdmitted) 0
           {| captured := initialConfig;
              selected := [jpeg "a.jpg"; jpeg "b.jpg"; jpeg "c.jpg"];
              itemsToProcess := createItems draws 0
                                  [jpeg "a.jpg"; jpeg "b.jpg"; jpeg "c.jpg"];
              pc := Awaiting 0 |}
           0
           {| id := "a1b2"; file := jpeg "a.jpg"; status := Pending;
              data := None; error := None |}).
  - exists threeAdmitted. vm_compute. reflexivity.
  - distinct_strings.
  - reflexivity.
  - reflexivity.
  - reflexivity.
  - reflexivity.
Defined.

(** ** App.tsx and ConfigPanel.tsx: the configuration while busy *)

(** While the application is busy (a batch is processed, files are
    prepared or a refinement is pending) no event changes the target
    model, the technical-settings switch or the keyword density of the
    shared configuration; the aspect ratio changes only when a
    refinement succeeds, and then to the ratio that refinement asked
    for. *)
Theorem busy_keeps_configuration (e : Event) (s s' : Sys) :
  exec e s = Some s' ->
  isProcessing (state (store s)) || isRefining (store s)
  || isPreparingFiles (store s) = true ->
  targetModel (promptConfig (store s')) = targetModel (promptConfig (store s)) /\
  includeTechnical (promptConfig (store s'))
  = includeTechnical (promptConfig (store s)) /\
  keywordDensity (promptConfig (store s'))
  = keywordDensity (promptConfig (store s)) /\
  (aspectRatio (promptConfig (store s')) = aspectRatio (promptConfig (store s)) \/
   exists k q metadata,
     e = RefineSettled k (inl metadata) /\
     nth_error (refinements s) k = Some q /\
     aspectRatio (promptConfig (store s')) = newAspectRatio q).
Proof.
  intros H Hbusy.
  destruct e; exec_paths H; simpl;
    try (split; [|split; [|split]]; auto; fail).
  - unfold startRefine.
    destruct (findItem _ _) as [it|]; [destruct (data it)|]; simpl;
      (split; [|split; [|split]]); auto.
  - unfold finishRefine. destruct outcome as [m|err]; simpl;
      (split; [|split; [|split]]); auto.
    right.
    match goal with
    | Hq : nth_error (refinements s) ?k = Some ?q |- _ =>
        exists k, q, m; split; [reflexivity|]; split; [exact Hq | reflexivity]
    end.
  - congruence.
Qed.

Lemma busy_keeps_configuration_witness :
  let s := stateAfter refineRequested in
  let s' := stateAfter (refineRequested
                          ++ [RefineSettled 0 (inl (sampleMetadata "A2" ["cat"]))]) in
  targetModel (promptConfig (store s')) = targetModel (promptConfig (store s)) /\
  includeTechnical (promptConfig (store s'))
  = includeTechnical (promptConfig (store s)) /\
  keywordDensity (promptConfig (store s'))
  = keywordDensity (promptConfig (store s)) /\
  (aspectRatio (promptConfig (store s')) = aspectRatio (promptConfig (store s)) \/
   exists k q metadata,
     RefineSettled 0 (inl (sampleMetadata "A2" ["cat"]))
     = RefineSettled k (inl metadata) /\
     nth_error (refinements s) k = Some q /\
     aspectRatio (promptConfig (store s')) = newAspectRatio q).
Proof.
  intros s s'.
  apply (busy_keeps_configuration
           (RefineSettled 0 (inl (sampleMetadata "A2" ["cat"]))) s s').
  - vm_compute. reflexivity.
  - reflexivity.
Defined.

(** ** App.tsx and ResultCard.tsx: an edit of the shown unit *)

(** An edit made in the result card ([onUpdate]) changes one unit only:
    in a reachable state with pairwise distinct ids, the edit is
    enabled exactly when a completed unit is shown; that unit gets the
    new metadata and keeps its id, file, status and error message, at
    its position; every other unit, the flags, the selection, the
    configuration, the runners and the calls are the same. *)
Theorem edit_changes_only_the_shown_unit (s s' : Sys) (newData : StockMetadata) :
  reachable s ->
  NoDup (issued s) ->
  exec (UpdateItem newData) s = Some s' ->
  exists item d,
    resultCard (state (store s)) = Some (item, d) /\
    s' = setState s (handleUpdateItem (id item) newData (state (store s))) /\
    isProcessing (state (store s')) = isProcessing (state (store s)) /\
    activeItemId (state (store s')) = activeItemId (state (store s)) /\
    forall k a,
      nth_error (items (state (store s))) k = Some a ->
      (a = item ->
       nth_error (items (state (store s'))) k
       = Some {| id := id item; file := file item; status := status item;
                 data := Some newData; error := error item |}) /\
      (a <> item -> nth_error (items (state (store s'))) k = Some a).
Proof.
  intros Hr Hnd H. pose proof (reachable_Inv s Hr Hnd) as I.
  simpl in H.
  destruct (resultCard (state (store s))) as [[item d]|] eqn:Ec; [|discriminate].
  injection H as <-. exists item, d. split; [reflexivity|].
  split; [reflexivity|]. split; [reflexivity|]. split; [reflexivity|].
  intros k a Hk. simpl. rewrite nth_error_map, Hk. simpl.
  destruct (resultCard_item _ _ _ Ec) as [Hact _].
  apply activeItem_In in Hact.
  unfold replaceData. split.
  - intros ->. now rewrite String.eqb_refl.
  - intros Hne. destruct (String.eqb_spec (id a) (id item)) as [E | _];
      [|reflexivity].
    exfalso. apply Hne.
    apply (NoDup_id_eq (items (state (store s))) a item (inv_nodup I)
                       (nth_error_In _ _ Hk) Hact E).
Qed.

Lemma edit_changes_only_the_shown_unit_witness :
  exists item d,
    resultCard (state (store (stateAfter refineDuringBatch))) = Some (item, d) /\
    stateAfter (refineDuringBatch ++ [UpdateItem (sampleMetadata "B" ["dog"])])
    = setState (stateAfter refineDuringBatch)
               (handleUpdateItem (id item) (sampleMetadata "B" ["dog"])
                                 (state (store (stateAfter refineDuringBatch)))).
Proof.
  destruct (edit_changes_only_the_shown_unit
              (stateAfter refineDuringBatch)
              (stateAfter (refineDuringBatch
                             ++ [UpdateItem (sampleMetadata "B" ["dog"])]))
              (sampleMetadata "B" ["dog"]))
    as [item [d [Hc [Hs _]]]].
  - exists refineDuringBatch. vm_compute. reflexivity.
  - distinct_strings.
  - vm_compute. reflexivity.
  - exists item, d. split; [exact Hc | exact Hs].
Defined.

(** ** geminiService.ts and App.tsx: what a generation call leaves in the queue *)

(** The outcome of [generateStockMetadata] as the queue shows it: in a
    reachable state with pairwise distinct ids, when the call a runner
    awaits for a unit returns what the service makes of the backend's
    response, the unit is completed with the parsed metadata stamped
    with the target model of the runner's captured configuration (its
    [used_model] is that model, its other fields are the parsed ones),
    or it is in error with the service's own message and no result; the
    fallback message of [processBatchQueue] is never the one stored. *)
Theorem generation_outcome_in_queue (s s' : Sys) (r : nat) (R : Runner)
        (j : nat) (item : BatchItem) (response : BackendResponse) :
  reachable s ->
  NoDup (issued s) ->
  nth_error (runners s) r = Some R ->
  pc R = Awaiting j ->
  nth_error (itemsToProcess R) j = Some item ->
  exec (GenerationSettled r
          (generateStockMetadata (file item) (captured R) response)) s
  = Some s' ->
  forall i, In i (items (state (store s'))) ->
            id i = id item ->
            match response with
            | ResponseText metadata =>
                status i = Completed /\
                error i = None /\
                exists d,
                  data i = Some d /\
                  used_model d = Some (targetModel (captured R)) /\
                  title d = title metadata /\
                  description d = description metadata /\
                  ai_prompt d = ai_prompt metadata /\
                  keywords d = keywords metadata /\
                  category d = category metadata /\
                  technical_settings d = technical_settings metadata
            | _ =>
                status i = Error /\
                data i = None /\
                error i = Some "Gagal menganalisis file. Pastikan API Key valid dan file tidak rusak."
            end.
Proof.
  intros Hr Hnd HR Hpc Hitem H i Hin Hid.
  pose proof (reachable_Inv s Hr Hnd) as I.
  remember (generateStockMetadata (file item) (captured R) response) as o eqn:Eo.
  destruct (loopFrom r (captured R) (itemsToProcess R) (S j)
                     (settleItem item o (state (store s))))
    as [[a2 p] cs] eqn:L.
  rewrite (exec_GenerationSettled s r R j item o a2 p cs HR Hpc Hitem L) in H.
  injection H as <-. simpl in Hin.
  assert (Hshape : exists i0, In i0 (items (state (store s))) /\
                              i = settleMark item o i0).
  { rewrite settleItem_mapItems in L. unfold loopFrom in L.
    destruct (nth_error (itemsToProcess R) (S j)) as [next|] eqn:En;
      injection L as <- _ _; simpl in Hin.
    - rewrite map_map in Hin. apply in_map_iff in Hin.
      destruct Hin as [i0 [E Hi0]]. exists i0. split; [exact Hi0|].
      rewrite markProcessing_other in E; [now symmetry|].
      rewrite id_settleMark. intros E'.
      assert (Hi : id i = id i0).
      { rewrite <- E. now rewrite id_markProcessing, id_settleMark. }
      assert (Hjj : r = r /\ j = S j).
      { apply (inv_inj I r R j item r R (S j) next HR Hitem HR En). congruence. }
      lia.
    - apply in_map_iff in Hin. destruct Hin as [i0 [E Hi0]]. exists i0.
      split; [exact Hi0 | now symmetry]. }
  destruct Hshape as [i0 [Hi0 ->]]. rewrite id_settleMark in Hid.
  destruct (inv_owner I i0 Hi0) as [r0 [R0 [k0 [u0 [HR0 [Hu0 [Hid0 Hex]]]]]]].
  assert (Hsame : r0 = r /\ k0 = j).
  { apply (inv_inj I _ _ _ _ _ _ _ _ HR0 Hu0 HR Hitem). congruence. }
  destruct Hsame as [-> ->].
  assert (R0 = R) by congruence. subst R0.
  rewrite Hpc in Hex. destruct Hex as [_ [Hst _]]. specialize (Hst eq_refl).
  pose proof (unitOk_cases _ (inv_units I i0 Hi0)) as Hok. rewrite Hst in Hok.
  destruct Hok as [Hd He].
  apply String.eqb_eq in Hid.
  subst o. destruct response as [metadata| |]; simpl;
    unfold markCompleted, markError; rewrite Hid; simpl; auto.
  split; [reflexivity|]. split; [exact He|].
  eexists. split; [reflexivity|]. simpl. repeat split; reflexivity.
Qed.

Lemma generation_outcome_in_queue_witness :
  let sOk :=
    stateAfter (threeAdmitted
                  ++ [GenerationSettled 0
                        (generateStockMetadata (jpeg "a.jpg") initialConfig
                           (ResponseText (sampleMetadata "A2" ["cat"; "sun"])))]) in
  let iOk := {| id := "a1b2"; file := jpeg "a.jpg"; status := Completed;
                data := Some refinedSample; error := None |} in
  let sErr :=
    stateAfter (threeAdmitted
                  ++ [GenerationSettled 0
                        (generateStockMetadata (jpeg "a.jpg") initialConfig
                                               ResponseNoText)]) in
  let iErr := {| id := "a1b2"; file := jpeg "a.jpg"; status := Error;
                 data := None;
                 error := Some "Gagal menganalisis file. Pastikan API Key valid dan file tidak rusak." |} in
  (In iOk (items (state (store sOk))) /\
   status iOk = Completed /\
   error iOk = None /\
   exists d,
     data iOk = Some d /\
     used_model d = Some midjourney /\
     title d = "A2" /\
     description d = "d" /\
     ai_prompt d = "p" /\
     keywords d = ["cat"; "sun"] /\
     category d = "c" /\
     technical_settings d = None) /\
  (In iErr (items (state (store sErr))) /\
   status iErr = Error /\
   data iErr = None /\
   error iErr = Some "Gagal menganalisis file. Pastikan API Key valid dan file tidak rusak.").
Proof.
  intros sOk iOk sErr iErr.
  assert (Hreach : reachable (stateAfter threeAdmitted)).
  { exists threeAdmitted. vm_compute. reflexivity. }
  assert (Hnd : NoDup (issued (stateAfter threeAdmitted))) by distinct_strings.
  assert (HinOk : In iOk (items (state (store sOk)))).
  { vm_compute. left. reflexivity. }
  assert (HinErr : In iErr (items (state (store sErr)))).
  { vm_compute. left. reflexivity. }
  split; (split; [assumption|]).
  - refine (generation_outcome_in_queue
              (stateAfter threeAdmitted) sOk 0
              {| captured := initialConfig;
                 selected := [jpeg "a.jpg"; jpeg "b.jpg"; jpeg "c.jpg"];
                 itemsToProcess := createItems draws 0
                                     [jpeg "a.jpg"; jpeg "b.jpg"; jpeg "c.jpg"];
                 pc := Awaiting 0 |}
              0
              {| id := "a1b2"; file := jpeg "a.jpg"; status := Pending;
                 data := None; error := None |}
              (ResponseText (sampleMetadata "A2" ["cat"; "sun"]))
              Hreach Hnd _ _ _ _ iOk HinOk _).
    + reflexivity.
    + reflexivity.
    + reflexivity.
    + vm_compute. reflexivity.
    + reflexivity.
  - refine (generation_outcome_in_queue
              (stateAfter threeAdmitted) sErr 0
              {| captured := initialConfig;
                 selected := [jpeg "a.jpg"; jpeg "b.jpg"; jpeg "c.jpg"];
                 itemsToProcess := createItems draws 0
                                     [jpeg "a.jpg"; jpeg "b.jpg"; jpeg "c.jpg"];
                 pc := Awaiting 0 |}
              0
              {| id := "a1b2"; file := jpeg "a.jpg"; status := Pending;
                 data := None; error := None |}
              ResponseNoText
              Hreach Hnd _ _ _ _ iErr HinErr _).
    + reflexivity.
    + reflexivity.
    + reflexivity.
    + vm_compute. reflexivity.
    + reflexivity.
Defined.

(** ** geminiService.ts: the instructions *)

(** The model rules name the target model, and the aspect ratio for
    Midjourney only: two configurations get the same
    [modelInstruction] exactly when they have the same target model
    and, if that is Midjourney, the same aspect ratio. *)
Theorem modelInstruction_encodes (c1 c2 : PromptConfig) :
  getModelSpecificInstructions c1 = getModelSpecificInstructions c2 <->
  targetModel c1 = targetModel c2 /\
  (targetModel c1 = midjourney -> aspectRatio c1 = aspectRatio c2).
Proof.
  unfold getModelSpecificInstructions. split.
  - destruct (targetModel c1), (targetModel c2); intros H;
      try (simpl in H; discriminate H);
      (split; [reflexivity|]); try (intros E; discriminate E).
    intros _. apply string_app_inv_head in H.
    now apply string_app_inv_tail in H.
  - intros [Hm Hr]. rewrite <- Hm.
    destruct (targetModel c1); try reflexivity.
    now rewrite (Hr eq_refl).
Qed.

(** In the refine prompt the keyword instruction loses the number it
    has in the generation prompt: whatever the keyword density,
    requirement 3 is the generation prompt's item 4 with its head
    [4. keywords:] replaced. *)
Theorem refine_keyword_requirement (config : PromptConfig) :
  exists rest,
    getKeywordDensityInstruction (keywordDensity config)
    = ("4. keywords:" ++ rest)%string /\
    refineKeywordRequirement config
    = ("3. Ensure keyword count matches preference:" ++ rest)%string.
Proof.
  unfold refineKeywordRequirement.
  destruct (keywordDensity config); eexists; split; reflexivity.
Qed.

(** ** App.tsx: the unit in flight *)

(** A unit that is neither terminal nor pending is the one its runner
    awaits. *)
Lemma expectedAt_Processing (p : RunnerPc) (k : nat) :
  expectedAt p k Processing -> p = Awaiting k.
Proof.
  destruct p as [|j|]; simpl.
  - intros [].
  - intros [Hlt [_ Hgt]].
    destruct (Nat.lt_trichotomy k j) as [H | [-> | H]]; [|reflexivity|].
    + specialize (Hlt H). discriminate Hlt.
    + specialize (Hgt H). discriminate Hgt.
  - discriminate.
Qed.

(** A unit shown as processing has its generation call in flight: in
    every state reached with pairwise distinct ids, a unit of the queue
    whose status is [processing] is the item some runner awaits, the
    call for it has been made with that runner's captured
    configuration, and no other unit of that runner's batch is
    processing. *)
Theorem processing_unit_is_awaited (s : Sys) (i : BatchItem) :
  reachable s ->
  NoDup (issued s) ->
  In i (items (state (store s))) ->
  status i = Processing ->
  exists r R j u,
    nth_error (runners s) r = Some R /\
    pc R = Awaiting j /\
    nth_error (itemsToProcess R) j = Some u /\
    id u = id i /\
    In (callFor r R u) (calls s) /\
    forall i', In i' (items (state (store s))) ->
               status i' = Processing ->
               In (id i') (map id (itemsToProcess R)) ->
               i' = i.
Proof.
  intros Hr Hnd Hin Hst. pose proof (reachable_Inv s Hr Hnd) as I.
  destruct (inv_owner I i Hin) as [r [R [k [u [HR [Hu [Hid Hex]]]]]]].
  rewrite Hst in Hex. apply expectedAt_Processing in Hex.
  exists r, R, k, u. repeat split; auto.
  - assert (Hc : In (callFor r R u) (callsOf r (calls s))).
    { rewrite (reachable_callsInOrder s Hr r R HR). apply in_map.
      unfold dispatched. rewrite Hex.
      rewrite (firstn_S_nth_error _ _ _ Hu). apply in_or_app. right. now left. }
    apply filter_In in Hc. apply Hc.
  - intros i' Hin' Hst' Hid'.
    apply (NoDup_id_eq (items (state (store s))) i' i (inv_nodup I) Hin' Hin).
    destruct (inv_owner I i' Hin') as [r' [R' [k' [u' [HR' [Hu' [Hidu' Hex']]]]]]].
    rewrite Hst' in Hex'. apply expectedAt_Processing in Hex'.
    apply in_map_iff in Hid'. destruct Hid' as [v [Ev Hv]].
    apply In_nth_error in Hv. destruct Hv as [kv Hkv].
    assert (Hsame : r' = r /\ k' = kv).
    { apply (inv_inj I _ _ _ _ _ _ _ _ HR' Hu' HR Hkv). congruence. }
    destruct Hsame as [-> ->].
    assert (R' = R) by congruence. subst R'.
    assert (kv = k) by congruence. subst kv.
    congruence.
Qed.

Lemma processing_unit_is_awaited_witness :
  exists r R j u,
    nth_error (runners (stateAfter refineDuringBatch)) r = Some R /\
    pc R = Awaiting j /\
    nth_error (itemsToProcess R) j = Some u /\
    id u = "c3d4" /\
    In (callFor r R u) (calls (stateAfter refineDuringBatch)) /\
    forall i', In i' (items (state (store (stateAfter refineDuringBatch)))) ->
               status i' = Processing ->
               In (id i') (map id (itemsToProcess R)) ->
               i' = {| id := "c3d4"; file := jpeg "b.jpg"; status := Processing;
                       data := None; error := None |}.
Proof.
  apply (processing_unit_is_awaited
           (stateAfter refineDuringBatch)
           {| id := "c3d4"; file := jpeg "b.jpg"; status := Processing;
              data := None; error := None |}).
  - exists refineDuringBatch. vm_compute. reflexivity.
  - distinct_strings.
  - vm_compute. right. left. reflexivity.
  - reflexivity.
Defined.
